(** * Download orchestration and consolidation pipeline (descarga.py)

    A shallow embedding of the download/consolidation core of
    [src/descarga.py]: the task planner ([generar_urls_por_partes]), the
    lock manager ([file_lock]), the retrying fetcher ([descargar_archivo]),
    the orchestrator ([descargar_en_paralelo]), the consolidator
    ([consolidar_archivos_descargados]) and the batch entry point
    ([descargar_y_consolidar]).

    The Python code is effectful: it touches the file system, the network,
    the clock and a random generator, and it reports through three
    callbacks.  The embedding threads a [world] (the data files and the
    chronological trace of observable events) through a small state and
    exception monad; everything the process cannot decide by itself (what
    the server answers, whether another process holds a lock file, the
    random jitter, ...) is read from a script given as an argument. *)

From Stdlib Require Import QArith Lqa Ascii.
From stdpp Require Import gmap strings list pretty.

Local Open Scope string_scope.
Local Open Scope Z_scope.

(** ** Exceptions *)

(** The exception classes the code dispatches on.  [PermissionError] is the
    subclass of [OSError] Python raises for EACCES/EPERM, or the one built
    from a bare message (errno 0 here); [RequestException] is the root of
    the HTTP client's errors (itself an [IOError]). *)
Inductive exn :=
| PermissionError (errno : Z) (msg : string)
| OSError (errno : Z) (msg : string)
| RequestException (msg : string)
| KeyError (msg : string)
| ValueError (msg : string)
| Exception (msg : string).

Definition EACCES : Z := 13.
Definition EEXIST : Z := 17.

Definition is_PermissionError (e : exn) : bool :=
  match e with PermissionError _ _ => true | _ => false end.

Definition is_RequestException (e : exn) : bool :=
  match e with RequestException _ => true | _ => false end.

(** [isinstance(e, OSError)]: [IOError] is [OSError], and the HTTP client's
    exceptions derive from it. *)
Definition is_OSError (e : exn) : bool :=
  match e with
  | PermissionError _ _ | OSError _ _ | RequestException _ => true
  | _ => false
  end.

Definition exn_errno (e : exn) : Z :=
  match e with
  | PermissionError n _ | OSError n _ => n
  | _ => 0
  end.

(** [str(e)]. *)
Definition str_exn (e : exn) : string :=
  match e with
  | PermissionError _ m | OSError _ m | RequestException m
  | KeyError m | ValueError m | Exception m => m
  end.

(** Python's [needle in hay] on strings. *)
Fixpoint str_contains (needle hay : string) : bool :=
  String.prefix needle hay ||
  match hay with
  | EmptyString => false
  | String _ rest => str_contains needle rest
  end.

(** ** Observable events *)

Inductive sleep_kind := LockPoll | Throttle | RenameWait | Backoff.

(** Messages handed to [log_callback] (or to the module logger), kept as
    constructors with the values interpolated into the f-strings. *)
Inductive log_msg :=
| LogSkipExisting (path : string)
| LogAttempt (n retries : nat) (url : string)
| LogLockCleaned (path : string)
| LogLockNotRemoved (path : string)
| LogLockedByOther (path : string)
| LogDownloaded (path : string)
| LogServerErrorWait (sleep_time : Q)
| LogNoModules
| LogSelectedModules (names : list string)
| LogStartConsolidation
| LogConsolidating (name : string)
| LogConsolidationDone (ok : bool)
| LogStartDownload
| LogProcessingType (tipo : Z)
| LogDownloadingMissing (n : nat)
| LogNoMissing
| LogDownloadingAll
| LogDownloadDone
| LogBatchDone (ok : bool)
| LogNothingToConsolidate (folder : string)
| LogFileRead (name : string)
| LogRecordsLM (name : string) (kept total : nat)
| LogNothingProcessed
| LogSaved (path : string)
| LogTotalRecords (n : nat).

(** Messages handed to [error_callback(context, message)]. *)
Inductive err_msg :=
| ErrText (text : string)
| ErrInUse
| ErrConnection (attempt : nat) (text : string)
| ErrUnexpected (text : string)
| ErrRetriesExhausted (retries : nat) (text : string)
| ErrPoolConnection (text : string)
| ErrPoolUnexpected (text : string)
| ErrProcessFile (text : string)
| ErrSave (text : string)
| ErrConsolidation (text : string).

Inductive event :=
| EvLog (m : log_msg)
| EvLogger (m : log_msg)
| EvError (ctx : string) (m : err_msg)
| EvProgress (p : Q)
| EvLockAcquire (path : string)
| EvLockRelease (path : string)
| EvRequest (url : string)
| EvResponse (status : Z)
| EvOpenTrunc (path : string)
| EvWrite (path : string) (chunk : string)
| EvReplace (src dst : string)
| EvRemove (path : string)
| EvMakedirs (path : string)
| EvSleep (k : sleep_kind) (d : Q)
| EvSessionClose.

(** ** The world and its monad *)

(** [fs] holds the data files (a path is present iff the file exists; the
    value is its bytes, a [string] being a list of 8-bit characters).  Lock
    files are shared with other processes and are driven by the script. *)
Record world := World {
  fs : gmap string string;
  trace : list event
}.

Inductive res (A : Type) :=
| Val (a : A)
| Exc (e : exn).
Arguments Val {A} a.
Arguments Exc {A} e.

Definition M (A : Type) : Type := world -> res A * world.

#[global] Instance M_ret : MRet M := fun A a w => (Val a, w).
#[global] Instance M_bind : MBind M := fun A B f m w =>
  match m w with
  | (Val a, w') => f a w'
  | (Exc e, w') => (Exc e, w')
  end.

Definition raise {A} (e : exn) : M A := fun w => (Exc e, w).

(** [try: m  except ... as e: h e]: [h] sees every exception and re-raises
    the ones its clauses do not match. *)
Definition try_catch {A} (m : M A) (h : exn -> M A) : M A := fun w =>
  match m w with
  | (Val a, w') => (Val a, w')
  | (Exc e, w') => h e w'
  end.

(** [try: m  finally: f]; [f] does not raise in the uses below. *)
Definition finally {A} (m : M A) (f : M unit) : M A := fun w =>
  match m w with
  | (r, w') =>
      match f w' with
      | (Val _, w'') => (r, w'')
      | (Exc e, w'') => (Exc e, w'')
      end
  end.

Definition emit (e : event) : M unit := fun w =>
  (Val tt, World (fs w) (trace w ++ [e])).

Definition when (b : bool) (m : M unit) : M unit :=
  if b then m else mret tt.

(** Which of the three optional callbacks the caller supplied. *)
Record callbacks := Callbacks {
  cb_progress : bool;
  cb_log : bool;
  cb_error : bool
}.

Definition log_callback (cb : callbacks) (m : log_msg) : M unit :=
  when (cb_log cb) (emit (EvLog m)).
Definition error_callback (cb : callbacks) (ctx : string) (m : err_msg) : M unit :=
  when (cb_error cb) (emit (EvError ctx m)).
Definition progress_callback (cb : callbacks) (p : Q) : M unit :=
  when (cb_progress cb) (emit (EvProgress p)).

(** ** File-system primitives *)

Definition os_path_exists (p : string) : M bool := fun w =>
  (Val (bool_decide (is_Some (fs w !! p))), w).

(** [open(p, 'wb')]: creates or truncates, unless the OS refuses. *)
Definition open_wb (p : string) (err : option exn) : M unit := fun w =>
  match err with
  | Some e => (Exc e, w)
  | None => (Val tt, World (<[p := ""]> (fs w)) (trace w ++ [EvOpenTrunc p]))
  end.

Definition file_write (p : string) (chunk : string) : M unit := fun w =>
  (Val tt, World (<[p := default "" (fs w !! p) ++ chunk]> (fs w))
                 (trace w ++ [EvWrite p chunk])).

Definition os_path_getsize (p : string) : M Z := fun w =>
  match fs w !! p with
  | Some c => (Val (Z.of_nat (String.length c)), w)
  | None => (Exc (OSError 2 "No such file or directory"), w)
  end.

(** [os.replace(src, dst)]: one atomic step. *)
Definition os_replace (src dst : string) (err : option exn) : M unit := fun w =>
  match err with
  | Some e => (Exc e, w)
  | None =>
      match fs w !! src with
      | Some c => (Val tt, World (<[dst := c]> (delete src (fs w)))
                               (trace w ++ [EvReplace src dst]))
      | None => (Exc (OSError 2 "No such file or directory"), w)
      end
  end.

Definition os_remove (p : string) (ok : bool) : M unit := fun w =>
  if ok then
    match fs w !! p with
    | Some _ => (Val tt, World (delete p (fs w)) (trace w ++ [EvRemove p]))
    | None => (Exc (OSError 2 "No such file or directory"), w)
    end
  else (Exc (PermissionError EACCES "Permission denied"), w).

Definition time_sleep (k : sleep_kind) (d : Q) : M unit := emit (EvSleep k d).

(** ** Configuration read from the environment at start-up *)

Record config := Config {
  STALE_LOCK_MAX_AGE : Z;
  LOCK_WAIT_TIMEOUT : Q;
  LOCK_WAIT_INTERVAL : Q;
  DOWNLOAD_DELAY : Q;
  DIRECT_DOWNLOAD : bool;
  cwd : string
}.

(** The defaults of the module: locks are always evicted, 30 s of waiting,
    polls every 0.5 s, 0.5 s between chunks, chunked download. *)
Definition default_config : config :=
  Config 0 30 (1 # 2) (1 # 2) false "C:\app".

(** ** Scripts: what the environment answers *)

(** One poll of [os.open(lock, O_CREAT | O_EXCL | O_RDWR)] in [file_lock].
    A failed poll carries the errno and, for the EEXIST branch, the age the
    lock file shows ([None] when [getmtime] fails), whether [os.remove]
    succeeds, the time waited so far, and the rest of the polls. *)
Inductive lock_script :=
| LkOpened
| LkOpenFails (errno : Z) (msg : string) (age : option Q) (remove_ok : bool)
              (elapsed : Q) (next : lock_script).

(** An HTTP response: the body arrives as chunks (each with a flag telling
    whether half a second passed since the last progress update) and the
    stream may break after them. *)
Record response := Response {
  status : Z;
  reason : string;
  content_length : Z;
  chunks : list (string * bool);
  stream_error : option exn
}.

Inductive get_script :=
| GetRaises (e : exn)
| GetResponse (r : response).

Record attempt_script := AttemptScript {
  as_lock : lock_script;
  as_locking : option exn;
  as_get : get_script;
  as_open_temp : option exn;
  as_replace : option exn;
  as_remove_temp_ok : bool;
  as_jitter : Q;
  as_extra : Q
}.

(** ** Lock manager: [file_lock] (descarga.py, l. 186-236) *)

Definition Qgt_bool (a b : Q) : bool := negb (Qle_bool a b).

Fixpoint file_lock_acquire (cfg : config) (cb : callbacks)
    (output_path file_path : string) (s : lock_script) : M unit :=
  match s with
  | LkOpened => emit (EvLockAcquire file_path)
  | LkOpenFails errno msg age remove_ok elapsed next =>
      if errno =? EEXIST then
        let age := default 0%Q age in
        let retry := file_lock_acquire cfg cb output_path file_path next in
        let wait :=
          if Qle_bool (LOCK_WAIT_TIMEOUT cfg) elapsed then
            log_callback cb (LogLockedByOther output_path);;
            raise (OSError 0 "File is locked by another process")
          else
            time_sleep LockPoll (LOCK_WAIT_INTERVAL cfg);; retry in
        if (STALE_LOCK_MAX_AGE cfg <=? 0)
           || Qgt_bool age (inject_Z (STALE_LOCK_MAX_AGE cfg)) then
          if remove_ok then
            emit (EvRemove file_path);;
            (if cb_log cb then emit (EvLog (LogLockCleaned file_path))
             else emit (EvLogger (LogLockCleaned file_path)));;
            retry
          else
            emit (EvLogger (LogLockNotRemoved file_path));; wait
        else wait
      else raise (OSError errno msg)
  end.

(** The context manager: acquire, take the advisory lock, run the body and
    release on every exit path. *)
Definition with_file_lock {A} (cfg : config) (cb : callbacks)
    (output_path file_path : string) (s : lock_script)
    (locking : option exn) (body : M A) : M A :=
  file_lock_acquire cfg cb output_path file_path s;;
  finally
    (match locking with
     | Some e => raise e
     | None => body
     end)
    (emit (EvLockRelease file_path)).

(** ** Retrying fetcher: [descargar_archivo] (descarga.py, l. 149-371) *)

Definition retries : nat := 5.
Definition retry_delay : Q := 5.

(** [session.get(url, stream=not direct_download, ...)]: without streaming
    the client reads the whole body before returning, so a broken body
    surfaces here. *)
Definition session_get (cfg : config) (url : string) (g : get_script) : M response :=
  emit (EvRequest url);;
  match g with
  | GetRaises e => raise e
  | GetResponse r =>
      match DIRECT_DOWNLOAD cfg, stream_error r with
      | true, Some e => raise e
      | _, _ => emit (EvResponse (status r));; mret r
      end
  end.

(** [response.raise_for_status()] of the HTTP client. *)
Definition raise_for_status (url : string) (r : response) : M unit :=
  if (400 <=? status r) && (status r <? 500) then
    raise (RequestException
             (pretty (status r) ++ " Client Error: " ++ reason r ++ " for url: " ++ url))
  else if (500 <=? status r) && (status r <? 600) then
    raise (RequestException
             (pretty (status r) ++ " Server Error: " ++ reason r ++ " for url: " ++ url))
  else mret tt.

Definition str_nonempty (s : string) : bool :=
  match s with EmptyString => false | _ => true end.

Definition Zlen (s : string) : Z := Z.of_nat (String.length s).

(** The chunk loop [for chunk in response.iter_content(...)]. *)
Fixpoint iter_content (cfg : config) (cb : callbacks) (temp_file_path : string)
    (total_size bytes_downloaded : Z) (cs : list (string * bool))
    (err : option exn) : M unit :=
  match cs with
  | [] => match err with Some e => raise e | None => mret tt end
  | (chunk, tick) :: rest =>
      if str_nonempty chunk then
        file_write temp_file_path chunk;;
        let bytes_downloaded := bytes_downloaded + Zlen chunk in
        when tick
          (when (0 <? total_size)
             (progress_callback cb
                ((inject_Z bytes_downloaded / inject_Z total_size) * 100)%Q));;
        when (Qgt_bool (DOWNLOAD_DELAY cfg) 0)
          (time_sleep Throttle (DOWNLOAD_DELAY cfg));;
        iter_content cfg cb temp_file_path total_size bytes_downloaded rest err
      else
        iter_content cfg cb temp_file_path total_size bytes_downloaded rest err
  end.

Definition body_of (r : response) : string :=
  foldr (fun c acc => fst c ++ acc) "" (chunks r).

(** How one pass through the [for attempt in range(retries)] body ends. *)
Inductive ctl := CReturn (b : bool) | CContinue | CBreak.

(** The [with file_lock(lock_file_path):] block of one attempt (l. 260-271):
    the request and the status checks. *)
Definition request_phase (cfg : config) (url output_path : string) (cb : callbacks)
    (s : attempt_script) : M response :=
  let lock_file_path := output_path ++ ".lock" in
  with_file_lock cfg cb output_path lock_file_path (as_lock s) (as_locking s)
    (r ← session_get cfg url (as_get s);
     if status r =? 401 then
       raise (PermissionError 0 "Autenticación NTLM rechazada (401 Unauthorized)")
     else
       raise_for_status url r;; mret r).

(** What follows the [with] block (l. 273-320): the body goes to the
    temporary file, its size is checked and it is renamed onto the
    destination. *)
Definition store_phase (cfg : config) (output_path : string) (cb : callbacks)
    (s : attempt_script) (response : response) : M ctl :=
  let temp_file_path := output_path ++ ".tmp" in
  let total_size := content_length response in
  open_wb temp_file_path (as_open_temp s);;
  (if DIRECT_DOWNLOAD cfg then
     file_write temp_file_path (body_of response);;
     when (cb_progress cb && (0 <? total_size)) (emit (EvProgress 100))
   else
     iter_content cfg cb temp_file_path total_size 0 (chunks response)
       (stream_error response));;
  size ← os_path_getsize temp_file_path;
  if (0 <? total_size) && negb (size =? total_size) then
    raise (RequestException "Downloaded file size mismatch")
  else
    try_catch
      (os_replace temp_file_path output_path (as_replace s);;
       log_callback cb (LogDownloaded output_path);;
       mret (CReturn true))
      (fun e =>
         if is_OSError e && (exn_errno e =? EACCES) then
           error_callback cb output_path ErrInUse;;
           time_sleep RenameWait 1;;
           mret CContinue
         else raise e).

(** The [try:] block of one attempt. *)
Definition try_body (cfg : config) (url output_path : string) (cb : callbacks)
    (attempt : nat) (s : attempt_script) : M ctl :=
  log_callback cb (LogAttempt (attempt + 1) retries url);;
  when (0 <? attempt)%nat (emit EvSessionClose);;
  response ← request_phase cfg url output_path cb s;
  store_phase cfg output_path cb s response.

(** [if os.path.exists(temp): try: os.remove(temp) except: pass]. *)
Definition cleanup_temp (temp_file_path : string) (remove_ok : bool) : M unit :=
  ex ← os_path_exists temp_file_path;
  when ex (try_catch (os_remove temp_file_path remove_ok) (fun _ => mret tt)).

Definition is_server_error_text (text : string) : bool :=
  str_contains "503" text || str_contains "502" text || str_contains "504" text.

(** The sleep before the next attempt (l. 340-351). *)
Definition backoff (cb : callbacks) (attempt : nat) (e : exn) (s : attempt_script) : M unit :=
  when (attempt <? retries - 1)%nat
    (let sleep_time := (retry_delay * inject_Z (2 ^ Z.of_nat attempt) + as_jitter s)%Q in
     if is_server_error_text (str_exn e) then
       let sleep_time := (sleep_time + as_extra s)%Q in
       log_callback cb (LogServerErrorWait sleep_time);;
       time_sleep Backoff sleep_time
     else
       time_sleep Backoff sleep_time).

(** The three [except] clauses, in source order.  The second component of
    the result is [last_exception]. *)
Definition on_exception (output_path : string) (cb : callbacks) (attempt : nat)
    (s : attempt_script) (last_exception : option exn) (e : exn)
    : M (ctl * option exn) :=
  let temp_file_path := output_path ++ ".tmp" in
  if is_PermissionError e then
    error_callback cb output_path (ErrText (str_exn e));;
    mret (CBreak, Some e)
  else if is_RequestException e then
    error_callback cb output_path (ErrConnection (attempt + 1) (str_exn e));;
    cleanup_temp temp_file_path (as_remove_temp_ok s);;
    backoff cb attempt e s;;
    mret (CContinue, Some e)
  else
    error_callback cb output_path (ErrUnexpected (str_exn e));;
    cleanup_temp temp_file_path (as_remove_temp_ok s);;
    mret (CReturn false, last_exception).

(** One iteration: the [try] block, its [except] clauses and the
    [finally]. *)
Definition attempt_once (cfg : config) (url output_path : string) (cb : callbacks)
    (attempt : nat) (s : attempt_script) (last_exception : option exn)
    : M (ctl * option exn) :=
  finally
    (try_catch
       (c ← try_body cfg url output_path cb attempt s; mret (c, last_exception))
       (on_exception output_path cb attempt s last_exception))
    (emit EvSessionClose).

(** After the loop: every retry failed. *)
Definition retries_failed (cb : callbacks) (output_path : string)
    (last_exception : option exn) : M bool :=
  match last_exception with
  | Some e => error_callback cb output_path (ErrRetriesExhausted retries (str_exn e))
  | None => mret tt
  end;;
  mret false.

(** [for attempt in range(retries)], [n] iterations left. *)
Fixpoint attempts_loop (cfg : config) (url output_path : string) (cb : callbacks)
    (sc : nat -> attempt_script) (n attempt : nat) (last_exception : option exn)
    : M bool :=
  match n with
  | O => retries_failed cb output_path last_exception
  | S n' =>
      r ← attempt_once cfg url output_path cb attempt (sc attempt) last_exception;
      match r with
      | (CReturn b, _) => mret b
      | (CContinue, last) =>
          attempts_loop cfg url output_path cb sc n' (S attempt) last
      | (CBreak, last) => retries_failed cb output_path last
      end
  end.

Definition descargar_archivo (cfg : config) (url output_path : string)
    (cb : callbacks) (overwrite : bool) (sc : nat -> attempt_script) : M bool :=
  ex ← os_path_exists output_path;
  if ex && negb overwrite then
    log_callback cb (LogSkipExisting output_path);;
    mret true
  else
    attempts_loop cfg url output_path cb sc retries 0 None.

(** ** Paths ([os.path] on the platform the program runs on) *)

Definition is_sep (c : Ascii.ascii) : bool :=
  Ascii.eqb c "\"%char || Ascii.eqb c "/"%char.

(** [os.path.join a b] for a relative [b] and a directory [a] that does not
    end in a separator. *)
Definition os_path_join (a b : string) : string := a ++ "\" ++ b.

(** [os.path.abspath] of a relative path. *)
Definition os_path_abspath (cfg : config) (p : string) : string :=
  os_path_join (cwd cfg) p.

Definition strip_drive (s : string) : string :=
  match s with
  | String _ (String c rest) => if Ascii.eqb c ":"%char then rest else s
  | _ => s
  end.

Fixpoint after_last_sep (s : string) : option string :=
  match s with
  | EmptyString => None
  | String c r =>
      match after_last_sep r with
      | Some t => Some t
      | None => if is_sep c then Some r else None
      end
  end.

Fixpoint before_last_sep (s : string) : option string :=
  match s with
  | EmptyString => None
  | String c r =>
      match before_last_sep r with
      | Some h => Some (String c h)
      | None => if is_sep c then Some EmptyString else None
      end
  end.

(** [os.path.basename]: what follows the last separator (after a drive
    letter). *)
Definition os_path_basename (s : string) : string :=
  let p := strip_drive s in default p (after_last_sep p).

(** [os.path.dirname], for a path with a directory part. *)
Definition os_path_dirname (s : string) : string :=
  default "" (before_last_sep s).

(** ** Task planner: [generar_urls_por_partes] (l. 122-148) *)

Definition anios : list Z := [2025; 2024; 2023; 2022; 2021; 2020; 2019; 2018].
Definition estados_tramite : list string := ["A"; "P"; "B"; "R"; "D"; "E"; "N"].

Definition construir_url (tipo anio : Z) (estado : string) : string * Z * string :=
  ("http://172.27.230.27/ReportServer" ++ "?%2FAGV_PTP%2FRPT_INMIGRA_PTP_REGUL_CCM"
   ++ "&nidtipoTramite=" ++ pretty tipo ++ "&anio=" ++ pretty anio
   ++ "&EstadoTramite=" ++ estado ++ "&rs:Format=" ++ "CSV",
   anio, estado).

(** Python dictionaries keep insertion order and the code iterates over
    them, so they are association lists here. *)
Definition generar_urls_por_partes : list (Z * list (string * Z * string)) :=
  map (fun tipo =>
         (tipo,
          flat_map (fun anio => map (fun estado => construir_url tipo anio estado)
                                    estados_tramite) anios))
      [58; 57; 317; 55].

Definition dict_get {V} (k : Z) (d : list (Z * V)) : option V :=
  snd <$> List.find (fun kv => fst kv =? k) d.

(** [d[k] = v]: in place for a known key, at the end for a new one. *)
Fixpoint dict_set {V} (k : Z) (v : V) (d : list (Z * V)) : list (Z * V) :=
  match d with
  | [] => [(k, v)]
  | (k', v') :: rest =>
      if k' =? k then (k, v) :: rest else (k', v') :: dict_set k v rest
  end.

(** ** [crear_carpetas] (l. 55-71) *)

Definition tipos_tramite : list (Z * string) := [(58, "CCM"); (57, "PRR")].

(** [os.makedirs(folder, exist_ok=True)]; the script says whether the OS
    refuses. *)
Definition os_makedirs (mk : string -> option exn) (folder : string) : M unit :=
  match mk folder with
  | Some e => raise e
  | None => emit (EvMakedirs folder)
  end.

Fixpoint crear_carpetas_loop (cfg : config) (mk : string -> option exn)
    (items : list (Z * string)) (output_folders : list (Z * string))
    : M (list (Z * string)) :=
  match items with
  | [] => mret output_folders
  | (tipo, nombre) :: rest =>
      let folder := os_path_abspath cfg (os_path_join "descargas" nombre) in
      os_makedirs mk folder;;
      crear_carpetas_loop cfg mk rest (output_folders ++ [(tipo, folder)])
  end.

Definition crear_carpetas (cfg : config) (mk : string -> option exn)
    : M (list (Z * string)) :=
  crear_carpetas_loop cfg mk tipos_tramite [].

(** ** [remove_stale_lock_files] (l. 74-121) *)

(** [found] lists the [.lock] files the walk meets, each with its age
    ([None] when [getmtime] fails) and whether [os.remove] succeeds. *)
Fixpoint sweep_locks (cfg : config) (cb : callbacks)
    (found : list (string * option Q * bool)) (removed : list string)
    : M (list string) :=
  match found with
  | [] => mret removed
  | (lock_path, None, _) :: rest => sweep_locks cfg cb rest removed
  | (lock_path, Some age, remove_ok) :: rest =>
      let max_age := STALE_LOCK_MAX_AGE cfg in
      if (max_age <=? 0) || Qgt_bool age (inject_Z max_age) then
        if remove_ok then
          emit (EvRemove lock_path);;
          (if cb_log cb then emit (EvLog (LogLockCleaned lock_path))
           else emit (EvLogger (LogLockCleaned lock_path)));;
          sweep_locks cfg cb rest (removed ++ [lock_path])
        else
          emit (EvLogger (LogLockNotRemoved lock_path));;
          sweep_locks cfg cb rest removed
      else sweep_locks cfg cb rest removed
  end.

Definition remove_stale_lock_files (cfg : config) (cb : callbacks)
    (base_exists : bool) (found : list (string * option Q * bool))
    : M (list string) :=
  if negb base_exists then mret [] else sweep_locks cfg cb found [].

(** ** Orchestrator: [descargar_en_paralelo] (l. 372-423) *)

(** What a future holds once its task ran: the value or the exception. *)
Definition capture {A} (m : M A) : M (res A) := fun w =>
  match m w with (r, w') => (Val r, w') end.

(** The network script of a batch: for each URL, the script of each attempt. *)
Definition net_script := string -> nat -> attempt_script.

(** Submission.  The pool runs the tasks concurrently on distinct
    destination paths; here each task runs to completion when submitted. *)
Fixpoint submit_tasks (cfg : config) (cb : callbacks) (net : net_script)
    (output_folder : string) (urls : list (string * Z * string))
    : M (list (res bool * string)) :=
  match urls with
  | [] => mret []
  | (url, anio, estado) :: rest =>
      let file_path := os_path_join output_folder (pretty anio ++ "_" ++ estado ++ ".csv") in
      future ← capture (descargar_archivo cfg url file_path
                          (Callbacks false (cb_log cb) (cb_error cb)) true (net url));
      tasks ← submit_tasks cfg cb net output_folder rest;
      mret ((future, file_path) :: tasks)
  end.

(** The result loop: in submission order. *)
Fixpoint process_tasks (cb : callbacks) (total_files completed_files : nat)
    (tasks : list (res bool * string)) (downloaded_files : list string)
    : M (list string) :=
  match tasks with
  | [] => mret downloaded_files
  | (Val ok, file_path) :: rest =>
      let downloaded_files :=
        if ok then (downloaded_files ++ [file_path])%list else downloaded_files in
      let completed_files := S completed_files in
      progress_callback cb
        ((inject_Z (Z.of_nat completed_files) / inject_Z (Z.of_nat total_files)) * 80)%Q;;
      process_tasks cb total_files completed_files rest downloaded_files
  | (Exc e, file_path) :: rest =>
      (if is_RequestException e then
         error_callback cb "archivo" (ErrPoolConnection (str_exn e))
       else
         error_callback cb "archivo" (ErrPoolUnexpected (str_exn e)));;
      process_tasks cb total_files completed_files rest downloaded_files
  end.

Definition descargar_en_paralelo (cfg : config) (cb : callbacks) (net : net_script)
    (tipo : Z) (urls : list (string * Z * string)) (output_folder : string)
    : M (list string) :=
  let total_files := length urls in
  tasks ← submit_tasks cfg cb net output_folder urls;
  process_tasks cb total_files 0 tasks [].

(** ** Data frames *)

(** A data frame read with [dtype=str]: the column labels and the rows; a
    row maps a column to its text, a missing key being a NaN cell. *)
Record frame := Frame {
  columns : list string;
  rows : list (gmap string string)
}.

(** The two entry points of the data-frame library whose byte-level
    behaviour is not this program's: the CSV reader applied to the bytes of
    a file ([skiprows=3], [utf-8-sig], bad lines skipped, text cells) and
    the CSV writer of [to_csv]. *)
Record pandas := Pandas {
  parse_csv : string -> res frame;
  render_csv : frame -> string
}.

Definition pd_read_csv (pd : pandas) (archivo : string) : M frame := fun w =>
  match fs w !! archivo with
  | Some bytes => (parse_csv pd bytes, w)
  | None => (Exc (OSError 2 "No such file or directory"), w)
  end.

Definition starts_with_LM (r : gmap string string) : bool :=
  match r !! "NumeroTramite" with
  | Some v => String.prefix "LM" v
  | None => false
  end.

(** [df[df['NumeroTramite'].str.startswith('LM')]]: a missing column is a
    [KeyError]; a NaN cell gives a NaN in the mask, which boolean indexing
    rejects. *)
Definition filter_LM (df : frame) : res frame :=
  if bool_decide ("NumeroTramite" ∈ columns df) then
    if forallb (fun r => bool_decide (is_Some (r !! "NumeroTramite"))) (rows df) then
      Val (Frame (columns df) (List.filter starts_with_LM (rows df)))
    else Exc (ValueError "Cannot mask with non-boolean array containing NA / NaN values")
  else Exc (KeyError "NumeroTramite").

(** [df[name] = value]. *)
Definition set_column (name value : string) (df : frame) : frame :=
  Frame (if bool_decide (name ∈ columns df) then columns df
         else (columns df ++ [name])%list)
        (map (insert name value) (rows df)).

(** [pd.concat(dataframes, ignore_index=True)]. *)
Definition pd_concat (dataframes : list frame) : frame :=
  Frame (foldl (fun acc df =>
                  (acc ++ List.filter (fun c => negb (bool_decide (c ∈ acc))) (columns df))%list)
               [] dataframes)
        (concat (map rows dataframes)).

Definition lift_res {A} (r : res A) : M A := fun w => (r, w).

(** ** Consolidator: [consolidar_archivos_descargados] (l. 1054-1118) *)

(** The [try] block of the per-file loop. *)
Definition procesar_archivo (pd : pandas) (cb : callbacks)
    (base_progress progress_weight : Q) (total_files index : nat)
    (archivo : string) (dataframes : list frame) : M (list frame) :=
  df ← pd_read_csv pd archivo;
  log_callback cb (LogFileRead (os_path_basename archivo));;
  let total_records := length (rows df) in
  df ← lift_res (filter_LM df);
  log_callback cb (LogRecordsLM (os_path_basename archivo) (length (rows df)) total_records);;
  let df := set_column "ARCHIVO_ORIGEN" (os_path_basename archivo) df in
  let dataframes := (dataframes ++ [df])%list in
  progress_callback cb
    (base_progress
     + inject_Z (Z.of_nat (index + 1)) / inject_Z (Z.of_nat total_files) * progress_weight)%Q;;
  mret dataframes.

Fixpoint consolidar_loop (pd : pandas) (cb : callbacks)
    (base_progress progress_weight : Q) (total_files index : nat)
    (files : list string) (dataframes : list frame) : M (list frame) :=
  match files with
  | [] => mret dataframes
  | archivo :: rest =>
      dataframes ← try_catch
        (procesar_archivo pd cb base_progress progress_weight total_files index
           archivo dataframes)
        (fun e =>
           error_callback cb archivo (ErrProcessFile (str_exn e));;
           mret dataframes);
      consolidar_loop pd cb base_progress progress_weight total_files (S index)
        rest dataframes
  end.

(** [df.to_csv(output_file, ...)]; the script says whether the write fails. *)
Definition to_csv (pd : pandas) (wr : string -> option exn) (output_file : string)
    (df : frame) : M unit := fun w =>
  match wr output_file with
  | Some e => (Exc e, w)
  | None => (Val tt, World (<[output_file := render_csv pd df]> (fs w))
                           (trace w ++ [EvWrite output_file (render_csv pd df)]))
  end.

(** The environment of a consolidation: directory creation and the final
    write may fail. *)
Record disk_script := DiskScript {
  ds_makedirs : string -> option exn;
  ds_write : string -> option exn
}.

Definition consolidar_archivos_descargados (pd : pandas) (ds : disk_script)
    (cb : callbacks) (folder output_file : string) (downloaded_files : list string)
    (base_progress progress_weight : Q) : M unit :=
  match downloaded_files with
  | [] => log_callback cb (LogNothingToConsolidate folder)
  | _ =>
      let total_files := length downloaded_files in
      dataframes ← consolidar_loop pd cb base_progress progress_weight total_files 0
                     downloaded_files [];
      match dataframes with
      | [] => log_callback cb LogNothingProcessed
      | _ =>
          try_catch
            (let df_consolidado := pd_concat dataframes in
             os_makedirs (ds_makedirs ds) (os_path_dirname output_file);;
             to_csv pd (ds_write ds) output_file df_consolidado;;
             log_callback cb (LogSaved output_file);;
             log_callback cb (LogTotalRecords (length (rows df_consolidado))))
            (fun e => error_callback cb output_file (ErrSave (str_exn e)))
      end
  end.

(** ** Batch entry point: [descargar_y_consolidar] (l. 424-575) *)

Definition module_name_to_id : list (string * Z) := [("CCM", 58); ("PRR", 57)].

Definition name_to_id (name : string) : option Z :=
  snd <$> List.find (fun kv => String.eqb (fst kv) name) module_name_to_id.

Definition id_to_name (id : Z) : option string :=
  fst <$> List.find (fun kv => snd kv =? id) module_name_to_id.

(** [[module_name_to_id[name] for name, selected in selected_modules.items()
    if selected]]: a selected name that is not a module is a [KeyError]. *)
Fixpoint selected_ids_of (selected_modules : list (string * bool)) : res (list Z) :=
  match selected_modules with
  | [] => Val []
  | (name, selected) :: rest =>
      if selected then
        match name_to_id name with
        | Some id =>
            match selected_ids_of rest with
            | Val ids => Val (id :: ids)
            | Exc e => Exc e
            end
        | None => Exc (KeyError name)
        end
      else selected_ids_of rest
  end.

(** Truth value of the optional dictionary [selected_modules]. *)
Definition truthy (selected_modules : option (list (string * bool))) : bool :=
  match selected_modules with
  | Some (_ :: _) => true
  | _ => false
  end.

Record batch_script := BatchScript {
  bs_disk : disk_script;
  bs_locks_found : list (string * option Q * bool);
  bs_net : net_script
}.

(** [glob.glob(os.path.join(folder, "*.csv"))], the files directly in
    [folder] whose name ends in [.csv], without the earlier consolidated
    outputs. *)
Definition ends_with (suffix s : string) : bool :=
  String.prefix (String.rev suffix) (String.rev s).

Definition files_to_consolidate (folder : string) (w : world) : list string :=
  List.filter
    (fun f => String.prefix (folder ++ "\") f
              && String.eqb (os_path_basename f)
                   (String.substring (String.length folder + 1)
                      (String.length f - (String.length folder + 1)) f)
              && ends_with ".csv" f
              && negb (str_contains "consolidado_total" f))
    ((map_to_list (fs w)).*1).

Definition get_world : M world := fun w => (Val w, w).

(** The consolidation loop over the selected folders; [inputs] gives the
    file list of each module.  The second component is
    [consolidation_success]. *)
Fixpoint consolidar_carpetas (pd : pandas) (ds : disk_script) (cb : callbacks)
    (inputs : Z -> string -> world -> list string)
    (base_progress progress_weight : Q)
    (folders : list (Z * string)) (consolidation_success : bool) : M bool :=
  match folders with
  | [] => mret consolidation_success
  | (tipo, folder) :: rest =>
      let folder_name := os_path_basename folder in
      let output_file :=
        os_path_join folder ("consolidado_total_" ++ folder_name ++ ".csv") in
      log_callback cb (LogConsolidating folder_name);;
      w ← get_world;
      ok ← try_catch
        (consolidar_archivos_descargados pd ds cb folder output_file
           (inputs tipo folder w) base_progress progress_weight;;
         mret consolidation_success)
        (fun e =>
           error_callback cb ("consolidacion_" ++ folder_name)
             (ErrConsolidation (str_exn e));;
           mret false);
      consolidar_carpetas pd ds cb inputs base_progress progress_weight rest ok
  end.

(** The download loop [for tipo, urls in urls_por_partes.items()]. *)
Fixpoint descargar_tipos (cfg : config) (cb : callbacks) (net : net_script)
    (download_option : string) (folders : list (Z * string))
    (urls_por_partes : list (Z * list (string * Z * string)))
    (downloaded_by_type : list (Z * list string)) : M (list (Z * list string)) :=
  match urls_por_partes with
  | [] => mret downloaded_by_type
  | (tipo, urls) :: rest =>
      log_callback cb (LogProcessingType tipo);;
      output_folder ← match dict_get tipo folders with
                      | Some f => mret f
                      | None => raise (KeyError (pretty tipo))
                      end;
      downloaded ←
        (if String.eqb download_option "missing" then
           w ← get_world;
           let urls_to_download :=
             List.filter
               (fun u => match u with
                         | (url, anio, estado) =>
                             negb (bool_decide (is_Some
                               (fs w !! os_path_join output_folder
                                          (pretty anio ++ "_" ++ estado ++ ".csv"))))
                         end) urls in
           match urls_to_download with
           | _ :: _ =>
               log_callback cb (LogDownloadingMissing (length urls_to_download));;
               descargar_en_paralelo cfg cb net tipo urls_to_download output_folder
           | [] =>
               log_callback cb LogNoMissing;;
               mret []
           end
         else
           log_callback cb LogDownloadingAll;;
           descargar_en_paralelo cfg cb net tipo urls output_folder);
      descargar_tipos cfg cb net download_option folders rest
        (dict_set tipo downloaded downloaded_by_type)
  end.

Definition descargar_y_consolidar (cfg : config) (pd : pandas) (bs : batch_script)
    (download_option : string) (cb : callbacks) (overwrite : bool)
    (selected_modules : option (list (string * bool))) : M (option bool) :=
  folders ← crear_carpetas cfg (ds_makedirs (bs_disk bs));
  remove_stale_lock_files cfg cb true (bs_locks_found bs);;
  selected ← (if truthy selected_modules then
                lift_res (selected_ids_of (default [] selected_modules))
              else mret []);
  let folders :=
    if truthy selected_modules then
      List.filter (fun kv => bool_decide (fst kv ∈ selected)) folders
    else folders in
  match truthy selected_modules, folders with
  | true, [] =>
      log_callback cb LogNoModules;;
      mret None
  | _, _ =>
      when (truthy selected_modules)
        (log_callback cb
           (LogSelectedModules (omap (fun kv => id_to_name (fst kv)) folders)));;
      if String.eqb download_option "consolidate" then
        log_callback cb LogStartConsolidation;;
        ok ← consolidar_carpetas pd (bs_disk bs) cb
               (fun _ folder w => files_to_consolidate folder w)
               0 100 folders true;
        log_callback cb (LogConsolidationDone ok);;
        mret (Some ok)
      else
        let urls_por_partes :=
          if truthy selected_modules then
            List.filter (fun kv => bool_decide (fst kv ∈ selected)) generar_urls_por_partes
          else generar_urls_por_partes in
        (* In 'missing' mode [analyze_files] only reads the file system and
           its result is not used. *)
        log_callback cb LogStartDownload;;
        downloaded_by_type ← descargar_tipos cfg cb (bs_net bs) download_option
                               folders urls_por_partes [];
        log_callback cb LogDownloadDone;;
        log_callback cb LogStartConsolidation;;
        ok ← consolidar_carpetas pd (bs_disk bs) cb
               (fun tipo _ _ => default [] (dict_get tipo downloaded_by_type))
               80 20 folders true;
        log_callback cb (LogBatchDone ok);;
        mret (Some ok)
  end.

(** ** Overwrite decisions and file analysis (file_utils.py) *)

(** The module global [_global_overwrite_decision] is threaded through the
    functions that read or write it. *)

(** [set_global_overwrite_decision] (l. 9-17). *)
Definition set_global_overwrite_decision (decision : bool) (g : option bool)
    : option bool :=
  Some decision.

(** [if _global_overwrite_decision is None: ... = False; return ...]. *)
Definition read_overwrite_decision (g : option bool) : bool * option bool :=
  match g with
  | None => (false, Some false)
  | Some d => (d, Some d)
  end.

(** [confirm_overwrite_all] (l. 19-36). *)
Definition confirm_overwrite_all (existing_files : list string) (g : option bool)
    : bool * option bool :=
  match existing_files with
  | [] => (true, g)
  | _ :: _ => read_overwrite_decision g
  end.

(** [os.path.join a b] for a relative [b] without a drive: no separator is
    added after an empty [a], after a separator or after a bare drive. *)
Definition bare_drive (a : string) : bool :=
  match a with
  | String _ (String c EmptyString) => Ascii.eqb c ":"%char
  | _ => false
  end.

Definition ntpath_join (a b : string) : string :=
  match String.rev a with
  | EmptyString => b
  | String c _ => if is_sep c || bare_drive a then a ++ b else a ++ "\" ++ b
  end.

(** Dictionaries with string keys, in insertion order. *)
Definition sdict_get {V} (k : string) (d : list (string * V)) : option V :=
  snd <$> List.find (fun kv => String.eqb (fst kv) k) d.

Fixpoint sdict_set {V} (k : string) (v : V) (d : list (string * V)) : list (string * V) :=
  match d with
  | [] => [(k, v)]
  | (k', v') :: rest =>
      if String.eqb k' k then (k, v) :: rest else (k', v') :: sdict_set k v rest
  end.

(** The inner loop of [analyze_files]: the paths of one module, split into
    the existing and the missing ones. *)
Fixpoint analyze_module (folder : string) (urls : list (string * string))
    (files : gmap string string) (existing_files missing_files : list string)
    : list string * list string :=
  match urls with
  | [] => (existing_files, missing_files)
  | (_, filename) :: rest =>
      let file_path := ntpath_join folder filename in
      if bool_decide (is_Some (files !! file_path)) then
        analyze_module folder rest files (existing_files ++ [file_path])%list missing_files
      else
        analyze_module folder rest files existing_files (missing_files ++ [file_path])%list
  end.

(** [analyze_files] (l. 38-68); the second argument of the loop is the
    dictionary [analysis] built so far. *)
Fixpoint analyze_files_loop (items : list (string * list (string * string)))
    (folders : list (string * string)) (files : gmap string string)
    (analysis : list (string * (list string * list string)))
    : list (string * (list string * list string)) :=
  match items with
  | [] => analysis
  | (modulo, urls) :: rest =>
      let folder := default "" (sdict_get modulo folders) in
      analyze_files_loop rest folders files
        (sdict_set modulo (analyze_module folder urls files [] []) analysis)
  end.

Definition analyze_files (urls_por_partes : list (string * list (string * string)))
    (folders : list (string * string)) (files : gmap string string)
    : list (string * (list string * list string)) :=
  analyze_files_loop urls_por_partes folders files [].

(** [prompt_download_decision] (l. 109-124); the analysis is not used. *)
Definition prompt_download_decision (download_option : string) (g : option bool)
    : string * option bool :=
  if bool_decide (download_option ∈ ["all"; "missing"; "cancel"]) then
    (download_option,
     set_global_overwrite_decision (String.eqb download_option "all") g)
  else ("cancel", g).

(** [confirm_overwrite] (l. 126-144). *)
Definition confirm_overwrite (file_path : string) (force : bool)
    (files : gmap string string) (g : option bool) : bool * option bool :=
  if negb (bool_decide (is_Some (files !! file_path))) || force then (true, g)
  else read_overwrite_decision g.

(** ** Stored credentials (credentials_manager.py, descarga.py l. 34-40) *)

(** What [json.loads] can return (a number as a rational). *)
#[warnings="-register-all"]
Inductive json :=
| JNull
| JBool (b : bool)
| JNum (q : Q)
| JStr (s : string)
| JArr (items : list json)
| JObj (members : list (string * json)).

(** Python's truth value of a decoded value. *)
Definition truthy_json (v : json) : bool :=
  match v with
  | JNull => false
  | JBool b => b
  | JNum q => negb (Qeq_bool q 0)
  | JStr s => negb (String.eqb s "")
  | JArr items => match items with [] => false | _ => true end
  | JObj members => match members with [] => false | _ => true end
  end.

(** [v.get(key)]: only a dictionary has the method. *)
Definition json_get (key : string) (v : json) : res json :=
  match v with
  | JObj members => Val (default JNull (sdict_get key members))
  | _ => Exc (Exception "AttributeError: object has no attribute 'get'")
  end.

(** [str.strip()], on the whitespace of the ASCII range. *)
Definition is_space (c : Ascii.ascii) : bool :=
  let n := Ascii.nat_of_ascii c in
  ((9 <=? n) && (n <=? 13) || (28 <=? n) && (n <=? 32))%nat.

Fixpoint lstrip (s : string) : string :=
  match s with
  | EmptyString => EmptyString
  | String c rest => if is_space c then lstrip rest else s
  end.

Fixpoint rstrip (s : string) : string :=
  match s with
  | EmptyString => EmptyString
  | String c rest =>
      match rstrip rest with
      | EmptyString => if is_space c then EmptyString else String c EmptyString
      | r => String c r
      end
  end.

Definition strip (s : string) : string := lstrip (rstrip s).

(** The library functions the manager calls: [json.loads] ([None] for a
    [JSONDecodeError]), [json.dumps(..., indent=2)] and
    [base64.b64decode(...).decode("utf-8")] ([None] when either raises). *)
Record codec := Codec {
  json_loads : string -> option json;
  json_dumps : json -> string;
  b64decode : string -> option string
}.

(** Whether the operations on the credentials file succeed, and what a
    write that fails leaves of the file. *)
Record file_script := FileScript {
  read_ok : bool;
  write_ok : bool;
  write_leaves : option string -> option string;
  unlink_ok : bool
}.

(** The manager: the text of its file, if the file exists, and
    [self.credentials]. *)
Record manager := Manager {
  config_file : option string;
  credentials : json
}.

(** [_write_credentials] (l. 32-35). *)
Definition _write_credentials (lib : codec) (io : file_script) (data : json)
    (m : manager) : res unit * manager :=
  if write_ok io then (Val tt, Manager (Some (json_dumps lib data)) (credentials m))
  else (Exc (OSError EACCES "Permission denied"),
        Manager (write_leaves io (config_file m)) (credentials m)).

(** [_load_credentials] (l. 37-60): every failure ends with empty
    credentials. *)
Definition _load_credentials (lib : codec) (io : file_script) (m : manager) : manager :=
  match config_file m with
  | None => Manager (config_file m) (JObj [])
  | Some text =>
      if read_ok io then
        let raw := strip text in
        if String.eqb raw "" then Manager (config_file m) (JObj [])
        else
          match json_loads lib raw with
          | Some v => Manager (config_file m) v
          | None =>
              match b64decode lib raw with
              | Some decoded =>
                  match json_loads lib decoded with
                  | Some v =>
                      match _write_credentials lib io v (Manager (config_file m) v) with
                      | (Val _, m') => m'
                      | (Exc _, m') => Manager (config_file m') (JObj [])
                      end
                  | None => Manager (config_file m) (JObj [])
                  end
              | None => Manager (config_file m) (JObj [])
              end
          end
      else Manager (config_file m) (JObj [])
  end.

(** [CredentialsManager(...)]: a manager starts by loading its file. *)
Definition new_manager (lib : codec) (io : file_script) (file : option string) : manager :=
  _load_credentials lib io (Manager file (JObj [])).

(** [save_credentials] (l. 62-84); [now] is [datetime.utcnow().isoformat()]. *)
Definition save_credentials (lib : codec) (io : file_script) (now : string)
    (user password : string) (url : option string) (m : manager) : bool * manager :=
  let user := if negb (String.eqb user "") then strip user else user in
  if String.eqb user "" || String.eqb password "" then (false, m)
  else
    let payload :=
      [("ntlm_user", JStr user); ("ntlm_pass", JStr password);
       ("last_updated", JStr (now ++ "Z")); ("version", JStr "2.0")] in
    let payload :=
      match url with
      | Some u => if negb (String.eqb u "") then sdict_set "server_url" (JStr u) payload
                  else payload
      | None => payload
      end in
    match _write_credentials lib io (JObj payload) m with
    | (Val _, m') => (true, Manager (config_file m') (JObj payload))
    | (Exc _, m') => (false, m')
    end.

(** [get_credentials] (l. 86-98): the pair [(None, None)] is [(JNull, JNull)]. *)
Definition get_credentials (m : manager) : res (json * json) :=
  if negb (truthy_json (credentials m)) then Val (JNull, JNull)
  else
    match json_get "ntlm_user" (credentials m), json_get "ntlm_pass" (credentials m) with
    | Val user, Val password =>
        if truthy_json user && truthy_json password then Val (user, password)
        else Val (JNull, JNull)
    | Exc e, _ | _, Exc e => Exc e
    end.

(** [get_server_url] (l. 100-102). *)
Definition get_server_url (m : manager) : res json :=
  if truthy_json (credentials m) then json_get "server_url" (credentials m)
  else Val JNull.

(** [has_credentials] (l. 104-107). *)
Definition has_credentials (m : manager) : res bool :=
  match get_credentials m with
  | Val (user, password) => Val (truthy_json user && truthy_json password)
  | Exc e => Exc e
  end.

(** [clear_credentials] (l. 109-120). *)
Definition clear_credentials (io : file_script) (m : manager) : bool * manager :=
  match config_file m with
  | Some _ =>
      if unlink_ok io then (true, Manager None (JObj []))
      else (false, m)
  | None => (true, Manager None (JObj []))
  end.

(** [get_ntlm_credentials] (descarga.py, l. 34-40): [user.strip()] needs a
    string. *)
Definition get_ntlm_credentials (m : manager) : res (json * json) :=
  match get_credentials m with
  | Val (user, password) =>
      if negb (truthy_json user) || negb (truthy_json password) then
        Val (JStr "", JStr "")
      else
        match user with
        | JStr u => Val (JStr (strip u), password)
        | _ => Exc (Exception "AttributeError: object has no attribute 'strip'")
        end
  | Exc e => Exc e
  end.

(** ** Retrying with exponential backoff (utils_logging.py, l. 85-107) *)

(** What the wrapper does besides calling the function: the two messages
    of the module logger and the sleeps. *)
Inductive retry_event :=
| RetryWarning (retries : Z) (delay : Q)
| RetryError (max_retries : Z) (text : string)
| RetrySleep (delay : Q).

(** [retry_on_error(max_retries, base_delay, exceptions)(func)] applied to
    its arguments: [func] acts on a state [S]; [exceptions] tells the
    exceptions the [except] clause matches.  [iterations] is
    [max_retries - retries], so that [0] is the exit of
    [while retries < max_retries]; the result [None] is [Val None]. *)
Fixpoint retry_loop {S A : Type} (max_retries : Z) (base_delay : Q)
    (exceptions : exn -> bool) (func : S -> res A * S)
    (iterations : nat) (retries : Z) (s : S) : res (option A) * S * list retry_event :=
  match iterations with
  | O => (Val None, s, [])
  | Datatypes.S iterations' =>
      match func s with
      | (Val a, s') => (Val (Some a), s', [])
      | (Exc e, s') =>
          if exceptions e then
            let retries := retries + 1 in
            if retries =? max_retries then
              (Exc e, s', [RetryError max_retries (str_exn e)])
            else
              let delay := (base_delay * inject_Z (2 ^ (retries - 1)))%Q in
              match retry_loop max_retries base_delay exceptions func iterations' retries s' with
              | (r, s'', t) => (r, s'', RetryWarning retries delay :: RetrySleep delay :: t)
              end
          else (Exc e, s', [])
      end
  end.

Definition retry_on_error {S A : Type} (max_retries : Z) (base_delay : Q)
    (exceptions : exn -> bool) (func : S -> res A * S) (s : S)
    : res (option A) * S * list retry_event :=
  retry_loop max_retries base_delay exceptions func (Z.to_nat max_retries) 0 s.

(** ** Column names of the consolidated file (descarga.py, l. 580-632)

    [OperatorReport._map_and_validate_columns] works on the labels of
    [self.df]; the cells only follow their labels, and are kept as their
    text. *)

Definition required_columns : list string :=
  ["FechaPre"; "OperadorPre"; "NumeroTramite"; "FechaExpendiente"].

(** The historical names, in the order of the dictionary. *)
Definition column_mappings : list (string * string) :=
  [("FECHA DE TRABAJO", "FechaPre");
   ("FECHA TRABAJO", "FechaPre");
   ("FECHA_TRABAJO", "FechaPre");
   ("EVALUADOR", "OperadorPre");
   ("OPERADOR", "OperadorPre");
   ("EVALUADOR_PRE", "OperadorPre");
   ("EXPEDIENTE", "NumeroTramite");
   ("NRO_EXPEDIENTE", "NumeroTramite");
   ("NRO_TRAMITE", "NumeroTramite");
   ("FECHA_APROBACION", "FechaEtapaAprobacionMasivaFin");
   ("FECHA_EXPEDIENTE", "FechaExpendiente")].

(** [df.rename(columns={old: new}, inplace=True)]: the label changes where
    it stands, the cells follow it. *)
Definition rename_key (old new : string) (r : gmap string string) : gmap string string :=
  match r !! old with
  | Some v => <[new := v]> (delete old r)
  | None => delete new r
  end.

Definition rename_column (old new : string) (df : frame) : frame :=
  Frame ((fun c => if String.eqb c old then new else c) <$> columns df)
        (rename_key old new <$> rows df).

(** [df[name] = pd.NaT]: a column of missing cells. *)
Definition set_column_NaT (name : string) (df : frame) : frame :=
  Frame (if bool_decide (name ∈ columns df) then columns df
         else (columns df ++ [name])%list)
        (delete name <$> rows df).

(** [df[dst] = df[src]]. *)
Definition copy_column (src dst : string) (df : frame) : frame :=
  Frame (if bool_decide (dst ∈ columns df) then columns df
         else (columns df ++ [dst])%list)
        ((fun r => match r !! src with
                   | Some v => <[dst := v]> r
                   | None => delete dst r
                   end) <$> rows df).

Definition apply_mapping (df : frame) (m : string * string) : frame :=
  if bool_decide (m.1 ∈ columns df) && negb (bool_decide (m.2 ∈ columns df))
  then rename_column m.1 m.2 df
  else df.

(** The two date columns the method creates when they are absent. *)
Definition special_date_columns (df : frame) : frame :=
  let df :=
    if bool_decide ("FechaEtapaAprobacionMasivaFin" ∈ columns df) then df
    else set_column_NaT "FechaEtapaAprobacionMasivaFin" df in
  if bool_decide ("FechaExpendiente" ∈ columns df) then df
  else if bool_decide ("FechaPre" ∈ columns df)
       then copy_column "FechaPre" "FechaExpendiente" df
       else set_column_NaT "FechaExpendiente" df.

(** [_map_and_validate_columns]: the frame is changed in place, also when
    the method raises.  The labels of a frame are distinct, as [read_csv]
    makes them. *)
Definition _map_and_validate_columns (df : frame) : res unit * frame :=
  let df := fold_left apply_mapping column_mappings df in
  let df := special_date_columns df in
  let missing_columns :=
    List.filter (fun col => negb (bool_decide (col ∈ columns df))) required_columns in
  match missing_columns with
  | [] => (Val tt, df)
  | _ =>
      (Exc (ValueError
              ("Las siguientes columnas requeridas están ausentes en el archivo: "
               ++ String.concat ", " missing_columns)), df)
  end.

(** * Vocabulary of the statements *)


(** What a computation may do to the world: extend the trace with events
    satisfying [P] and change the files within the preorder [F]. *)
Definition rel (P : event -> Prop) (F : relation (gmap string string))
    (w w' : world) : Prop :=
  F (fs w) (fs w') /\ exists t, trace w' = (trace w ++ t)%list /\ Forall P t.

Definition keeps {A} (R : relation world) (m : M A) : Prop :=
  forall w, R w (m w).2.

(** The destination keeps its content. *)
Definition fs_at (out : string) : relation (gmap string string) :=
  fun f f' => f' !! out = f !! out.

Definition fs_any : relation (gmap string string) := fun _ _ => True.

(** The files outside [ps] keep their content. *)
Definition fs_only (ps : list string) : relation (gmap string string) :=
  fun f f' => forall p, p ∉ ps -> f' !! p = f !! p.

Definition lock_ev (file_path : string) (e : event) : Prop :=
  match e with
  | EvLockAcquire p | EvRemove p => p = file_path
  | EvLog _ | EvLogger _ | EvSleep LockPoll _ => True
  | _ => False
  end.

Definition AUTH_MSG : string := "Autenticación NTLM rechazada (401 Unauthorized)".

(** How the [with file_lock] block of an attempt can go. *)
Inductive request_outcome (cfg : config) (url lock : string) (s : attempt_script)
    : res response -> list event -> Prop :=
| RqNoLock e :
    request_outcome cfg url lock s (Exc e) []
| RqNoAdvisoryLock e :
    request_outcome cfg url lock s (Exc e) [EvLockRelease lock]
| RqGetRaises e :
    request_outcome cfg url lock s (Exc e) [EvRequest url; EvLockRelease lock]
| RqUnauthorized r :
    as_get s = GetResponse r -> status r = 401 ->
    request_outcome cfg url lock s (Exc (PermissionError 0 AUTH_MSG))
      [EvRequest url; EvResponse 401; EvLockRelease lock]
| RqBadStatus r msg :
    as_get s = GetResponse r -> status r <> 401 ->
    request_outcome cfg url lock s (Exc (RequestException msg))
      [EvRequest url; EvResponse (status r); EvLockRelease lock]
| RqResponse r :
    as_get s = GetResponse r -> status r <> 401 ->
    (DIRECT_DOWNLOAD cfg = true -> stream_error r = None) ->
    request_outcome cfg url lock s (Val r)
      [EvRequest url; EvResponse (status r); EvLockRelease lock].

Definition chunks_body (cs : list (string * bool)) : string :=
  foldr (fun c acc => fst c ++ acc) "" cs.

Definition stream_ev (cb : callbacks) (temp : string) (e : event) : Prop :=
  match e with
  | EvWrite p _ => p = temp
  | EvProgress _ => cb_progress cb = true
  | EvSleep Throttle _ => True
  | _ => False
  end.

(** Events of the store phase short of the rename. *)
Definition store_ev (cb : callbacks) (out : string) (e : event) : Prop :=
  match e with
  | EvOpenTrunc p | EvWrite p _ => p = out ++ ".tmp"
  | EvProgress _ => cb_progress cb = true
  | EvSleep Throttle _ | EvSleep RenameWait _ => True
  | EvLog _ | EvError _ _ => True
  | _ => False
  end.

Definition commit_ev (cb : callbacks) (out : string) (e : event) : Prop :=
  store_ev cb out e \/ e = EvReplace (out ++ ".tmp") out.

(** The events a run added to the trace. *)
Definition since (w w' : world) : list event :=
  drop (length (trace w)) (trace w').

Definition pre_ev (e : event) : Prop :=
  match e with
  | EvLog _ | EvSessionClose => True
  | _ => False
  end.

Definition err_ev (e : event) : Prop :=
  match e with EvError _ _ => True | _ => False end.

(** The events of [backoff]. *)
Definition backoff_trace (cb : callbacks) (attempt : nat) (e : exn)
    (s : attempt_script) : list event :=
  if (attempt <? retries - 1)%nat then
    let sleep_time := (retry_delay * inject_Z (2 ^ Z.of_nat attempt) + as_jitter s)%Q in
    if is_server_error_text (str_exn e) then
      ((if cb_log cb then [EvLog (LogServerErrorWait (sleep_time + as_extra s)%Q)] else [])
       ++ [EvSleep Backoff (sleep_time + as_extra s)%Q])%list
    else [EvSleep Backoff sleep_time]
  else [].

(** How the [except] clauses answer an exception: the result, and the
    events after the error report and the clean-up. *)
Definition handled (cb : callbacks) (attempt : nat) (s : attempt_script)
    (last : option exn) (e : exn) (r : res (ctl * option exn))
    (tc tb : list event) : Prop :=
  if is_PermissionError e then
    r = Val (CBreak, Some e) /\ tc = [] /\ tb = []
  else if is_RequestException e then
    r = Val (CContinue, Some e) /\ tb = backoff_trace cb attempt e s
  else
    r = Val (CReturn false, last) /\ tb = [].

(** How an attempt ends once the request phase is over: [ts] are the events
    of the store phase, [th] those of the [except] clauses. *)
Inductive attempt_end (cb : callbacks) (out : string) (attempt : nat)
    (s : attempt_script) (last : option exn) (w : world)
    : res response -> list event -> list event ->
      res (ctl * option exn) -> world -> Prop :=
| AeCommitted resp ts w' :
    Forall (commit_ev cb out) ts ->
    fs_only [out ++ ".tmp"; out] (fs w) (fs w') ->
    fs w' !! out = Some (body_of resp) ->
    (0 < content_length resp -> Zlen (body_of resp) = content_length resp) ->
    stream_error resp = None ->
    attempt_end cb out attempt s last w (Val resp) ts [] (Val (CReturn true, last)) w'
| AeRenameBusy resp ts w' :
    Forall (store_ev cb out) ts ->
    fs_only [out ++ ".tmp"] (fs w) (fs w') ->
    attempt_end cb out attempt s last w (Val resp) ts [] (Val (CContinue, last)) w'
| AeRequestFailed e te tc tb r w' :
    Forall err_ev te ->
    Forall (fun e => e = EvRemove (out ++ ".tmp")) tc ->
    fs_only [out ++ ".tmp"] (fs w) (fs w') ->
    handled cb attempt s last e r tc tb ->
    attempt_end cb out attempt s last w (Exc e) [] (te ++ tc ++ tb) r w'
| AeStoreFailed resp e ts te tc tb r w' :
    Forall (store_ev cb out) ts ->
    Forall err_ev te ->
    Forall (fun e => e = EvRemove (out ++ ".tmp")) tc ->
    fs_only [out ++ ".tmp"] (fs w) (fs w') ->
    handled cb attempt s last e r tc tb ->
    attempt_end cb out attempt s last w (Val resp) ts (te ++ tc ++ tb) r w'.

(** Everything a fetch can emit short of the rename. *)
Definition fetch_ev (cb : callbacks) (url out : string) (e : event) : Prop :=
  match e with
  | EvRequest u => u = url
  | EvProgress _ => cb_progress cb = true
  | EvOpenTrunc p | EvWrite p _ => p = out ++ ".tmp"
  | EvRemove p => p = out ++ ".tmp" \/ p = out ++ ".lock"
  | EvReplace _ _ | EvMakedirs _ => False
  | _ => True
  end.

Definition fetch_commit_ev (cb : callbacks) (url out : string) (e : event) : Prop :=
  fetch_ev cb url out e \/ e = EvReplace (out ++ ".tmp") out.

(** The events that change what is stored at [out]. *)
Definition touches (out : string) (e : event) : Prop :=
  match e with
  | EvOpenTrunc p | EvWrite p _ | EvRemove p => p = out
  | EvReplace _ dst => dst = out
  | _ => False
  end.

(** ** Example runs *)

Definition all_callbacks : callbacks := Callbacks true true true.

(** A lock acquired at the first poll, the given response, no OS error. *)
Definition reply (r : response) : attempt_script :=
  AttemptScript LkOpened None (GetResponse r) None None true (1 # 2) 7.

Definition reply_ok (body : string) : attempt_script :=
  reply (Response 200 "OK" (Zlen body) [(body, false)] None).

Definition reply_status (st : Z) (why : string) : attempt_script :=
  reply (Response st why 0 [] None).

Definition empty_world : world := World ∅ [].
Definition example_url : string := "http://172.27.230.27/ReportServer?x".
Definition example_path : string := "C:\app\descargas\CCM\2025_A.csv".
Definition old_world : world := World {[example_path := "old"]} [].

(** No request and no sleep. *)
Definition quiet (e : event) : Prop :=
  match e with
  | EvRequest _ | EvSleep _ _ => False
  | _ => True
  end.

Definition not_401 (e : event) : Prop := e <> EvResponse 401.

Definition not_response (e : event) : Prop :=
  match e with EvResponse _ => False | _ => True end.

(** ** The orchestrator *)

Definition task_path (output_folder : string) (u : string * Z * string) : string :=
  os_path_join output_folder (pretty u.1.2 ++ "_" ++ u.2 ++ ".csv").

(** The destinations of the tasks whose fetch returned [True]. *)
Definition succeeded (tasks : list (res bool * string)) : list string :=
  omap (fun t => match t.1 with Val true => Some t.2 | _ => None end) tasks.

(** Scenario: task A is answered 401, task B is answered 200. *)
Definition url_A : string := (construir_url 58 2025 "A").1.1.
Definition url_B : string := (construir_url 58 2025 "P").1.1.
Definition net_401_then_ok : net_script := fun url _ =>
  if String.eqb url url_A then reply_status 401 "Unauthorized" else reply_ok "LM1,x".

(** ** Requests and back-off sleeps of a trace *)

Definition is_request (e : event) : bool :=
  match e with EvRequest _ => true | _ => false end.

Definition n_requests (t : list event) : nat := length (List.filter is_request t).

Definition backoff_sleep (e : event) : option Q :=
  match e with EvSleep Backoff d => Some d | _ => None end.

Definition backoff_sleeps (t : list event) : list Q := omap backoff_sleep t.

(** The sleep before the [k]-th retry ([k >= 1]) after the request error
    [e]: [retry_delay * 2^(k-1)] plus the jitter, plus the extra delay when
    the text of the error mentions 502, 503 or 504. *)
Definition backoff_delay (k : nat) (s : attempt_script) (e : exn) : Q :=
  let sleep_time := (retry_delay * inject_Z (2 ^ Z.of_nat (k - 1)) + as_jitter s)%Q in
  if is_server_error_text (str_exn e) then (sleep_time + as_extra s)%Q else sleep_time.

(** Neither a request nor a back-off sleep. *)
Definition idle (e : event) : Prop :=
  is_request e = false /\ backoff_sleep e = None.

(** ** The lock and the writes *)

(** The events of the trace [t] that write the temporary file or rename it
    while the lock file [lock] is not held ([held] is the state of the lock
    at the start of [t]). *)
Fixpoint writes_outside_lock (lock : string) (held : bool) (t : list event)
    : list event :=
  match t with
  | [] => []
  | e :: rest =>
      match e with
      | EvLockAcquire p =>
          writes_outside_lock lock (if String.eqb p lock then true else held) rest
      | EvLockRelease p =>
          writes_outside_lock lock (if String.eqb p lock then false else held) rest
      | EvOpenTrunc _ | EvWrite _ _ | EvReplace _ _ =>
          if held then writes_outside_lock lock held rest
          else e :: writes_outside_lock lock held rest
      | _ => writes_outside_lock lock held rest
      end
  end.

(** ** The consolidator *)

(** What the [try] block of the per-file loop computes from the bytes of
    one file: the frame appended to [dataframes], or the exception. *)
Definition process_file (pd : pandas) (files : gmap string string)
    (archivo : string) : res frame :=
  match files !! archivo with
  | Some bytes =>
      match parse_csv pd bytes with
      | Val df =>
          match filter_LM df with
          | Val kept =>
              Val (set_column "ARCHIVO_ORIGEN" (os_path_basename archivo) kept)
          | Exc e => Exc e
          end
      | Exc e => Exc e
      end
  | None => Exc (OSError 2 "No such file or directory")
  end.

Definition frame_of (r : res frame) : option frame :=
  match r with Val df => Some df | Exc _ => None end.

(** The frames of the files that were processed, in the order of the list. *)
Definition processed (pd : pandas) (files : gmap string string)
    (archivos : list string) : list frame :=
  omap (fun archivo => frame_of (process_file pd files archivo)) archivos.

(** Log, error and progress reports. *)
Definition report_ev (e : event) : Prop :=
  match e with
  | EvLog _ | EvError _ _ | EvProgress _ => True
  | _ => False
  end.

(** Reports and directory creation: nothing is written. *)
Definition dry_ev (e : event) : Prop :=
  match e with
  | EvLog _ | EvError _ _ | EvProgress _ | EvMakedirs _ => True
  | _ => False
  end.

(** The two messages of a run that saves nothing for want of input. *)
Definition nothing_msg (folder : string) (m : log_msg) : Prop :=
  m = LogNothingToConsolidate folder \/ m = LogNothingProcessed.

(** How a consolidation run ends. *)
Inductive consolidation (pd : pandas) (ds : disk_script) (cb : callbacks)
    (folder output_file : string) (w : world) (dfs : list frame) (w' : world) : Prop :=
| NothingProcessed :
    dfs = [] -> rel report_ev eq w w' ->
    (cb_log cb = true ->
     exists m t, nothing_msg folder m /\ since w w' = (t ++ [EvLog m])%list) ->
    consolidation pd ds cb folder output_file w dfs w'
| NotSaved :
    dfs <> [] ->
    (is_Some (ds_makedirs ds (os_path_dirname output_file))
     \/ is_Some (ds_write ds output_file)) ->
    rel dry_ev eq w w' -> consolidation pd ds cb folder output_file w dfs w'
| Saved t1 t2 :
    dfs <> [] ->
    ds_makedirs ds (os_path_dirname output_file) = None ->
    ds_write ds output_file = None ->
    Forall dry_ev t1 -> Forall report_ev t2 ->
    since w w' = (t1 ++ EvWrite output_file (render_csv pd (pd_concat dfs)) :: t2)%list ->
    fs w' = <[output_file := render_csv pd (pd_concat dfs)]> (fs w) ->
    consolidation pd ds cb folder output_file w dfs w'.

(** ** A reader and a writer for plain comma-separated text

    An instance of [pandas] for text without quotes: lines end with a line
    feed, three lines are skipped, the fourth is the header, an empty cell is
    a NaN, an empty line and a line with too many cells are skipped. *)

Definition LF : Ascii.ascii := Ascii.ascii_of_nat 10.

Fixpoint split_on (sep : Ascii.ascii) (s : string) : list string :=
  match s with
  | EmptyString => [EmptyString]
  | String c r =>
      if Ascii.eqb c sep then EmptyString :: split_on sep r
      else match split_on sep r with
           | x :: xs => String c x :: xs
           | [] => [String c EmptyString]
           end
  end.

Definition row_of (cols cells : list string) : gmap string string :=
  list_to_map (List.filter (fun kv => negb (String.eqb kv.2 "")) (zip cols cells)).

Definition plain_parse (bytes : string) : res frame :=
  match drop 3 (split_on LF bytes) with
  | header :: body =>
      if String.eqb header "" then Exc (ValueError "No columns to parse from file")
      else
        let cols := split_on "," header in
        let lines := List.filter (fun l => negb (String.eqb l "")) body in
        let cells := List.filter (fun cs => Nat.leb (length cs) (length cols))
                                 (map (split_on ",") lines) in
        Val (Frame cols (map (row_of cols) cells))
  | [] => Exc (ValueError "No columns to parse from file")
  end.

Definition plain_line (cells : list string) : string :=
  String.concat "," cells ++ String LF "".

Definition plain_render (df : frame) : string :=
  String.concat ""
    (plain_line (columns df)
     :: map (fun r => plain_line (map (fun c => default "" (r !! c)) (columns df)))
            (rows df)).

Definition plain_csv : pandas := Pandas plain_parse plain_render.

Definition lines (ls : list string) : string :=
  String.concat "" (map (fun l => l ++ String LF "") ls).

Definition no_disk_error : disk_script := DiskScript (fun _ => None) (fun _ => None).

Definition report_2025_A : string :=
  lines ["Reporte"; ""; ""; "NumeroTramite,Estado"; "LM250001,A"; "XX250002,A"; "LM250003,A"].
Definition report_2024_A : string :=
  lines ["Reporte"; ""; ""; "NumeroTramite,Estado"; "XX240001,A"].
Definition report_2023_A : string :=
  lines ["Reporte"; ""; ""; "NumeroTramite,Estado"; "LM230001,A"].

Definition folder_CCM : string := "C:\app\descargas\CCM".
Definition output_CCM : string := "C:\app\descargas\CCM\consolidado_final.csv".
Definition path_2025_A : string := "C:\app\descargas\CCM\2025_A.csv".
Definition path_2024_A : string := "C:\app\descargas\CCM\2024_A.csv".
Definition path_2023_A : string := "C:\app\descargas\CCM\2023_A.csv".

(** One downloaded report, none of whose rows has the prefix. *)
Definition world_no_LM : world := World {[path_2024_A := report_2024_A]} [].

(** Two downloaded reports; a third path of the list does not exist. *)
Definition world_reports : world :=
  World {[path_2025_A := report_2025_A; path_2023_A := report_2023_A]} [].

(** The rows that a file contributes: those of its processed frame. *)
Definition partition_rows (pd : pandas) (files : gmap string string)
    (archivo : string) : list (gmap string string) :=
  match process_file pd files archivo with
  | Val df => rows df
  | Exc _ => []
  end.

(** No file exists under a path with an empty base name. *)
Definition proper_names (files : gmap string string) : Prop :=
  map_Forall (fun p _ => os_path_basename p <> "") files.

(** ** The batch entry point *)

Definition folder_of (cfg : config) (nombre : string) : string :=
  os_path_abspath cfg (os_path_join "descargas" nombre).

Definition folders_of (cfg : config) : list (Z * string) :=
  [(58, folder_of cfg "CCM"); (57, folder_of cfg "PRR")].

(** The first folder whose creation the OS refuses. *)
Definition makedirs_error (cfg : config) (mk : string -> option exn) : option exn :=
  match mk (folder_of cfg "CCM") with
  | Some e => Some e
  | None => mk (folder_of cfg "PRR")
  end.

(** The first category of the plan that has no folder. *)
Definition first_missing (folders : list (Z * string))
    (urls_por_partes : list (Z * list (string * Z * string))) : option Z :=
  fst <$> List.find (fun kv => negb (bool_decide (is_Some (dict_get kv.1 folders))))
                    urls_por_partes.

(** The download loop stops with a [KeyError] at the first category without
    a folder, and returns otherwise. *)
Definition download_result {A} (missing : option Z) (r : res A) : Prop :=
  match missing with
  | Some tipo => r = Exc (KeyError (pretty tipo))
  | None => exists d, r = Val d
  end.

(** What a batch call returns or raises. *)
Definition select (selected : list Z) {V} (d : list (Z * V)) : list (Z * V) :=
  List.filter (fun kv => bool_decide (fst kv ∈ selected)) d.

Definition download_outcome (folders : list (Z * string))
    (urls_por_partes : list (Z * list (string * Z * string))) : res (option bool) :=
  match first_missing folders urls_por_partes with
  | Some tipo => Exc (KeyError (pretty tipo))
  | None => Val (Some true)
  end.

Definition batch_outcome (cfg : config) (mk : string -> option exn)
    (download_option : string) (selected_modules : option (list (string * bool)))
    : res (option bool) :=
  match makedirs_error cfg mk with
  | Some e => Exc e
  | None =>
      if truthy selected_modules then
        match selected_ids_of (default [] selected_modules) with
        | Exc e => Exc e
        | Val selected =>
            match select selected (folders_of cfg) with
            | [] => Val None
            | folders =>
                if String.eqb download_option "consolidate" then Val (Some true)
                else download_outcome folders (select selected generar_urls_por_partes)
            end
        end
      else if String.eqb download_option "consolidate" then Val (Some true)
      else download_outcome (folders_of cfg) generar_urls_por_partes
  end.

(** The part of the batch that follows the selection. *)
Definition batch_tail (cfg : config) (pd : pandas) (bs : batch_script)
    (download_option : string) (cb : callbacks) (folders : list (Z * string))
    (urls_por_partes : list (Z * list (string * Z * string))) : M (option bool) :=
  if String.eqb download_option "consolidate" then
    log_callback cb LogStartConsolidation;;
    ok ← consolidar_carpetas pd (bs_disk bs) cb
           (fun _ folder w => files_to_consolidate folder w)
           0 100 folders true;
    log_callback cb (LogConsolidationDone ok);;
    mret (Some ok)
  else
    log_callback cb LogStartDownload;;
    downloaded_by_type ← descargar_tipos cfg cb (bs_net bs) download_option
                           folders urls_por_partes [];
    log_callback cb LogDownloadDone;;
    log_callback cb LogStartConsolidation;;
    ok ← consolidar_carpetas pd (bs_disk bs) cb
           (fun tipo _ _ => default [] (dict_get tipo downloaded_by_type))
           80 20 folders true;
    log_callback cb (LogBatchDone ok);;
    mret (Some ok).

Definition no_errors : batch_script :=
  BatchScript no_disk_error [] (fun _ _ => reply_ok "x").

(** Every fetch is answered 401. *)
Definition all_unauthorized : batch_script :=
  BatchScript no_disk_error [] (fun _ _ => reply_status 401 "Unauthorized").

(** Directory creation, lock sweeping and logging. *)
Definition housekeeping (e : event) : Prop :=
  match e with
  | EvMakedirs _ | EvRemove _ | EvLog _ | EvLogger _ => True
  | _ => False
  end.

(** The destinations of a group of the plan. *)
Definition destinations (folders : list (Z * string))
    (group : Z * list (string * Z * string)) : list string :=
  match dict_get group.1 folders with
  | Some folder => task_path folder <$> group.2
  | None => []
  end.

(** Every destination of the plan has a folder and exists. *)
Definition all_present (folders : list (Z * string))
    (urls_por_partes : list (Z * list (string * Z * string)))
    (files : gmap string string) : Prop :=
  Forall (fun group =>
            is_Some (dict_get group.1 folders) /\
            Forall (fun p => is_Some (files !! p)) (destinations folders group))
         urls_por_partes.

Definition log_ev (e : event) : Prop :=
  match e with EvLog _ => True | _ => False end.

(** The groups of the plan. *)
Definition urls_of (tipo : Z) : list (string * Z * string) :=
  default [] (dict_get tipo generar_urls_por_partes).

(** The 56 reports of CCM are there, from an earlier run. *)
Definition completed_world : world :=
  World (list_to_map ((fun u => (task_path (folder_of default_config "CCM") u, "old"))
                        <$> urls_of 58)) [].

(** ** Progress reports *)

Definition progress_of (e : event) : option Q :=
  match e with EvProgress p => Some p | _ => None end.

(** The values handed to [progress_callback], in order. *)
Definition progress_values (t : list event) : list Q := omap progress_of t.

Fixpoint nondecreasing (l : list Q) : Prop :=
  match l with
  | p :: (q :: _) as rest => (p <= q)%Q /\ nondecreasing rest
  | _ => True
  end.

(** The values climb from [lo] to at most [hi]. *)
Fixpoint climbs (lo hi : Q) (l : list Q) : Prop :=
  match l with
  | [] => True
  | p :: rest => (lo <= p)%Q /\ (p <= hi)%Q /\ climbs p hi rest
  end.

Definition ramp (lo hi : Q) (t : list event) : Prop := climbs lo hi (progress_values t).

(** Whatever the outcome, the run reports progress that climbs from [lo]
    to at most [hi]. *)
Definition ramps {A} (lo hi : Q) (m : M A) : Prop :=
  forall w, exists t, trace (m w).2 = (trace w ++ t)%list /\ ramp lo hi t.

Definition no_progress (e : event) : Prop := progress_of e = None.

(** [a / n] on the floats. *)
Definition frac (a n : nat) : Q := (inject_Z (Z.of_nat a) / inject_Z (Z.of_nat n))%Q.

(** ** Locks taken and released *)




Definition n_acquires (t : list event) : nat :=
  length (List.filter (fun e => match e with EvLockAcquire _ => true | _ => false end) t).

Definition removed_paths (t : list event) : list string :=
  omap (fun e => match e with EvRemove p => Some p | _ => None end) t.

Definition is_sleep (e : event) : bool :=
  match e with EvSleep _ _ => true | _ => false end.

(** Every poll of the script fails because the lock file exists, and the
    lock file can be removed. *)
Fixpoint removable (s : lock_script) : bool :=
  match s with
  | LkOpened => true
  | LkOpenFails errno _ _ remove_ok _ next =>
      (errno =? EEXIST) && remove_ok && removable next
  end.

Fixpoint failed_polls (s : lock_script) : nat :=
  match s with
  | LkOpened => 0
  | LkOpenFails _ _ _ _ _ next => S (failed_polls next)
  end.

(** Every poll of the script fails because the lock file exists, and the
    lock file is either not stale or cannot be removed. *)
Fixpoint stuck (cfg : config) (s : lock_script) : bool :=
  match s with
  | LkOpened => false
  | LkOpenFails errno _ age remove_ok _ next =>
      (errno =? EEXIST)
      && negb (((STALE_LOCK_MAX_AGE cfg <=? 0)
                || Qgt_bool (default 0%Q age) (inject_Z (STALE_LOCK_MAX_AGE cfg)))
               && remove_ok)
      && match next with LkOpened => true | _ => stuck cfg next end
  end.

(** The number of polls before the first one at which the time waited has
    reached the timeout. *)
Fixpoint polls_before_timeout (cfg : config) (s : lock_script) : option nat :=
  match s with
  | LkOpened => None
  | LkOpenFails _ _ _ _ elapsed next =>
      if Qle_bool (LOCK_WAIT_TIMEOUT cfg) elapsed then Some 0%nat
      else S <$> polls_before_timeout cfg next
  end.

(** ** Consolidation without download *)

(** The path names a consolidated output. *)
Definition is_consolidated (p : string) : Prop := str_contains "consolidado_total" p = true.



(** The files that are not consolidated outputs keep their content. *)
Definition reports_kept : relation (gmap string string) :=
  fun f f' => forall p, ~ is_consolidated p -> f' !! p = f !! p.

(** ** What the orchestrator leaves on disk *)

(** The file names of a group of the plan. *)
Definition task_name (u : string * Z * string) : string :=
  pretty u.1.2 ++ "_" ++ u.2 ++ ".csv".



(** ** The temporary file *)

(** A result that tells a committed download comes with a world without
    the temporary file. *)
Definition temp_gone {A} (committed : A -> bool) (temp : string)
    (rw : res A * world) : Prop :=
  match rw.1 with
  | Val a => committed a = true -> fs rw.2 !! temp = None
  | Exc _ => True
  end.

Definition is_commit (c : ctl) : bool :=
  match c with CReturn true => true | _ => false end.

(** ** A codec for flat dictionaries of strings

    An instance of [codec] for examples: a dictionary of strings is written
    as one line [key=value] per member, a text of digits is a number, and
    the base64 decoder is the one of the standard alphabet. *)

Definition flat_line (kv : string * json) : string :=
  match kv.2 with
  | JStr v => kv.1 ++ "=" ++ v ++ String LF ""
  | _ => kv.1 ++ "=" ++ String LF ""
  end.

Definition flat_dumps (v : json) : string :=
  match v with
  | JObj members => String.concat "" (flat_line <$> members)
  | _ => ""
  end.

Fixpoint split_first (sep : Ascii.ascii) (s : string) : option (string * string) :=
  match s with
  | EmptyString => None
  | String c r =>
      if Ascii.eqb c sep then Some (EmptyString, r)
      else match split_first sep r with
           | Some (k, v) => Some (String c k, v)
           | None => None
           end
  end.

Fixpoint digits_value (acc : N) (s : string) : option N :=
  match s with
  | EmptyString => Some acc
  | String c r =>
      let n := Ascii.N_of_ascii c in
      if ((48 <=? n) && (n <=? 57))%N then digits_value (acc * 10 + (n - 48))%N r
      else None
  end.

Definition flat_object (s : string) : option json :=
  JObj <$> mapM (fun l => match split_first "=" l with
                          | Some (k, v) => Some (k, JStr v)
                          | None => None
                          end)
                (List.filter (fun l => negb (String.eqb l "")) (split_on LF s)).

Definition flat_loads (s : string) : option json :=
  match s with
  | EmptyString => None
  | _ =>
      match digits_value 0 s with
      | Some n => Some (JNum (Z.of_N n # 1))
      | None => flat_object s
      end
  end.

Definition b64_value (c : Ascii.ascii) : option N :=
  let n := Ascii.N_of_ascii c in
  (if (65 <=? n) && (n <=? 90) then Some (n - 65)
   else if (97 <=? n) && (n <=? 122) then Some (n - 71)
   else if (48 <=? n) && (n <=? 57) then Some (n + 4)
   else if n =? 43 then Some 62
   else if n =? 47 then Some 63
   else None)%N.

Fixpoint b64_groups (cs : list Ascii.ascii) : option (list Ascii.ascii) :=
  match cs with
  | [] => Some []
  | a :: b :: c :: d :: rest =>
      let pad := Ascii.eqb d "="%char in
      let pad2 := pad && Ascii.eqb c "="%char in
      match b64_value a, b64_value b,
            (if pad2 then Some 0%N else b64_value c),
            (if pad then Some 0%N else b64_value d),
            (if pad then match rest with [] => Some [] | _ => None end
             else b64_groups rest) with
      | Some x, Some y, Some z, Some t, Some bytes =>
          let n := (x * 262144 + y * 4096 + z * 64 + t)%N in
          let b1 := Ascii.ascii_of_N (n / 65536) in
          let b2 := Ascii.ascii_of_N (n / 256 mod 256) in
          let b3 := Ascii.ascii_of_N (n mod 256) in
          Some (if pad2 then [b1] else if pad then [b1; b2] else b1 :: b2 :: b3 :: bytes)
      | _, _, _, _, _ => None
      end
  | _ => None
  end.

Definition b64_decode (s : string) : option string :=
  String.string_of_list_ascii <$> b64_groups (String.list_ascii_of_string s).

Definition flat_codec : codec := Codec flat_loads flat_dumps b64_decode.

Definition disk_ok : file_script := FileScript true true id true.
Definition disk_read_only : file_script := FileScript true false id false.

Definition no_manager : manager := Manager None (JObj []).

(** A file in the legacy format: the base64 of a flat dictionary. *)
Definition legacy_file : string := "bnRsbV91c2VyPWFuYQpudGxtX3Bhc3M9czNjcmV0".

(** What survives a restart: the text written for [v] reads back as [v]. *)
Definition round_trips (lib : codec) (v : json) : Prop :=
  strip (json_dumps lib v) <> "" /\
  json_loads lib (strip (json_dumps lib v)) = Some v.

Definition is_object (v : json) : bool :=
  match v with JObj _ => true | _ => false end.

(** ** Retrying *)

(** A function whose [n]-th call has the outcome [f n]; its state counts
    the calls made. *)
Definition counted {A} (f : nat -> res A) (n : nat) : res A * nat := (f n, S n).

(** The outcomes the wrapper retries after. *)
Definition caught {A} (exceptions : exn -> bool) (o : res A) : bool :=
  match o with
  | Exc e => exceptions e
  | Val _ => false
  end.

(** The outcome of the wrapper when a call has the outcome [o] and is the
    last one. *)
Definition final_outcome {A} (o : res A) : res (option A) :=
  match o with
  | Val a => Val (Some a)
  | Exc e => Exc e
  end.

(** The warning and the sleep after the [k]-th failure: [base_delay]
    doubled [k - 1] times. *)
Definition retry_notice (base_delay : Q) (k : nat) : list retry_event :=
  let delay := (base_delay * inject_Z (2 ^ (Z.of_nat k - 1)))%Q in
  [RetryWarning (Z.of_nat k) delay; RetrySleep delay].

Definition retry_delays (base_delay : Q) (from n : nat) : list retry_event :=
  flat_map (retry_notice base_delay) (seq from n).

Definition retry_sleeps (t : list retry_event) : list Q :=
  omap (fun e => match e with RetrySleep d => Some d | _ => None end) t.

(** An example: every exception is retried; two failures, then a value. *)
Definition any_exception (e : exn) : bool := true.
Definition fails_twice (n : nat) : res Z :=
  if (n <? 2)%nat then Exc (OSError 0 "busy") else Val 7.

(** ** Column names *)

(** A column the mapping can produce: it is there, or one of its
    historical names is. *)
Definition provided (cols : list string) (col : string) : bool :=
  bool_decide (col ∈ cols) ||
  existsb (fun m => String.eqb m.2 col && bool_decide (m.1 ∈ cols)) column_mappings.

Definition historical (col : string) : bool :=
  bool_decide (col ∈ column_mappings.*1).

(** The cells of a column, row by row. *)
Definition cells (col : string) (df : frame) : list (option string) :=
  (fun r => r !! col) <$> rows df.

(** The three columns that must come from the file. *)
Definition file_columns : list string := ["FechaPre"; "OperadorPre"; "NumeroTramite"].

Definition missing_message (missing : list string) : string :=
  "Las siguientes columnas requeridas están ausentes en el archivo: "
  ++ String.concat ", " missing.

Definition old_report : frame :=
  Frame ["EXPEDIENTE"; "EVALUADOR"; "FECHA_TRABAJO"; "Dependencia"]
        [ {[ "EXPEDIENTE" := "LM250001"; "EVALUADOR" := "ana";
             "FECHA_TRABAJO" := "01/02/2025"; "Dependencia" := "Lima" ]} ].

(** * Properties of the runs *)

#[global] Instance fs_at_preorder out : PreOrder (fs_at out).
Proof.
  split; unfold fs_at.
  - intros f. reflexivity.
  - intros f g h Hfg Hgh. congruence.
Qed.

#[global] Instance fs_any_preorder : PreOrder fs_any.
Proof. split; red; unfold fs_any; auto. Qed.

#[global] Instance rel_preorder P F `{!PreOrder F} : PreOrder (rel P F).
Proof.
  split.
  - intros w. split; [reflexivity|]. exists []. by rewrite app_nil_r.
  - intros w1 w2 w3 [HF1 (t1 & Ht1 & HP1)] [HF2 (t2 & Ht2 & HP2)].
    split; [by etrans|]. exists (t1 ++ t2)%list.
    split; [by rewrite Ht2, Ht1, app_assoc|]. by apply Forall_app.
Qed.

Lemma bind_run {A B} (m : M A) (f : A -> M B) w :
  (m ≫= f) w =
  match m w with
  | (Val a, w') => f a w'
  | (Exc e, w') => (Exc e, w')
  end.
Proof. reflexivity. Qed.

Section keeps.
Context (R : relation world) `{!PreOrder R}.

Lemma keeps_ret {A} (a : A) : keeps R (mret a).
Proof. intros w. simpl. reflexivity. Qed.

Lemma keeps_raise {A} e : keeps R (@raise A e).
Proof. intros w. simpl. reflexivity. Qed.

Lemma keeps_bind {A B} (m : M A) (f : A -> M B) :
  keeps R m -> (forall a, keeps R (f a)) -> keeps R (m ≫= f).
Proof.
  intros Hm Hf w. rewrite bind_run. specialize (Hm w).
  destruct (m w) as [[a|e] w1]; simpl in *; [|done].
  etrans; [exact Hm|apply Hf].
Qed.

Lemma keeps_try_catch {A} (m : M A) h :
  keeps R m -> (forall e, keeps R (h e)) -> keeps R (try_catch m h).
Proof.
  intros Hm Hh w. unfold try_catch. specialize (Hm w).
  destruct (m w) as [[a|e] w1]; simpl in *; [done|].
  etrans; [exact Hm|apply Hh].
Qed.

Lemma keeps_finally {A} (m : M A) f :
  keeps R m -> keeps R f -> keeps R (finally m f).
Proof.
  intros Hm Hf w. unfold finally. specialize (Hm w).
  destruct (m w) as [r w1]. specialize (Hf w1).
  destruct (f w1) as [[[]|e] w2]; simpl in *; by etrans.
Qed.

Lemma keeps_when b m : keeps R m -> keeps R (when b m).
Proof. intros Hm. destruct b; [done|apply keeps_ret]. Qed.

Lemma keeps_capture {A} (m : M A) : keeps R m -> keeps R (capture m).
Proof.
  intros Hm w. unfold capture. specialize (Hm w). by destruct (m w).
Qed.

Lemma keeps_lift_res {A} (r : res A) : keeps R (lift_res r).
Proof. intros w. simpl. reflexivity. Qed.

Lemma keeps_get_world : keeps R get_world.
Proof. intros w. simpl. reflexivity. Qed.

Lemma keeps_os_path_exists p : keeps R (os_path_exists p).
Proof. intros w. simpl. reflexivity. Qed.

Lemma keeps_os_path_getsize p : keeps R (os_path_getsize p).
Proof. intros w. unfold os_path_getsize. destruct (fs w !! p); simpl; reflexivity. Qed.

Lemma keeps_pd_read_csv pd p : keeps R (pd_read_csv pd p).
Proof. intros w. unfold pd_read_csv. destruct (fs w !! p); simpl; reflexivity. Qed.
End keeps.

Section keeps_rel.
Context (P : event -> Prop) (F : relation (gmap string string)) `{!PreOrder F}.

Lemma rel_step (w : world) f' (e : event) :
  F (fs w) f' -> P e -> rel P F w (World f' (trace w ++ [e])).
Proof. intros HF HP. split; [done|]. exists [e]. split; [done|]. by constructor. Qed.

Lemma keeps_emit e : P e -> keeps (rel P F) (emit e).
Proof. intros HP w. by apply rel_step. Qed.

Lemma keeps_time_sleep k d : P (EvSleep k d) -> keeps (rel P F) (time_sleep k d).
Proof. apply keeps_emit. Qed.

Lemma keeps_log_callback cb m : P (EvLog m) -> keeps (rel P F) (log_callback cb m).
Proof. intros HP. apply keeps_when; [apply _|]. by apply keeps_emit. Qed.

Lemma keeps_error_callback cb ctx m :
  P (EvError ctx m) -> keeps (rel P F) (error_callback cb ctx m).
Proof. intros HP. apply keeps_when; [apply _|]. by apply keeps_emit. Qed.

Lemma keeps_progress_callback cb p :
  (cb_progress cb = true -> P (EvProgress p)) ->
  keeps (rel P F) (progress_callback cb p).
Proof.
  intros HP. unfold progress_callback. destruct (cb_progress cb).
  - apply keeps_emit; auto.
  - apply keeps_ret; apply _.
Qed.

Lemma keeps_open_wb p err :
  P (EvOpenTrunc p) -> (forall f c, F f (<[p := c]> f)) ->
  keeps (rel P F) (open_wb p err).
Proof.
  intros HP HF w. unfold open_wb. destruct err; simpl; [reflexivity|].
  by apply rel_step.
Qed.

Lemma keeps_file_write p chunk :
  P (EvWrite p chunk) -> (forall f c, F f (<[p := c]> f)) ->
  keeps (rel P F) (file_write p chunk).
Proof. intros HP HF w. by apply rel_step. Qed.

Lemma keeps_os_replace src dst err :
  P (EvReplace src dst) -> (forall f c, F f (<[dst := c]> (delete src f))) ->
  keeps (rel P F) (os_replace src dst err).
Proof.
  intros HP HF w. unfold os_replace. destruct err; simpl; [reflexivity|].
  destruct (fs w !! src); simpl; [|reflexivity]. by apply rel_step.
Qed.

Lemma keeps_os_remove p ok :
  P (EvRemove p) -> (forall f, F f (delete p f)) ->
  keeps (rel P F) (os_remove p ok).
Proof.
  intros HP HF w. unfold os_remove. destruct ok; simpl; [|reflexivity].
  destruct (fs w !! p); simpl; [|reflexivity]. by apply rel_step.
Qed.

Lemma keeps_os_makedirs mk folder :
  P (EvMakedirs folder) -> keeps (rel P F) (os_makedirs mk folder).
Proof.
  intros HP. unfold os_makedirs. destruct (mk folder).
  - apply keeps_raise; apply _.
  - by apply keeps_emit.
Qed.

Lemma keeps_to_csv pd wr output_file df :
  P (EvWrite output_file (render_csv pd df)) ->
  (forall f c, F f (<[output_file := c]> f)) ->
  keeps (rel P F) (to_csv pd wr output_file df).
Proof.
  intros HP HF w. unfold to_csv. destruct (wr output_file); simpl; [reflexivity|].
  by apply rel_step.
Qed.
End keeps_rel.

(** ** Footprints of the fetcher *)

Lemma keeps_weaken {A} (P Q : event -> Prop) (F G : relation (gmap string string))
    (m : M A) :
  (forall e, Q e -> P e) -> (forall f f', G f f' -> F f f') ->
  keeps (rel Q G) m -> keeps (rel P F) m.
Proof.
  intros HP HF Hm w. destruct (Hm w) as [HG (t & Ht & HQ)].
  split; [by apply HF|]. exists t. split; [done|].
  eapply Forall_impl; eauto.
Qed.

Lemma rel_weaken (P Q : event -> Prop) (F G : relation (gmap string string)) w w' :
  (forall e, Q e -> P e) -> (forall f f', G f f' -> F f f') ->
  rel Q G w w' -> rel P F w w'.
Proof.
  intros HP HF [HG (t & Ht & HQ)].
  split; [by apply HF|]. exists t. split; [done|].
  eapply Forall_impl; eauto.
Qed.

#[global] Instance fs_only_preorder ps : PreOrder (fs_only ps).
Proof.
  split; unfold fs_only.
  - intros f p _. reflexivity.
  - intros f g h Hfg Hgh p Hp. rewrite Hgh, Hfg; auto.
Qed.

Lemma fs_only_insert ps p (f : gmap string string) c :
  p ∈ ps -> fs_only ps f (<[p := c]> f).
Proof.
  intros Hin q Hq. apply lookup_insert_ne. intros ->. done.
Qed.

Lemma fs_only_delete ps p (f : gmap string string) :
  p ∈ ps -> fs_only ps f (delete p f).
Proof.
  intros Hin q Hq. apply lookup_delete_ne. intros ->. done.
Qed.

Lemma fs_only_mono ps qs f f' :
  (forall p, p ∈ ps -> p ∈ qs) -> fs_only ps f f' -> fs_only qs f f'.
Proof. intros Hsub H p Hp. apply H. intros Hin. apply Hp, Hsub, Hin. Qed.

Lemma keeps_file_lock_acquire cfg cb output_path file_path s :
  keeps (rel (lock_ev file_path) eq) (file_lock_acquire cfg cb output_path file_path s).
Proof.
  induction s as [|errno msg age remove_ok elapsed next IH]; simpl.
  - by apply keeps_emit; try apply _.
  - destruct (errno =? EEXIST); [|apply keeps_raise; apply _].
    assert (keeps (rel (lock_ev file_path) eq)
      (if Qle_bool (LOCK_WAIT_TIMEOUT cfg) elapsed
       then log_callback cb (LogLockedByOther output_path);;
            raise (OSError 0 "File is locked by another process")
       else time_sleep LockPoll (LOCK_WAIT_INTERVAL cfg);;
            file_lock_acquire cfg cb output_path file_path next)) as Hwait.
    { destruct (Qle_bool _ _).
      - apply keeps_bind; [apply _| |intros; apply keeps_raise; apply _].
        by apply keeps_log_callback; try apply _.
      - apply keeps_bind; [apply _| |intros; exact IH].
        by apply keeps_time_sleep; try apply _. }
    destruct (_ || _); [|exact Hwait].
    destruct remove_ok.
    + apply keeps_bind; [apply _| |intros _].
      { by apply keeps_emit; try apply _. }
      apply keeps_bind; [apply _| |intros; exact IH].
      destruct (cb_log cb); by apply keeps_emit; try apply _.
    + apply keeps_bind; [apply _| |intros; exact Hwait].
      by apply keeps_emit; try apply _.
Qed.

Ltac tc := try (apply _).

Ltac keeps_auto :=
  repeat first
    [ apply keeps_progress_callback; tc
    | apply keeps_log_callback; tc
    | apply keeps_error_callback; tc
    | apply keeps_time_sleep; tc
    | apply keeps_ret; tc
    | apply keeps_raise; tc
    | apply keeps_bind; tc; [ | intros ?]
    | apply keeps_when; tc
    | apply keeps_emit; tc
    | apply keeps_os_path_exists; tc
    | apply keeps_os_path_getsize; tc
    | apply keeps_get_world; tc
    | apply keeps_lift_res; tc
    | apply keeps_file_write; tc
    | apply keeps_open_wb; tc
    | apply keeps_os_replace; tc
    | apply keeps_os_remove; tc
    | apply keeps_os_makedirs; tc
    | apply keeps_try_catch; tc; [ | intros ?]
    | apply keeps_finally; tc ].

Ltac side :=
  first
    [ intros ? ?; apply fs_only_insert; by repeat constructor
    | intros ?; apply fs_only_delete; by repeat constructor
    | intros; simpl; try done; auto ].

Lemma bind_assoc_run {A B C} (m : M A) (f : A -> M B) (g : B -> M C) w :
  ((m ≫= f) ≫= g) w = (m ≫= (fun a => f a ≫= g)) w.
Proof. rewrite !bind_run. destruct (m w) as [[a|e] w1]; [|done]. by rewrite bind_run. Qed.

Lemma bind_unit_run {B} (m : M unit) (f : unit -> M B) w :
  (m w).1 = Val tt -> (m ≫= f) w = f tt (m w).2.
Proof. intros H. rewrite bind_run. destruct (m w) as [[[]|e] w1]; simpl in *; congruence. Qed.

(** The callbacks and the sleeps return normally. *)
Ltac val_tt :=
  unfold log_callback, error_callback, progress_callback, time_sleep, when, emit;
  repeat case_match; done.

Lemma request_phase_run cfg url out cb s w :
  exists tl tr,
    Forall (lock_ev (out ++ ".lock")) tl /\
    request_outcome cfg url (out ++ ".lock") s (request_phase cfg url out cb s w).1 tr /\
    fs (request_phase cfg url out cb s w).2 = fs w /\
    trace (request_phase cfg url out cb s w).2 = (trace w ++ tl ++ tr)%list.
Proof.
  unfold request_phase, with_file_lock. rewrite bind_run.
  destruct (keeps_file_lock_acquire cfg cb out (out ++ ".lock") (as_lock s) w)
    as [Hfs (tl & Htl & HP)].
  destruct (file_lock_acquire _ _ _ _ _ w) as [[[]|e] w1]; simpl in Hfs, Htl.
  2:{ exists tl, []. simpl. rewrite app_nil_r. repeat split; auto. constructor. }
  exists tl. unfold finally.
  destruct (as_locking s) as [e|].
  { eexists. simpl. rewrite Htl, <- app_assoc. repeat split; eauto. constructor. }
  rewrite bind_run. unfold session_get. rewrite bind_run. simpl.
  destruct (as_get s) as [e|r] eqn:Hget; simpl.
  { eexists. rewrite Htl, <- !app_assoc. simpl. repeat split; eauto. constructor. }
  destruct (DIRECT_DOWNLOAD cfg) eqn:Hd, (stream_error r) as [e|] eqn:Hse; simpl.
  { eexists. rewrite Htl, <- !app_assoc. simpl. repeat split; eauto. constructor. }
  all: destruct (status r =? 401) eqn:H401; simpl;
    [ apply Z.eqb_eq in H401; eexists; rewrite Htl, <- !app_assoc; simpl;
      rewrite H401; repeat split; eauto; by eapply RqUnauthorized
    | apply Z.eqb_neq in H401 ].
  all: unfold raise_for_status; rewrite bind_run;
    destruct ((400 <=? status r) && (status r <? 500)); simpl;
    [ eexists; rewrite Htl, <- !app_assoc; simpl; repeat split; eauto;
      by eapply RqBadStatus |].
  all: destruct ((500 <=? status r) && (status r <? 600)); simpl;
    [ eexists; rewrite Htl, <- !app_assoc; simpl; repeat split; eauto;
      by eapply RqBadStatus |].
  all: eexists; rewrite Htl, <- !app_assoc; simpl; repeat split; eauto;
    eapply RqResponse; eauto; congruence.
Qed.

Lemma str_app_cons a (s t : string) : String a s ++ t = String a (s ++ t).
Proof. reflexivity. Qed.

Lemma str_app_nil_r (s : string) : s ++ "" = s.
Proof. induction s as [|a s IH]; [done|]. by rewrite str_app_cons, IH. Qed.

Lemma str_app_assoc (a b c : string) : (a ++ b) ++ c = a ++ (b ++ c).
Proof. induction a as [|x a IH]; [done|]. by rewrite !str_app_cons, IH. Qed.

Lemma str_app_self (s t : string) : s ++ t = s -> t = "".
Proof.
  induction s as [|a s IH]; [done|]. rewrite str_app_cons. intros [=]. auto.
Qed.

Lemma temp_ne_out (out : string) : out ++ ".tmp" <> out.
Proof. intros H. by apply str_app_self in H. Qed.

Lemma lock_ne_out (out : string) : out ++ ".lock" <> out.
Proof. intros H. by apply str_app_self in H. Qed.

Lemma iter_content_run cfg cb temp total cs err : forall bytes w c,
  fs w !! temp = Some c ->
  (iter_content cfg cb temp total bytes cs err w).1
    = match err with Some e => Exc e | None => Val tt end /\
  fs (iter_content cfg cb temp total bytes cs err w).2 !! temp
    = Some (c ++ chunks_body cs) /\
  rel (stream_ev cb temp) (fs_only [temp]) w
    (iter_content cfg cb temp total bytes cs err w).2.
Proof.
  induction cs as [|[chunk tick] rest IH]; intros bytes w c Hc; simpl.
  - rewrite str_app_nil_r.
    destruct err; simpl; (split; [done|split; [done|reflexivity]]).
  - destruct (str_nonempty chunk) eqn:Hne.
    + rewrite bind_run.
      change (file_write temp chunk w)
        with (Val (), World (<[temp := default "" (fs w !! temp) ++ chunk]> (fs w))
                        (trace w ++ [EvWrite temp chunk])).
      cbv iota beta.
      set (w1 := World _ _).
      assert (fs w1 !! temp = Some (c ++ chunk)) as Hc1.
      { subst w1. simpl. rewrite Hc. simpl. apply lookup_insert_eq. }
      assert (rel (stream_ev cb temp) (fs_only [temp]) w w1) as Hw1.
      { subst w1. apply rel_step; [|done]. apply fs_only_insert. by repeat constructor. }
      rewrite bind_unit_run by val_tt.
      set (m1 := when tick _).
      assert (rel (stream_ev cb temp) eq w1 (m1 w1).2) as Hw2.
      { assert (keeps (rel (stream_ev cb temp) eq) m1) as K; [|apply K].
        subst m1. keeps_auto; side. }
      set (w2 := (m1 w1).2) in *. clearbody w2.
      rewrite bind_unit_run by val_tt.
      set (m2 := when (Qgt_bool _ _) _).
      assert (rel (stream_ev cb temp) eq w2 (m2 w2).2) as Hw3.
      { assert (keeps (rel (stream_ev cb temp) eq) m2) as K; [|apply K].
        subst m2. keeps_auto; side. }
      set (w3 := (m2 w2).2) in *. clearbody w3.
      assert (fs w3 !! temp = Some (c ++ chunk)) as Hc3.
      { destruct Hw2 as [E2 _], Hw3 as [E3 _]. by rewrite <- E3, <- E2. }
      destruct (IH (bytes + Zlen chunk) w3 _ Hc3) as (Hr & Hfs & Hrel).
      split; [exact Hr|]. split.
      * rewrite Hfs. by rewrite str_app_assoc.
      * etrans; [exact Hw1|]. etrans; [|exact Hrel].
        etrans; (eapply rel_weaken; [| |eassumption]; [done|]);
          intros f f' <-; reflexivity.
    + destruct chunk; [|done]. simpl. apply IH. done.
Qed.

Lemma body_of_chunks r : body_of r = chunks_body (chunks r).
Proof. reflexivity. Qed.

Lemma progress_100_keeps cb out (b : bool) F `{!PreOrder F} :
  keeps (rel (store_ev cb out) F)
    (when (cb_progress cb && b) (emit (EvProgress 100))).
Proof. destruct (cb_progress cb) eqn:Hp; simpl; keeps_auto; side. Qed.

Lemma store_phase_run cfg out cb s resp w :
  match (store_phase cfg out cb s resp w).1 with
  | Val (CReturn true) =>
      rel (commit_ev cb out) (fs_only [out ++ ".tmp"; out]) w
        (store_phase cfg out cb s resp w).2 /\
      fs (store_phase cfg out cb s resp w).2 !! out = Some (body_of resp) /\
      (0 < content_length resp -> Zlen (body_of resp) = content_length resp) /\
      (DIRECT_DOWNLOAD cfg = false -> stream_error resp = None)
  | Val CContinue | Exc _ =>
      rel (store_ev cb out) (fs_only [out ++ ".tmp"]) w
        (store_phase cfg out cb s resp w).2
  | Val _ => False
  end.
Proof.
  destruct (store_phase cfg out cb s resp w) as [r w'] eqn:H. simpl.
  unfold store_phase in H. set (temp := out ++ ".tmp") in *.
  rewrite bind_run in H. unfold open_wb in H.
  destruct (as_open_temp s) as [e|]; [injection H as <- <-; reflexivity|].
  set (w1 := World _ _) in H.
  assert (rel (store_ev cb out) (fs_only [temp]) w w1) as Hw1.
  { subst w1. apply rel_step; [|done]. apply fs_only_insert. by repeat constructor. }
  assert (fs w1 !! temp = Some "") as Hc1 by apply lookup_insert_eq.
  clearbody w1. rewrite bind_run in H.
  (* the body reaches the temporary file *)
  assert (exists r2 w2,
    (if DIRECT_DOWNLOAD cfg
     then file_write temp (body_of resp);;
          when (cb_progress cb && (0 <? content_length resp)) (emit (EvProgress 100))
     else iter_content cfg cb temp (content_length resp) 0 (chunks resp)
            (stream_error resp)) w1 = (r2, w2) /\
    rel (store_ev cb out) (fs_only [temp]) w1 w2 /\
    (r2 = Val tt ->
       fs w2 !! temp = Some (body_of resp) /\
       (DIRECT_DOWNLOAD cfg = false -> stream_error resp = None))) as (r2 & w2 & E2 & Hw2 & Hok).
  { destruct (DIRECT_DOWNLOAD cfg).
    - rewrite bind_run.
      change (file_write temp (body_of resp) w1)
        with (Val (), World (<[temp := default "" (fs w1 !! temp) ++ body_of resp]> (fs w1))
                        (trace w1 ++ [EvWrite temp (body_of resp)])).
      cbv iota beta. rewrite Hc1. simpl default.
      set (w1' := World _ _).
      eexists _, _. split; [apply surjective_pairing|]. split.
      + etrans; [instantiate (1 := w1')|].
        * subst w1'. apply rel_step; [|done]. apply fs_only_insert. by repeat constructor.
        * apply progress_100_keeps; apply _.
      + intros _. split; [|done].
        destruct (progress_100_keeps cb out (0 <? content_length resp) eq w1') as [<- _].
        subst w1'. simpl. apply lookup_insert_eq.
    - destruct (iter_content_run cfg cb temp (content_length resp) (chunks resp)
                  (stream_error resp) 0 w1 "" Hc1) as (Hr & Hfs & Hrel).
      eexists _, _. split; [apply surjective_pairing|]. split.
      + eapply rel_weaken; [| |exact Hrel]; [|done]. clear.
        intros [] He; simpl in *; try done. destruct k; tauto.
      + intros Hv. rewrite Hr in Hv. split; [exact Hfs|].
        intros _. by destruct (stream_error resp).
  }
  rewrite E2 in H. clear E2.
  assert (rel (store_ev cb out) (fs_only [temp]) w w2) as Hw by (by etrans).
  clear Hw1 Hw2 Hc1 w1.
  destruct r2 as [[]|e]; [|injection H as <- <-; exact Hw].
  destruct (Hok eq_refl) as [Hc2 Hse]. clear Hok.
  rewrite bind_run in H. unfold os_path_getsize in H. rewrite Hc2 in H.
  fold (Zlen (body_of resp)) in H.
  destruct ((0 <? content_length resp) && negb (Zlen (body_of resp) =? content_length resp))
    eqn:Hsize.
  { injection H as <- <-. exact Hw. }
  unfold try_catch in H. rewrite !bind_run in H. unfold os_replace in H.
  destruct (as_replace s) as [e|].
  { destruct (is_OSError e && (exn_errno e =? EACCES)).
    - assert (keeps (rel (store_ev cb out) (fs_only [temp]))
                (error_callback cb out ErrInUse;; time_sleep RenameWait 1)) as K.
      { keeps_auto; side. }
      specialize (K w2). rewrite bind_unit_run in K by val_tt.
      rewrite bind_unit_run in H by val_tt. rewrite bind_unit_run in H by val_tt.
      injection H as <- <-. by etrans.
    - injection H as <- <-. exact Hw. }
  rewrite Hc2 in H.
  set (w3 := World _ _) in H.
  rewrite bind_unit_run in H by val_tt. injection H as <- <-.
  assert (rel (commit_ev cb out) (fs_only [temp; out]) w w3) as Hw3.
  { etrans; [eapply rel_weaken; [| |exact Hw]|].
    - intros; by left.
    - intros f f'. apply fs_only_mono. intros p ->%list_elem_of_singleton. by left.
    - subst w3. apply rel_step; [|by right].
      intros p Hp. rewrite lookup_insert_ne, lookup_delete_ne; [done| |].
      + intros ->. apply Hp. by repeat constructor.
      + intros ->. apply Hp. by repeat constructor. }
  assert (keeps (rel (commit_ev cb out) eq) (log_callback cb (LogDownloaded out))) as K.
  { keeps_auto. by left. }
  split; [|split; [|split]].
  - etrans; [exact Hw3|]. eapply rel_weaken; [| |apply K]; [done|].
    intros f f' <-. reflexivity.
  - destruct (K w3) as [<- _]. subst w3. simpl. apply lookup_insert_eq.
  - intros Hpos. apply andb_false_iff in Hsize as [Hs|Hs].
    + apply Z.ltb_ge in Hs. lia.
    + apply negb_false_iff, Z.eqb_eq in Hs. done.
  - exact Hse.
Qed.

Lemma since_app w w' t : trace w' = (trace w ++ t)%list -> since w w' = t.
Proof. intros H. unfold since. rewrite H. by rewrite drop_app_length. Qed.

Lemma rel_since P F w w' :
  rel P F w w' ->
  F (fs w) (fs w') /\ trace w' = (trace w ++ since w w')%list /\ Forall P (since w w').
Proof.
  intros [HF (t & Ht & HP)]. rewrite (since_app _ _ _ Ht). done.
Qed.

Lemma since_rel (P : event -> Prop) F w w' t :
  F (fs w) (fs w') -> trace w' = (trace w ++ t)%list -> Forall P t -> rel P F w w'.
Proof. intros. split; [done|]. by exists t. Qed.

Lemma try_body_run cfg url out cb attempt s w :
  exists t0 tl tr ts rq,
    trace (try_body cfg url out cb attempt s w).2
      = (trace w ++ t0 ++ tl ++ tr ++ ts)%list /\
    Forall pre_ev t0 /\
    Forall (lock_ev (out ++ ".lock")) tl /\
    request_outcome cfg url (out ++ ".lock") s rq tr /\
    match rq with
    | Exc e =>
        (try_body cfg url out cb attempt s w).1 = Exc e /\ ts = [] /\
        fs (try_body cfg url out cb attempt s w).2 = fs w
    | Val resp =>
        match (try_body cfg url out cb attempt s w).1 with
        | Val (CReturn true) =>
            Forall (commit_ev cb out) ts /\
            fs_only [out ++ ".tmp"; out] (fs w) (fs (try_body cfg url out cb attempt s w).2) /\
            fs (try_body cfg url out cb attempt s w).2 !! out = Some (body_of resp) /\
            (0 < content_length resp -> Zlen (body_of resp) = content_length resp) /\
            stream_error resp = None
        | Val CContinue | Exc _ =>
            Forall (store_ev cb out) ts /\
            fs_only [out ++ ".tmp"] (fs w) (fs (try_body cfg url out cb attempt s w).2)
        | Val _ => False
        end
    end.
Proof.
  destruct (try_body cfg url out cb attempt s w) as [r w'] eqn:H. simpl.
  unfold try_body in H.
  rewrite bind_unit_run in H by val_tt.
  set (m0 := log_callback _ _) in H.
  rewrite bind_unit_run in H by val_tt.
  set (m1 := when _ _) in H.
  assert (rel pre_ev eq w (m1 (m0 w).2).2) as H0.
  { assert (keeps (rel pre_ev eq) (m0;; m1)) as K.
    { subst m0 m1. keeps_auto; side. }
    specialize (K w). rewrite bind_unit_run in K by (subst m0; val_tt). exact K. }
  apply rel_since in H0 as (Hfs0 & Ht0 & HP0).
  set (w0 := (m1 (m0 w).2).2) in *. clearbody w0. clear m0 m1.
  set (t0 := since w w0) in *. clearbody t0.
  destruct (request_phase_run cfg url out cb s w0) as (tl & tr & Hl & Hrq & Hfs1 & Ht1).
  rewrite bind_run in H.
  destruct (request_phase cfg url out cb s w0) as [rq w1]. simpl in Hrq, Hfs1, Ht1.
  exists t0, tl, tr.
  destruct rq as [resp|e].
  - pose proof (store_phase_run cfg out cb s resp w1) as Hst.
    rewrite H in Hst. simpl in Hst.
    exists (since w1 w'), (Val resp).
    assert (forall P F, rel P F w1 w' ->
              trace w' = (trace w ++ t0 ++ tl ++ tr ++ since w1 w')%list) as Htr.
    { intros P F (_ & Ht & _)%rel_since. rewrite Ht, Ht1, Ht0. by rewrite <- !app_assoc. }
    destruct r as [[[]| |]|e]; try done.
    + destruct Hst as (Hrel & Hout & Hsize & Hse).
      split; [by eapply Htr|]. do 3 (split; [done|]).
      apply rel_since in Hrel as (HF & _ & HP).
      split; [done|]. split; [by rewrite Hfs0, <- Hfs1|]. split; [done|]. split; [done|].
      inversion Hrq; subst.
      destruct (DIRECT_DOWNLOAD cfg); auto.
    + split; [by eapply Htr|]. do 3 (split; [done|]).
      apply rel_since in Hst as (HF & _ & HP).
      split; [done|]. by rewrite Hfs0, <- Hfs1.
    + split; [by eapply Htr|]. do 3 (split; [done|]).
      apply rel_since in Hst as (HF & _ & HP).
      split; [done|]. by rewrite Hfs0, <- Hfs1.
  - injection H as <- <-. exists [], (Exc e).
    split; [rewrite Ht1, Ht0; by rewrite app_nil_r, <- !app_assoc|].
    do 3 (split; [done|]). split; [done|]. split; [done|]. by rewrite Hfs1, Hfs0.
Qed.

Lemma backoff_run cb attempt e s w :
  backoff cb attempt e s w
  = (Val tt, World (fs w) (trace w ++ backoff_trace cb attempt e s)).
Proof.
  unfold backoff, backoff_trace, when.
  destruct (attempt <? retries - 1)%nat; simpl.
  2:{ rewrite app_nil_r. by destruct w. }
  destruct (is_server_error_text (str_exn e)); [|done].
  unfold log_callback, when, time_sleep, emit. rewrite bind_run.
  destruct (cb_log cb); simpl; [|done]. by rewrite <- app_assoc.
Qed.

Lemma cleanup_temp_run temp ok w :
  exists tc,
    (cleanup_temp temp ok w).1 = Val tt /\
    trace (cleanup_temp temp ok w).2 = (trace w ++ tc)%list /\
    Forall (fun e => e = EvRemove temp) tc /\
    fs_only [temp] (fs w) (fs (cleanup_temp temp ok w).2).
Proof.
  unfold cleanup_temp, os_path_exists. rewrite bind_run. cbv iota beta.
  destruct (bool_decide (is_Some (fs w !! temp))) eqn:Hex; unfold when.
  - unfold try_catch, os_remove.
    apply bool_decide_eq_true in Hex as [c Hc].
    destruct ok.
    + rewrite Hc. exists [EvRemove temp]. simpl.
      split; [done|]. split; [done|]. split; [by repeat constructor|].
      apply fs_only_delete. by repeat constructor.
    + exists []. simpl. rewrite app_nil_r. repeat split; auto; reflexivity.
  - exists []. simpl. rewrite app_nil_r. repeat split; auto; reflexivity.
Qed.

Lemma on_exception_run out cb attempt s last e w :
  exists te tc tb,
    trace (on_exception out cb attempt s last e w).2 = (trace w ++ te ++ tc ++ tb)%list /\
    Forall err_ev te /\
    Forall (fun e => e = EvRemove (out ++ ".tmp")) tc /\
    fs_only [out ++ ".tmp"] (fs w) (fs (on_exception out cb attempt s last e w).2) /\
    handled cb attempt s last e (on_exception out cb attempt s last e w).1 tc tb.
Proof.
  unfold on_exception, handled.
  assert (forall ctx m w0, exists te,
            error_callback cb ctx m w0 = (Val tt, World (fs w0) (trace w0 ++ te)) /\
            Forall err_ev te) as Herr.
  { intros ctx m w0. unfold error_callback, when, emit. destruct (cb_error cb).
    - exists [EvError ctx m]. split; [done|]. by repeat constructor.
    - exists []. rewrite app_nil_r. by destruct w0. }
  destruct (is_PermissionError e).
  { destruct (Herr out (ErrText (str_exn e)) w) as (te & E & Hte).
    rewrite bind_run, E. simpl. exists te, [], []. rewrite !app_nil_r.
    repeat split; auto; reflexivity. }
  destruct (is_RequestException e).
  - destruct (Herr out (ErrConnection (attempt + 1) (str_exn e)) w) as (te & E & Hte).
    rewrite bind_run, E. cbv iota beta. set (w1 := World _ _).
    destruct (cleanup_temp_run (out ++ ".tmp") (as_remove_temp_ok s) w1)
      as (tc & Hv & Htc & HPc & Hfc).
    rewrite bind_unit_run by exact Hv.
    set (w2 := (cleanup_temp _ _ w1).2) in *. clearbody w2.
    rewrite bind_run, backoff_run. simpl.
    exists te, tc, (backoff_trace cb attempt e s).
    rewrite Htc. subst w1. simpl in *. rewrite <- !app_assoc.
    repeat split; auto.
  - destruct (Herr out (ErrUnexpected (str_exn e)) w) as (te & E & Hte).
    rewrite bind_run, E. cbv iota beta. set (w1 := World _ _).
    destruct (cleanup_temp_run (out ++ ".tmp") (as_remove_temp_ok s) w1)
      as (tc & Hv & Htc & HPc & Hfc).
    rewrite bind_unit_run by exact Hv.
    set (w2 := (cleanup_temp _ _ w1).2) in *. clearbody w2. simpl.
    exists te, tc, []. rewrite Htc. subst w1. simpl in *.
    rewrite app_nil_r, <- !app_assoc. repeat split; auto.
Qed.

Lemma attempt_once_run cfg url out cb attempt s last w :
  exists t0 tl tr ts th rq,
    trace (attempt_once cfg url out cb attempt s last w).2
      = (trace w ++ t0 ++ tl ++ tr ++ ts ++ th ++ [EvSessionClose])%list /\
    Forall pre_ev t0 /\
    Forall (lock_ev (out ++ ".lock")) tl /\
    request_outcome cfg url (out ++ ".lock") s rq tr /\
    attempt_end cb out attempt s last w rq ts th
      (attempt_once cfg url out cb attempt s last w).1
      (attempt_once cfg url out cb attempt s last w).2.
Proof.
  destruct (attempt_once cfg url out cb attempt s last w) as [r w'] eqn:H. simpl.
  unfold attempt_once, finally, try_catch in H. rewrite bind_run in H.
  destruct (try_body_run cfg url out cb attempt s w)
    as (t0 & tl & tr & ts & rq & Ht & H0 & Hl & Hrq & Hcase).
  exists t0, tl, tr, ts.
  destruct (try_body cfg url out cb attempt s w) as [rb w1]. simpl in Ht, Hcase.
  assert (forall e, rb = Exc e -> Forall (store_ev cb out) ts ->
            fs_only [out ++ ".tmp"] (fs w) (fs w1) ->
            exists te tc tb,
              trace w' = (trace w ++ t0 ++ tl ++ tr ++ ts ++ (te ++ tc ++ tb)
                            ++ [EvSessionClose])%list /\
              Forall err_ev te /\
              Forall (fun e => e = EvRemove (out ++ ".tmp")) tc /\
              fs_only [out ++ ".tmp"] (fs w) (fs w') /\
              handled cb attempt s last e r tc tb) as Hexc.
  { intros e -> Hts Hfs.
    destruct (on_exception_run out cb attempt s last e w1)
      as (te & tc & tb & Hth & Hte & Htc & Hfh & Hh).
    destruct (on_exception out cb attempt s last e w1) as [rh w2].
    simpl in Hth, Hfh, Hh. simpl in H. injection H as <- <-.
    exists te, tc, tb. simpl. rewrite Hth, Ht. rewrite <- !app_assoc.
    repeat split; auto. by etrans. }
  destruct rq as [resp|e].
  - destruct rb as [[[]| |]|e]; try done.
    + destruct Hcase as (Hts & Hfs & Hout & Hsize & Hse).
      simpl in H. injection H as <- <-.
      exists [], (Val resp). simpl. rewrite Ht, <- !app_assoc.
      repeat split; auto. by constructor.
    + destruct Hcase as (Hts & Hfs).
      simpl in H. injection H as <- <-.
      exists [], (Val resp). simpl. rewrite Ht, <- !app_assoc.
      repeat split; auto. by constructor.
    + destruct Hcase as (Hts & Hfs).
      destruct (Hexc e eq_refl Hts Hfs) as (te & tc & tb & Htr & Hte & Htc & Hfw & Hh).
      exists (te ++ tc ++ tb)%list, (Val resp).
      repeat split; auto. by eapply AeStoreFailed.
  - destruct Hcase as (-> & -> & Hfs).
    destruct (Hexc e eq_refl) as (te & tc & tb & Htr & Hte & Htc & Hfw & Hh);
      [constructor|rewrite Hfs; reflexivity|].
    exists (te ++ tc ++ tb)%list, (Exc e).
    repeat split; auto. by eapply AeRequestFailed.
Qed.

Lemma pre_ev_fetch cb url out e : pre_ev e -> fetch_ev cb url out e.
Proof. by destruct e. Qed.

Lemma lock_ev_fetch cb url out e : lock_ev (out ++ ".lock") e -> fetch_ev cb url out e.
Proof. destruct e; simpl; try tauto; try (destruct k; tauto). Qed.

Lemma store_ev_fetch cb url out e : store_ev cb out e -> fetch_ev cb url out e.
Proof. destruct e; simpl; try tauto; try (destruct k; tauto). Qed.

Lemma commit_ev_fetch cb url out e : commit_ev cb out e -> fetch_commit_ev cb url out e.
Proof. intros [H|H]; [left; by apply store_ev_fetch|by right]. Qed.

Lemma err_ev_fetch cb url out e : err_ev e -> fetch_ev cb url out e.
Proof. by destruct e. Qed.

Lemma request_outcome_fetch cfg cb url out s rq tr :
  request_outcome cfg url (out ++ ".lock") s rq tr -> Forall (fetch_ev cb url out) tr.
Proof. intros H. inversion H; subst; by repeat constructor. Qed.

Lemma backoff_trace_fetch cb url out attempt e s :
  Forall (fetch_ev cb url out) (backoff_trace cb attempt e s).
Proof.
  unfold backoff_trace. repeat case_match; by repeat constructor.
Qed.

Lemma handled_fetch cb url out attempt s last e r tc tb :
  handled cb attempt s last e r tc tb -> Forall (fetch_ev cb url out) tb.
Proof.
  unfold handled. repeat case_match.
  - by intros (_ & _ & ->).
  - intros (_ & ->). apply backoff_trace_fetch.
  - by intros (_ & ->).
Qed.

Lemma handled_result cb attempt s last e r tc tb :
  handled cb attempt s last e r tc tb ->
  exists c l, r = Val (c, l) /\ c <> CReturn true.
Proof.
  unfold handled. repeat case_match.
  - intros (-> & _). by eexists _, _.
  - intros (-> & _). by eexists _, _.
  - intros (-> & _). by eexists _, _.
Qed.

Lemma Forall_remove_fetch cb url out tc :
  Forall (fun e => e = EvRemove (out ++ ".tmp")) tc -> Forall (fetch_ev cb url out) tc.
Proof. intros H. eapply Forall_impl; [exact H|]. intros e ->. simpl. by left. Qed.

(** What one attempt does to the files and the trace. *)
Lemma attempt_once_footprint cfg url out cb attempt s last w :
  match (attempt_once cfg url out cb attempt s last w).1 with
  | Val (CReturn true, _) =>
      rel (fetch_commit_ev cb url out) (fs_only [out ++ ".tmp"; out]) w
        (attempt_once cfg url out cb attempt s last w).2 /\
      exists resp,
        as_get s = GetResponse resp /\
        fs (attempt_once cfg url out cb attempt s last w).2 !! out = Some (body_of resp) /\
        (0 < content_length resp -> Zlen (body_of resp) = content_length resp) /\
        stream_error resp = None
  | Val _ =>
      rel (fetch_ev cb url out) (fs_only [out ++ ".tmp"]) w
        (attempt_once cfg url out cb attempt s last w).2
  | Exc _ => False
  end.
Proof.
  destruct (attempt_once_run cfg url out cb attempt s last w)
    as (t0 & tl & tr & ts & th & rq & Ht & H0 & Hl & Hrq & Hend).
  destruct (attempt_once cfg url out cb attempt s last w) as [r w']. simpl in *.
  assert (Forall (fetch_ev cb url out) t0) as F0
    by (eapply Forall_impl; [exact H0|apply pre_ev_fetch]).
  assert (Forall (fetch_ev cb url out) tl) as Fl
    by (eapply Forall_impl; [exact Hl|apply lock_ev_fetch]).
  pose proof (request_outcome_fetch _ cb _ _ _ _ _ Hrq) as Fr.
  assert (Forall (fetch_ev cb url out) [EvSessionClose]) as Fc by by repeat constructor.
  assert (forall P : event -> Prop, (forall e, fetch_ev cb url out e -> P e) ->
            Forall P ts -> Forall P th ->
            Forall P (t0 ++ tl ++ tr ++ ts ++ th ++ [EvSessionClose])%list) as Hall.
  { intros P HP Hs Hh. repeat apply Forall_app_2; auto;
      eapply Forall_impl; eauto. }
  inversion Hend; subst.
  - split.
    + eapply since_rel; [done|exact Ht|].
      apply Hall; [by left| |constructor].
      eapply Forall_impl; [eassumption|apply commit_ev_fetch].
    + inversion Hrq; subst. eauto.
  - eapply since_rel; [done|exact Ht|].
    apply Hall; [done| |constructor].
    eapply Forall_impl; [eassumption|apply store_ev_fetch].
  - match goal with Hh : handled _ _ _ _ _ _ _ _ |- _ =>
      destruct (handled_result _ _ _ _ _ _ _ _ Hh) as (c & l & -> & Hc) end.
    assert (rel (fetch_ev cb url out) (fs_only [out ++ ".tmp"]) w w') as Hrel.
    { eapply since_rel; [done|exact Ht|].
      apply Hall; [done|constructor|].
      repeat apply Forall_app_2.
      - eapply Forall_impl; [eassumption|apply err_ev_fetch].
      - by apply Forall_remove_fetch.
      - by eapply handled_fetch. }
    destruct c as [[]| |]; done.
  - match goal with Hh : handled _ _ _ _ _ _ _ _ |- _ =>
      destruct (handled_result _ _ _ _ _ _ _ _ Hh) as (c & l & -> & Hc) end.
    assert (rel (fetch_ev cb url out) (fs_only [out ++ ".tmp"]) w w') as Hrel.
    { eapply since_rel; [done|exact Ht|].
      apply Hall; [done| |].
      - eapply Forall_impl; [eassumption|apply store_ev_fetch].
      - repeat apply Forall_app_2.
        + eapply Forall_impl; [eassumption|apply err_ev_fetch].
        + by apply Forall_remove_fetch.
        + by eapply handled_fetch. }
    destruct c as [[]| |]; done.
Qed.

Lemma retries_failed_run cb out last w :
  exists tf,
    retries_failed cb out last w = (Val false, World (fs w) (trace w ++ tf)) /\
    Forall err_ev tf.
Proof.
  unfold retries_failed. rewrite bind_run.
  destruct last as [e|].
  - unfold error_callback, when, emit. destruct (cb_error cb); simpl.
    + eexists [_]. split; [done|]. by repeat constructor.
    + exists []. rewrite app_nil_r. by destruct w.
  - exists []. simpl. rewrite app_nil_r. by destruct w.
Qed.

Lemma attempts_loop_unfold cfg url out cb sc n attempt last w :
  attempts_loop cfg url out cb sc (S n) attempt last w =
  match attempt_once cfg url out cb attempt (sc attempt) last w with
  | (Val (CReturn b, _), w1) => (Val b, w1)
  | (Val (CContinue, l), w1) => attempts_loop cfg url out cb sc n (S attempt) l w1
  | (Val (CBreak, l), w1) => retries_failed cb out l w1
  | (Exc e, w1) => (Exc e, w1)
  end.
Proof.
  simpl. rewrite bind_run.
  destruct (attempt_once _ _ _ _ _ _ _ _) as [[[[]]|] w1]; done.
Qed.

Lemma fs_only_temp_out (out : string) f f' :
  fs_only [out ++ ".tmp"] f f' -> fs_only [out ++ ".tmp"; out] f f'.
Proof.
  apply fs_only_mono. intros p ->%list_elem_of_singleton. by left.
Qed.

Lemma rel_fetch_commit cb url out w w' :
  rel (fetch_ev cb url out) (fs_only [out ++ ".tmp"]) w w' ->
  rel (fetch_commit_ev cb url out) (fs_only [out ++ ".tmp"; out]) w w'.
Proof.
  apply rel_weaken; [by left|]. intros f f'. apply fs_only_temp_out.
Qed.

Lemma fs_only_at (out : string) f f' :
  fs_only [out ++ ".tmp"] f f' -> f' !! out = f !! out.
Proof.
  intros H. apply H. intros Heq%list_elem_of_singleton.
  symmetry in Heq. by eapply temp_ne_out.
Qed.

Lemma attempts_loop_footprint cfg url out cb sc n : forall attempt last w,
  match (attempts_loop cfg url out cb sc n attempt last w).1 with
  | Val true =>
      rel (fetch_commit_ev cb url out) (fs_only [out ++ ".tmp"; out]) w
        (attempts_loop cfg url out cb sc n attempt last w).2 /\
      exists k resp,
        (attempt <= k < attempt + n)%nat /\
        as_get (sc k) = GetResponse resp /\
        fs (attempts_loop cfg url out cb sc n attempt last w).2 !! out
          = Some (body_of resp) /\
        (0 < content_length resp -> Zlen (body_of resp) = content_length resp) /\
        stream_error resp = None
  | Val false =>
      rel (fetch_ev cb url out) (fs_only [out ++ ".tmp"]) w
        (attempts_loop cfg url out cb sc n attempt last w).2
  | Exc _ => False
  end.
Proof.
  induction n as [|n IH]; intros attempt last w.
  - simpl. destruct (retries_failed_run cb out last w) as (tf & -> & Hf). simpl.
    eapply since_rel; [reflexivity|done|].
    eapply Forall_impl; [exact Hf|apply err_ev_fetch].
  - rewrite attempts_loop_unfold.
    pose proof (attempt_once_footprint cfg url out cb attempt (sc attempt) last w) as Ha.
    destruct (attempt_once _ _ _ _ _ _ _ _) as [[[c l]|e] w1]; simpl in Ha; [|done].
    destruct c as [[]| |].
    + simpl. destruct Ha as (Hrel & resp & Hg & Hout & Hsz & Hse).
      split; [done|]. exists attempt, resp. repeat split; auto; lia.
    + exact Ha.
    + specialize (IH (S attempt) l w1).
      destruct (attempts_loop cfg url out cb sc n (S attempt) l w1) as [[[]|e] w2];
        simpl in *; [| |done].
      * destruct IH as (Hrel & k & resp & Hk & Hg & Hout & Hsz & Hse).
        split; [etrans; [apply rel_fetch_commit, Ha|exact Hrel]|].
        exists k, resp. repeat split; auto; lia.
      * by etrans.
    + destruct (retries_failed_run cb out l w1) as (tf & -> & Hf). simpl.
      etrans; [exact Ha|].
      eapply since_rel; [reflexivity|done|].
      eapply Forall_impl; [exact Hf|apply err_ev_fetch].
Qed.

Lemma fetch_ev_touches cb url out e : fetch_ev cb url out e -> ~ touches out e.
Proof.
  destruct e; simpl; try tauto.
  - intros -> H. by eapply temp_ne_out.
  - intros -> H. by eapply temp_ne_out.
  - intros [-> | ->] H; [by eapply temp_ne_out|by eapply lock_ne_out].
Qed.

Lemma descargar_archivo_footprint cfg url out cb overwrite sc w :
  match (descargar_archivo cfg url out cb overwrite sc w).1 with
  | Val true =>
      (overwrite = false /\ is_Some (fs w !! out) /\
       fs (descargar_archivo cfg url out cb overwrite sc w).2 = fs w /\
       since w (descargar_archivo cfg url out cb overwrite sc w).2
         = (if cb_log cb then [EvLog (LogSkipExisting out)] else []))
      \/
      (rel (fetch_commit_ev cb url out) (fs_only [out ++ ".tmp"; out]) w
         (descargar_archivo cfg url out cb overwrite sc w).2 /\
       exists k resp,
         (k < retries)%nat /\
         as_get (sc k) = GetResponse resp /\
         fs (descargar_archivo cfg url out cb overwrite sc w).2 !! out
           = Some (body_of resp) /\
         (0 < content_length resp -> Zlen (body_of resp) = content_length resp) /\
         stream_error resp = None)
  | Val false =>
      rel (fetch_ev cb url out) (fs_only [out ++ ".tmp"]) w
        (descargar_archivo cfg url out cb overwrite sc w).2
  | Exc _ => False
  end.
Proof.
  unfold descargar_archivo. rewrite bind_run. unfold os_path_exists. cbv iota beta.
  destruct (bool_decide (is_Some (fs w !! out)) && negb overwrite) eqn:Hskip.
  - apply andb_true_iff in Hskip as [Hex Hov].
    apply bool_decide_eq_true in Hex. apply negb_true_iff in Hov.
    rewrite bind_unit_run by val_tt. simpl fst. cbv iota beta. left.
    split; [done|]. split; [done|].
    unfold log_callback, when, emit. destruct (cb_log cb); simpl.
    + split; [done|]. by apply since_app.
    + split; [done|]. apply since_app. by rewrite app_nil_r.
  - pose proof (attempts_loop_footprint cfg url out cb sc retries 0 None w) as H.
    destruct (attempts_loop cfg url out cb sc retries 0 None w) as [[[]|e] w']; simpl in *.
    + right. destruct H as (Hrel & k & resp & Hk & Hrest).
      split; [done|]. exists k, resp. split; [lia|done].
    + done.
    + done.
Qed.

(** ** The destination file *)

(** C1 (atomicity of the destination).  For every fetch: if it does not
    return success, the destination has the content it had before and no
    event touched it; if the destination changed, its new content is the
    complete body of the response of one of the five attempts, whose stream
    ended without error and whose length equals the advertised
    content length when one was advertised; and the only events that ever
    touch the destination are renames of the temporary file onto it. *)
Theorem fetch_is_atomic cfg url out cb overwrite sc w :
  let r := (descargar_archivo cfg url out cb overwrite sc w).1 in
  let w' := (descargar_archivo cfg url out cb overwrite sc w).2 in
  (r <> Val true ->
     fs w' !! out = fs w !! out /\ forall e, e ∈ since w w' -> ~ touches out e) /\
  (fs w' !! out <> fs w !! out ->
     exists k resp,
       (k < retries)%nat /\ as_get (sc k) = GetResponse resp /\
       stream_error resp = None /\
       (0 < content_length resp -> Zlen (body_of resp) = content_length resp) /\
       fs w' !! out = Some (body_of resp)) /\
  (forall e, e ∈ since w w' -> touches out e -> e = EvReplace (out ++ ".tmp") out).
Proof.
  intros r w'. subst r w'.
  pose proof (descargar_archivo_footprint cfg url out cb overwrite sc w) as H.
  destruct (descargar_archivo cfg url out cb overwrite sc w) as [[[]|e] w']; simpl in *;
    [| |done].
  - destruct H as [(_ & _ & Hfs & Hsince)|(Hrel & k & resp & Hk & Hg & Hout & Hsz & Hse)].
    + split; [done|]. split; [by rewrite Hfs|].
      intros e. rewrite Hsince. destruct (cb_log cb); [|by intros ?%elem_of_nil].
      by intros ->%list_elem_of_singleton.
    + split; [done|]. split; [by eauto 10|].
      apply rel_since in Hrel as (_ & _ & HP).
      intros e He Ht. rewrite Forall_forall in HP. destruct (HP e He) as [Hf|Hf]; [|done].
      by apply fetch_ev_touches in Hf.
  - apply rel_since in H as (Hfs & _ & HP). rewrite Forall_forall in HP.
    apply fs_only_at in Hfs.
    split; [|split].
    + intros _. split; [done|]. intros e He. by eapply fetch_ev_touches, HP.
    + done.
    + intros e He Ht. by apply HP, fetch_ev_touches in He.
Qed.

Lemma fetch_is_atomic_witness :
  let run := descargar_archivo default_config example_url example_path all_callbacks
               true (fun _ => reply_status 500 "Internal Server Error") old_world in
  run.1 <> Val true /\ fs run.2 !! example_path = Some "old".
Proof.
  assert (let run := descargar_archivo default_config example_url example_path
                       all_callbacks true
                       (fun _ => reply_status 500 "Internal Server Error") old_world in
          run.1 <> Val true) as Hfail by (vm_compute; discriminate).
  split; [exact Hfail|].
  exact (proj1 (proj1 (fetch_is_atomic default_config example_url example_path
                         all_callbacks true
                         (fun _ => reply_status 500 "Internal Server Error") old_world)
                  Hfail)).
Defined.

(** ** Where an event sits in a concatenation *)

Lemma split_app {A} (x : A) (t1 t2 a b : list A) :
  (t1 ++ x :: t2 = a ++ b)%list ->
  (exists a2, a = (t1 ++ x :: a2)%list /\ t2 = (a2 ++ b)%list) \/
  (exists b1, t1 = (a ++ b1)%list /\ b = (b1 ++ x :: t2)%list).
Proof.
  revert a. induction t1 as [|y t1 IH]; intros a H.
  - destruct a as [|z a]; simpl in *.
    + right. exists []. by subst.
    + injection H as Hx Ht. subst. left. by exists a.
  - destruct a as [|z a]; simpl in *.
    + right. exists (y :: t1). by subst.
    + injection H as Hy H. subst z.
      destruct (IH _ H) as [(a2 & -> & ->)|(b1 & -> & ->)].
      * left. by exists a2.
      * right. by exists b1.
Qed.

Lemma split_not_in {A} (P : A -> Prop) (x : A) (t1 t2 a : list A) :
  Forall P a -> ~ P x -> a <> (t1 ++ x :: t2)%list.
Proof.
  intros Ha Hx ->. apply Forall_app in Ha as [_ Ha]. by inversion Ha.
Qed.

Lemma split_unique {A} (P : A -> Prop) (x : A) (t1 t2 a b : list A) :
  Forall P a -> Forall P b -> ~ P x ->
  (t1 ++ x :: t2 = a ++ x :: b)%list -> t1 = a /\ t2 = b.
Proof.
  intros Ha Hb Hx H. apply split_app in H as [(a2 & -> & _)|(b1 & -> & H)].
  - apply Forall_app in Ha as [_ Ha]. by inversion Ha.
  - destruct b1 as [|y b1]; simpl in H.
    + injection H as <-. by rewrite app_nil_r.
    + injection H as <- ->. apply Forall_app in Hb as [_ Hb]. by inversion Hb.
Qed.

Lemma pre_ev_not_response e : pre_ev e -> not_response e.
Proof. by destruct e. Qed.
Lemma lock_ev_not_response p e : lock_ev p e -> not_response e.
Proof. by destruct e. Qed.
Lemma commit_ev_not_response cb out e : commit_ev cb out e -> not_response e.
Proof. intros [H| ->]; [by destruct e|done]. Qed.
Lemma err_ev_not_response e : err_ev e -> not_response e.
Proof. by destruct e. Qed.
Lemma err_ev_quiet e : err_ev e -> quiet e.
Proof. by destruct e. Qed.

Lemma handled_not_response cb attempt s last e r tc tb :
  handled cb attempt s last e r tc tb -> Forall not_response tb.
Proof.
  unfold handled, backoff_trace.
  repeat case_match; intros; destruct_and?; subst; by repeat constructor.
Qed.

Lemma attempt_end_not_response cb out attempt s last w rq ts th r w' :
  attempt_end cb out attempt s last w rq ts th r w' ->
  Forall not_response ts /\ Forall not_response th.
Proof.
  intros H. inversion H; subst; split; try by constructor.
  all: repeat apply Forall_app_2;
    try (eapply Forall_impl; [eassumption|]);
    eauto using commit_ev_not_response, err_ev_not_response, handled_not_response.
  all: try (intros ev Hev; apply (commit_ev_not_response cb out); by left).
  all: try (simpl; by intros e0 ->).
Qed.

(** One attempt: after a 401 answer there are no more requests or sleeps
    and the loop is left. *)
Lemma attempt_once_401 cfg url out cb attempt s last w t1 t2 :
  since w (attempt_once cfg url out cb attempt s last w).2
    = (t1 ++ EvResponse 401 :: t2)%list ->
  Forall quiet t2 /\
  exists e, (attempt_once cfg url out cb attempt s last w).1 = Val (CBreak, Some e).
Proof.
  destruct (attempt_once_run cfg url out cb attempt s last w)
    as (t0 & tl & tr & ts & th & rq & Ht & H0 & Hl & Hrq & Hend).
  rewrite (since_app _ _ _ Ht).
  destruct (attempt_end_not_response _ _ _ _ _ _ _ _ _ _ _ Hend) as [Hs Hh].
  assert (Forall not_response t0) as N0
    by (eapply Forall_impl; [exact H0|apply pre_ev_not_response]).
  assert (Forall not_response tl) as Nl
    by (eapply Forall_impl; [exact Hl|apply lock_ev_not_response]).
  destruct (attempt_once cfg url out cb attempt s last w) as [r w']. simpl in *.
  assert (forall tr', Forall (fun e => not_response e \/ not_401 e) tr' ->
            (t0 ++ tl ++ tr' ++ ts ++ th ++ [EvSessionClose])%list
              <> (t1 ++ EvResponse 401 :: t2)%list) as Hno.
  { intros tr' Hr. apply (split_not_in (fun e => not_response e \/ not_401 e)).
    - repeat apply Forall_app_2; try done;
        try (eapply Forall_impl; [eassumption|by left]).
      by repeat constructor.
    - intros [H|H]; [done|by apply H]. }
  intros Heq.
  inversion Hrq; subst; try (exfalso; revert Heq; apply Hno; by repeat constructor).
  - (* the 401 answer *)
    inversion Hend; subst.
    match goal with Hh : handled _ _ _ _ _ _ _ _ |- _ =>
      unfold handled in Hh; simpl in Hh; destruct Hh as (-> & -> & ->) end.
    rewrite !app_nil_r in Heq. simpl in Heq.
    replace (t0 ++ tl ++ EvRequest url :: EvResponse 401
               :: EvLockRelease (out ++ ".lock") :: te ++ [EvSessionClose])%list
      with ((t0 ++ tl ++ [EvRequest url]) ++ EvResponse 401
              :: (EvLockRelease (out ++ ".lock") :: te ++ [EvSessionClose]))%list in Heq
      by (by rewrite <- !app_assoc).
    symmetry in Heq.
    apply (split_unique not_response) in Heq as [_ ->]; [| | |intros []].
    + split; [|by eexists]. constructor; [done|].
      apply Forall_app_2; [|by repeat constructor].
      eapply Forall_impl; [eassumption|apply err_ev_quiet].
    + repeat apply Forall_app_2; try done. by repeat constructor.
    + constructor; [done|]. apply Forall_app_2; [|by repeat constructor].
      eapply Forall_impl; [eassumption|apply err_ev_not_response].
  - exfalso. revert Heq. apply Hno.
    constructor; [by left|]. constructor; [right; intros [=]; done|].
    constructor; [by left|constructor].
  - exfalso. revert Heq. apply Hno.
    constructor; [by left|]. constructor; [right; intros [=]; done|].
    constructor; [by left|constructor].
Qed.

Lemma attempt_once_extends cfg url out cb attempt s last w :
  trace (attempt_once cfg url out cb attempt s last w).2
  = (trace w ++ since w (attempt_once cfg url out cb attempt s last w).2)%list.
Proof.
  pose proof (attempt_once_footprint cfg url out cb attempt s last w) as H.
  destruct (attempt_once _ _ _ _ _ _ _ _) as [[[c l]|e] w1]; simpl in *; [|done].
  destruct c as [[]| |]; [destruct H as [H _]| | |];
    by apply rel_since in H as (_ & ? & _).
Qed.

Lemma attempts_loop_extends cfg url out cb sc n attempt last w :
  trace (attempts_loop cfg url out cb sc n attempt last w).2
  = (trace w ++ since w (attempts_loop cfg url out cb sc n attempt last w).2)%list.
Proof.
  pose proof (attempts_loop_footprint cfg url out cb sc n attempt last w) as H.
  destruct (attempts_loop _ _ _ _ _ _ _ _ _) as [[[]|e] w1]; simpl in *; [| |done].
  - destruct H as [H _]. by apply rel_since in H as (_ & ? & _).
  - by apply rel_since in H as (_ & ? & _).
Qed.

Lemma since_trans w w1 w2 :
  trace w1 = (trace w ++ since w w1)%list ->
  trace w2 = (trace w1 ++ since w1 w2)%list ->
  since w w2 = (since w w1 ++ since w1 w2)%list.
Proof.
  intros H1 H2. apply since_app. rewrite H2, H1 at 1. by rewrite <- app_assoc.
Qed.

Lemma attempts_loop_401 cfg url out cb sc n : forall attempt last w t1 t2,
  since w (attempts_loop cfg url out cb sc n attempt last w).2
    = (t1 ++ EvResponse 401 :: t2)%list ->
  Forall quiet t2 /\ (attempts_loop cfg url out cb sc n attempt last w).1 = Val false.
Proof.
  induction n as [|n IH]; intros attempt last w t1 t2.
  - simpl. destruct (retries_failed_run cb out last w) as (tf & -> & Hf). simpl.
    rewrite (since_app w _ tf) by done. intros Heq. exfalso.
    apply (split_not_in err_ev (EvResponse 401) t1 t2 tf Hf); [intros []|done].
  - pose proof (attempts_loop_extends cfg url out cb sc (S n) attempt last w) as Hext.
    revert Hext. rewrite attempts_loop_unfold.
    pose proof (attempt_once_extends cfg url out cb attempt (sc attempt) last w) as Ha.
    pose proof (fun t1 t2 =>
      attempt_once_401 cfg url out cb attempt (sc attempt) last w t1 t2) as H401.
    pose proof (attempt_once_footprint cfg url out cb attempt (sc attempt) last w) as Hfp.
    destruct (attempt_once _ _ _ _ _ _ _ _) as [[[c l]|e] w1]; simpl in *; [|done].
    destruct c as [b| |].
    + simpl. intros _ Heq. apply H401 in Heq as [_ [e [=]]].
    + pose proof (attempts_loop_extends cfg url out cb sc n (S attempt) l w1) as Hl.
      specialize (IH (S attempt) l w1).
      destruct (attempts_loop cfg url out cb sc n (S attempt) l w1) as [r2 w2].
      simpl in *. intros _. rewrite (since_trans w w1 w2) by done.
      intros Heq. symmetry in Heq.
      apply split_app in Heq as [(a2 & Heq & _)|(b1 & _ & Heq)].
      * apply H401 in Heq as [_ [e [=]]].
      * by apply IH in Heq.
    + destruct (retries_failed_run cb out l w1) as (tf & -> & Hf). simpl.
      intros _. rewrite (since_trans w w1 (World (fs w1) (trace w1 ++ tf)));
        [|done|simpl; by rewrite (since_app w1 _ tf)].
      rewrite (since_app w1 _ tf) by done.
      intros Heq. symmetry in Heq.
      apply split_app in Heq as [(a2 & Heq & ->)|(b1 & _ & Heq)].
      * apply H401 in Heq as [Hq _]. split; [|done].
        apply Forall_app_2; [done|].
        eapply Forall_impl; [exact Hf|apply err_ev_quiet].
      * exfalso.
        apply (split_not_in err_ev (EvResponse 401) b1 t2 tf Hf); [intros []|done].
Qed.

(** ** Runs of the orchestrator *)

Lemma submit_tasks_run cfg cb net folder urls : forall w,
  exists tasks,
    (submit_tasks cfg cb net folder urls w).1 = Val tasks /\
    tasks.*2 = task_path folder <$> urls.
Proof.
  induction urls as [|[[url anio] estado] rest IH]; intros w; simpl.
  - by exists [].
  - rewrite bind_run. unfold capture at 1.
    destruct (descargar_archivo _ _ _ _ _ _ w) as [r w1].
    rewrite bind_run. destruct (IH w1) as (tasks & Ht & Hp).
    destruct (submit_tasks cfg cb net folder rest w1) as [rt w2]. simpl in Ht. subst rt.
    simpl. eexists. split; [done|]. rewrite !fmap_cons. f_equal. exact Hp.
Qed.

Lemma process_tasks_run cb total tasks : forall completed downloaded w,
  (process_tasks cb total completed tasks downloaded w).1
  = Val (downloaded ++ succeeded tasks)%list.
Proof.
  induction tasks as [|[[ok|e] path] rest IH]; intros completed downloaded w; simpl.
  - by rewrite app_nil_r.
  - rewrite bind_unit_run by val_tt. rewrite IH.
    destruct ok; [by rewrite <- app_assoc|done].
  - rewrite bind_unit_run by (destruct (is_RequestException e); val_tt).
    by rewrite IH.
Qed.

Lemma descargar_en_paralelo_result cfg cb net tipo urls folder w :
  exists tasks,
    (submit_tasks cfg cb net folder urls w).1 = Val tasks /\
    tasks.*2 = task_path folder <$> urls /\
    (descargar_en_paralelo cfg cb net tipo urls folder w).1 = Val (succeeded tasks).
Proof.
  destruct (submit_tasks_run cfg cb net folder urls w) as (tasks & Ht & Hp).
  exists tasks. split; [done|]. split; [done|].
  unfold descargar_en_paralelo. rewrite bind_run.
  destruct (submit_tasks cfg cb net folder urls w) as [rt w1]. simpl in Ht. subst rt.
  by rewrite process_tasks_run.
Qed.

(** C7 (401 is permanent).  In every fetch, once a request has been answered
    with status 401 no further request is issued and nothing is slept, and
    the fetch returns failure; the orchestrator still runs every task of the
    batch and returns the destinations of those whose own fetch succeeded,
    as in the batch where task A gets a 401 and task B a 200. *)
Theorem unauthorized_is_permanent :
  (forall cfg url out cb overwrite sc w t1 t2,
     since w (descargar_archivo cfg url out cb overwrite sc w).2
       = (t1 ++ EvResponse 401 :: t2)%list ->
     (descargar_archivo cfg url out cb overwrite sc w).1 = Val false /\
     Forall quiet t2) /\
  (forall cfg cb net tipo urls folder w,
     exists tasks,
       (submit_tasks cfg cb net folder urls w).1 = Val tasks /\
       tasks.*2 = task_path folder <$> urls /\
       (descargar_en_paralelo cfg cb net tipo urls folder w).1 = Val (succeeded tasks)) /\
  (descargar_en_paralelo default_config all_callbacks net_401_then_ok 58
     [construir_url 58 2025 "A"; construir_url 58 2025 "P"]
     "C:\app\descargas\CCM" empty_world).1
  = Val ["C:\app\descargas\CCM\2025_P.csv"].
Proof.
  split; [|split].
  - intros cfg url out cb overwrite sc w t1 t2.
    unfold descargar_archivo. rewrite bind_run. unfold os_path_exists. cbv iota beta.
    destruct (_ && _).
    + rewrite bind_unit_run by val_tt. simpl fst. simpl snd.
      unfold log_callback, when, emit. destruct (cb_log cb); simpl.
      * rewrite (since_app w _ [EvLog (LogSkipExisting out)]) by done.
        destruct t1 as [|? [|? ?]]; done.
      * rewrite (since_app w _ []) by (by rewrite app_nil_r).
        destruct t1; done.
    + intros H. apply attempts_loop_401 in H. tauto.
  - apply descargar_en_paralelo_result.
  - vm_compute. reflexivity.
Qed.

Lemma unauthorized_is_permanent_witness :
  let run := descargar_archivo default_config example_url example_path all_callbacks
               true (fun _ => reply_status 401 "Unauthorized") empty_world in
  run.1 = Val false /\
  Forall quiet [EvLockRelease (example_path ++ ".lock");
                EvError example_path (ErrText AUTH_MSG);
                EvSessionClose;
                EvError example_path (ErrRetriesExhausted 5 AUTH_MSG)].
Proof.
  apply (proj1 unauthorized_is_permanent default_config example_url example_path
           all_callbacks true (fun _ => reply_status 401 "Unauthorized") empty_world
           [EvLog (LogAttempt 1 5 example_url);
            EvLockAcquire (example_path ++ ".lock");
            EvRequest example_url]).
  vm_compute. reflexivity.
Defined.

(** ** Counting requests and sleeps *)

Lemma n_requests_app t1 t2 : n_requests (t1 ++ t2) = (n_requests t1 + n_requests t2)%nat.
Proof. unfold n_requests. by rewrite List.filter_app, length_app. Qed.

Lemma backoff_sleeps_app t1 t2 :
  backoff_sleeps (t1 ++ t2) = (backoff_sleeps t1 ++ backoff_sleeps t2)%list.
Proof. apply omap_app. Qed.

Lemma idle_requests t : Forall idle t -> n_requests t = 0%nat.
Proof.
  induction 1 as [|e t [He _] _ IH]; [done|].
  unfold n_requests in *. simpl. by rewrite He.
Qed.

Lemma idle_sleeps t : Forall idle t -> backoff_sleeps t = [].
Proof.
  induction 1 as [|e t [_ He] _ IH]; [done|].
  unfold backoff_sleeps in *. simpl. by rewrite He.
Qed.

Lemma pre_ev_idle e : pre_ev e -> idle e.
Proof. by destruct e. Qed.
Lemma lock_ev_idle p e : lock_ev p e -> idle e.
Proof. destruct e; try done. by destruct k. Qed.
Lemma commit_ev_idle cb out e : commit_ev cb out e -> idle e.
Proof. intros [H| ->]; [|done]. destruct e; try done. by destruct k. Qed.
Lemma store_ev_idle cb out e : store_ev cb out e -> idle e.
Proof. intros H. apply (commit_ev_idle cb out). by left. Qed.
Lemma err_ev_idle e : err_ev e -> idle e.
Proof. by destruct e. Qed.
Lemma remove_idle p e : e = EvRemove p -> idle e.
Proof. by intros ->. Qed.

Lemma request_outcome_count cfg url lock s rq tr :
  request_outcome cfg url lock s rq tr ->
  (n_requests tr <= 1)%nat /\ backoff_sleeps tr = [].
Proof. intros H. inversion H; subst; split; simpl; done || (cbv; lia). Qed.

Lemma backoff_trace_sleeps cb attempt e s :
  n_requests (backoff_trace cb attempt e s) = 0%nat /\
  backoff_sleeps (backoff_trace cb attempt e s)
  = if (attempt <? retries - 1)%nat then [backoff_delay (S attempt) s e] else [].
Proof.
  unfold backoff_trace, backoff_delay.
  replace (S attempt - 1)%nat with attempt by lia.
  destruct (attempt <? retries - 1)%nat; [|done].
  destruct (is_server_error_text (str_exn e)); [|done].
  by destruct (cb_log cb).
Qed.

(** The requests and back-off sleeps of the [except] clauses. *)
Lemma handled_sleeps cb attempt s last e r tc tb :
  handled cb attempt s last e r tc tb ->
  n_requests tb = 0%nat /\
  (backoff_sleeps tb = [] \/
   ((S attempt < retries)%nat /\ is_RequestException e = true /\
    r = Val (CContinue, Some e) /\
    backoff_sleeps tb = [backoff_delay (S attempt) s e])).
Proof.
  unfold handled. destruct (is_PermissionError e).
  { intros (_ & _ & ->). split; [done|by left]. }
  destruct (is_RequestException e).
  - intros (-> & ->). destruct (backoff_trace_sleeps cb attempt e s) as [Hn Hs].
    split; [done|]. rewrite Hs.
    destruct (attempt <? retries - 1)%nat eqn:Hlt; [|by left].
    right. apply Nat.ltb_lt in Hlt. repeat split; auto. unfold retries in *. lia.
  - intros (_ & ->). split; [done|by left].
Qed.

Lemma attempt_once_count cfg url out cb attempt s last w :
  let r := (attempt_once cfg url out cb attempt s last w).1 in
  let t := since w (attempt_once cfg url out cb attempt s last w).2 in
  (n_requests t <= 1)%nat /\
  (backoff_sleeps t = [] \/
   exists e,
     (S attempt < retries)%nat /\ is_RequestException e = true /\
     r = Val (CContinue, Some e) /\
     backoff_sleeps t = [backoff_delay (S attempt) s e]).
Proof.
  intros r t. subst r t.
  destruct (attempt_once_run cfg url out cb attempt s last w)
    as (t0 & tl & tr & ts & th & rq & Ht & H0 & Hl & Hrq & Hend).
  rewrite (since_app _ _ _ Ht).
  destruct (attempt_once cfg url out cb attempt s last w) as [r w']. simpl in *.
  assert (Forall idle t0) as I0 by (eapply Forall_impl; [exact H0|apply pre_ev_idle]).
  assert (Forall idle tl) as Il by (eapply Forall_impl; [exact Hl|apply lock_ev_idle]).
  destruct (request_outcome_count _ _ _ _ _ _ Hrq) as [Rn Rs].
  assert (Forall idle ts) as Is.
  { inversion Hend; subst; try done;
      (eapply Forall_impl; [eassumption|]);
      eauto using commit_ev_idle, store_ev_idle. }
  assert (n_requests th = 0%nat /\
          (backoff_sleeps th = [] \/
           exists e, (S attempt < retries)%nat /\ is_RequestException e = true /\
             r = Val (CContinue, Some e) /\
             backoff_sleeps th = [backoff_delay (S attempt) s e])) as [Hn Hs].
  { inversion Hend; subst; try (split; [done|by left]).
    all: match goal with Hh : handled _ _ _ _ _ _ _ _ |- _ =>
           destruct (handled_sleeps _ _ _ _ _ _ _ _ Hh) as [Hn Hs] end.
    all: rewrite !n_requests_app, !backoff_sleeps_app.
    all: rewrite (idle_requests te), (idle_sleeps te)
           by (eapply Forall_impl; [eassumption|apply err_ev_idle]).
    all: rewrite (idle_requests tc), (idle_sleeps tc)
           by (eapply Forall_impl; [eassumption|apply remove_idle]).
    all: split; [by rewrite Hn|]; simpl.
    all: destruct Hs as [Hs|(? & ? & ? & Hs)]; [by left|right; eauto 10]. }
  rewrite !n_requests_app, !backoff_sleeps_app.
  rewrite (idle_requests t0), (idle_sleeps t0) by done.
  rewrite (idle_requests tl), (idle_sleeps tl) by done.
  rewrite (idle_requests ts), (idle_sleeps ts) by done.
  rewrite Rs, Hn. simpl. rewrite app_nil_r.
  split; [unfold n_requests at 2; simpl; lia|]. exact Hs.
Qed.

Lemma attempts_loop_count cfg url out cb sc n : forall attempt last w,
  (n_requests (since w (attempts_loop cfg url out cb sc n attempt last w).2) <= n)%nat /\
  (length (backoff_sleeps (since w (attempts_loop cfg url out cb sc n attempt last w).2))
   <= retries - 1 - attempt)%nat.
Proof.
  change (retries - 1)%nat with 4%nat.
  induction n as [|n IH]; intros attempt last w.
  - simpl. destruct (retries_failed_run cb out last w) as (tf & -> & Hf).
    rewrite (since_app w _ tf) by done.
    assert (Forall idle tf) as Hi by (eapply Forall_impl; [exact Hf|apply err_ev_idle]).
    rewrite (idle_requests tf), (idle_sleeps tf) by done. simpl. lia.
  - pose proof (attempts_loop_extends cfg url out cb sc (S n) attempt last w) as Hext.
    revert Hext. rewrite attempts_loop_unfold.
    pose proof (attempt_once_extends cfg url out cb attempt (sc attempt) last w) as Ha.
    pose proof (attempt_once_count cfg url out cb attempt (sc attempt) last w) as Hc.
    pose proof (attempt_once_footprint cfg url out cb attempt (sc attempt) last w) as Hfp.
    destruct (attempt_once _ _ _ _ _ _ _ _) as [[[c l]|e] w1]; simpl in *; [|done].
    destruct Hc as [Hn Hs].
    assert (length (backoff_sleeps (since w w1)) <= 1 /\
            (4 - attempt = 0 -> backoff_sleeps (since w w1) = []))%nat as [Hs1 Hs0].
    { destruct Hs as [->|(e & Hlt & _ & _ & ->)]; simpl.
      - split; [by repeat constructor|done].
      - split; [by repeat constructor|]. unfold retries in *. intros ?. exfalso.
        clear -Hlt H. lia. }
    clear Hs. destruct c as [b| |].
    + simpl. intros _. split; [lia|].
      destruct (decide (4 - attempt = 0)%nat) as [Hz|Hz]; [|lia].
      rewrite (Hs0 Hz). simpl. lia.
    + pose proof (attempts_loop_extends cfg url out cb sc n (S attempt) l w1) as Hl.
      destruct (IH (S attempt) l w1) as [IHn IHs].
      destruct (attempts_loop cfg url out cb sc n (S attempt) l w1) as [r2 w2].
      simpl in *. intros _. rewrite (since_trans w w1 w2) by done.
      rewrite n_requests_app, backoff_sleeps_app, length_app. split; [lia|].
      destruct (decide (4 - attempt = 0)%nat) as [Hz|Hz]; [|lia].
      rewrite (Hs0 Hz). simpl. lia.
    + destruct (retries_failed_run cb out l w1) as (tf & -> & Hf). simpl.
      intros _. rewrite (since_trans w w1 (World (fs w1) (trace w1 ++ tf)));
        [|done|simpl; by rewrite (since_app w1 _ tf)].
      rewrite (since_app w1 _ tf) by done.
      assert (Forall idle tf) as Hi by (eapply Forall_impl; [exact Hf|apply err_ev_idle]).
      rewrite n_requests_app, backoff_sleeps_app, length_app.
      rewrite (idle_requests tf), (idle_sleeps tf) by done. simpl.
      split; [lia|].
      destruct (decide (4 - attempt = 0)%nat) as [Hz|Hz]; [|lia].
      rewrite (Hs0 Hz). simpl. lia.
Qed.

(** C6 (back-off schedule), as amended.  For every [k >= 1], attempt number
    [k] of a fetch issues at most one request, and if it is followed by a
    back-off sleep then [k < 5], the attempt failed with a request error [e]
    and the sleep lasts [5 * 2^(k-1)] seconds plus the jitter, plus the
    extra delay exactly when the text of [e] mentions 502, 503 or 504; with
    a jitter in [0,1) and an extra delay in [5,15) the sleep is within the
    corresponding bounds; a whole fetch issues at most 5 requests and sleeps
    at most 4 back-offs, none after the last attempt. *)
Theorem retry_backoff_schedule :
  (forall cfg url out cb k s last w, (1 <= k)%nat ->
     let r := (attempt_once cfg url out cb (k - 1) s last w).1 in
     let t := since w (attempt_once cfg url out cb (k - 1) s last w).2 in
     (n_requests t <= 1)%nat /\
     (backoff_sleeps t = [] \/
      exists e,
        (k < retries)%nat /\ is_RequestException e = true /\
        r = Val (CContinue, Some e) /\
        backoff_sleeps t = [backoff_delay k s e])) /\
  (forall k s e,
     (0 <= as_jitter s)%Q /\ (as_jitter s < 1)%Q ->
     (5 <= as_extra s)%Q /\ (as_extra s < 15)%Q ->
     let base := (retry_delay * inject_Z (2 ^ Z.of_nat (k - 1)))%Q in
     if is_server_error_text (str_exn e)
     then (base + 5 <= backoff_delay k s e)%Q /\ (backoff_delay k s e < base + 16)%Q
     else (base <= backoff_delay k s e)%Q /\ (backoff_delay k s e < base + 1)%Q) /\
  (forall cfg url out cb overwrite sc w,
     let t := since w (descargar_archivo cfg url out cb overwrite sc w).2 in
     (n_requests t <= retries)%nat /\ (length (backoff_sleeps t) <= retries - 1)%nat).
Proof.
  split; [|split].
  - intros cfg url out cb k s last w Hk.
    pose proof (attempt_once_count cfg url out cb (k - 1) s last w) as H.
    replace (S (k - 1)) with k in H by lia. exact H.
  - intros k s e [Hj0 Hj1] [He0 He1] base. subst base. unfold backoff_delay.
    destruct (is_server_error_text (str_exn e)); split; lra.
  - intros cfg url out cb overwrite sc w. simpl.
    unfold descargar_archivo. rewrite bind_run. unfold os_path_exists. cbv iota beta.
    destruct (_ && _).
    + rewrite bind_unit_run by val_tt. simpl snd.
      unfold log_callback, when, emit. destruct (cb_log cb); simpl.
      * rewrite (since_app w _ [EvLog (LogSkipExisting out)]) by done.
        cbv. lia.
      * rewrite (since_app w _ []) by (by rewrite app_nil_r). cbv. lia.
    + destruct (attempts_loop_count cfg url out cb sc retries 0 None w) as [Hn Hs].
      split; [done|]. exact Hs.
Qed.

Lemma retry_backoff_schedule_witness :
  let s := reply_status 503 "Service Unavailable" in
  let t := since empty_world
             (attempt_once default_config example_url example_path all_callbacks
                (1 - 1) s None empty_world).2 in
  ((1 <= 1)%nat /\ (n_requests t <= 1)%nat /\ backoff_sleeps t = [25 # 2]%Q) /\
  (((0 <= as_jitter s)%Q /\ (as_jitter s < 1)%Q) /\
   ((5 <= as_extra s)%Q /\ (as_extra s < 15)%Q) /\
   (5 * 1 + 5 <= 25 # 2)%Q /\ (25 # 2 < 5 * 1 + 16)%Q).
Proof.
  split.
  - split; [lia|].
    pose proof (proj1 retry_backoff_schedule default_config example_url example_path
                  all_callbacks 1%nat (reply_status 503 "Service Unavailable") None
                  empty_world (le_n 1)) as [Hn _].
    split; [exact Hn|]. vm_compute. reflexivity.
  - assert ((0 <= 1 # 2)%Q /\ (1 # 2 < 1)%Q) as Hj by (split; [discriminate|reflexivity]).
    assert ((5 <= 7)%Q /\ (7 < 15)%Q) as He by (split; [discriminate|reflexivity]).
    split; [exact Hj|]. split; [exact He|].
    exact (proj1 (proj2 retry_backoff_schedule) 1%nat
             (reply_status 503 "Service Unavailable")
             (RequestException "503 Server Error: Service Unavailable for url: x")
             Hj He).
Defined.

(** C6 as stated fails: after a 500 answer (a 5xx server error) the sleep
    before the first retry is 5.5 s, below 5 * 2^0 plus an extra delay of at
    least 5 s. *)
Lemma backoff_500_counterexample :
  let run := descargar_archivo default_config example_url example_path all_callbacks
               true (fun _ => reply_status 500 "Internal Server Error") empty_world in
  EvResponse 500 ∈ since empty_world run.2 /\
  backoff_sleeps (since empty_world run.2) = [11 # 2; 21 # 2; 41 # 2; 81 # 2]%Q /\
  ~ (retry_delay * 1 + 0 + 5 <= 11 # 2)%Q.
Proof.
  split; [|split].
  - vm_compute. do 3 apply list_elem_of_further. apply list_elem_of_here.
  - vm_compute. reflexivity.
  - vm_compute. intros H. by apply H.
Qed.

(** ** The lock and the writes of an attempt *)

(** C2 (lock held for the whole write) does not hold of the code: the
    [with file_lock(...)] block ends after the status checks, so in a plain
    successful download the temporary file is opened, written and renamed
    with the lock already released. *)
Theorem lock_released_before_write :
  let run := descargar_archivo default_config example_url example_path all_callbacks
               true (fun _ => reply_ok "LM1,x") empty_world in
  run.1 = Val true /\
  trace run.2 =
    [EvLog (LogAttempt 1 5 example_url);
     EvLockAcquire (example_path ++ ".lock");
     EvRequest example_url; EvResponse 200;
     EvLockRelease (example_path ++ ".lock");
     EvOpenTrunc (example_path ++ ".tmp");
     EvWrite (example_path ++ ".tmp") "LM1,x";
     EvSleep Throttle (1 # 2);
     EvReplace (example_path ++ ".tmp") example_path;
     EvLog (LogDownloaded example_path);
     EvSessionClose] /\
  writes_outside_lock (example_path ++ ".lock") false (trace run.2) =
    [EvOpenTrunc (example_path ++ ".tmp");
     EvWrite (example_path ++ ".tmp") "LM1,x";
     EvReplace (example_path ++ ".tmp") example_path].
Proof. vm_compute. repeat split. Qed.

(** ** Runs of the consolidator *)

Lemma procesar_archivo_run pd cb base weight total index archivo dataframes w :
  (procesar_archivo pd cb base weight total index archivo dataframes w).1
  = match process_file pd (fs w) archivo with
    | Val df => Val (dataframes ++ [df])%list
    | Exc e => Exc e
    end /\
  rel report_ev eq w
    (procesar_archivo pd cb base weight total index archivo dataframes w).2.
Proof.
  destruct (procesar_archivo pd cb base weight total index archivo dataframes w)
    as [r w'] eqn:H. simpl.
  unfold procesar_archivo, process_file, pd_read_csv in *. rewrite bind_run in H.
  destruct (fs w !! archivo) as [bytes|];
    [|injection H as <- <-; split; [done|reflexivity]].
  destruct (parse_csv pd bytes) as [df|e];
    [|injection H as <- <-; split; [done|reflexivity]].
  rewrite bind_unit_run in H by val_tt.
  set (m0 := log_callback _ _) in H.
  assert (rel report_ev eq w (m0 w).2) as H0.
  { assert (keeps (rel report_ev eq) m0) as K by (subst m0; keeps_auto; side). apply K. }
  set (w0 := (m0 w).2) in *. clearbody w0. clear m0.
  rewrite bind_run in H. unfold lift_res in H.
  destruct (filter_LM df) as [kept|e]; [|injection H as <- <-; split; [done|exact H0]].
  rewrite bind_unit_run in H by val_tt.
  set (m1 := log_callback _ _) in H.
  assert (rel report_ev eq w0 (m1 w0).2) as H1.
  { assert (keeps (rel report_ev eq) m1) as K by (subst m1; keeps_auto; side). apply K. }
  set (w1 := (m1 w0).2) in *. clearbody w1. clear m1.
  rewrite bind_unit_run in H by val_tt.
  set (m2 := progress_callback _ _) in H.
  assert (rel report_ev eq w1 (m2 w1).2) as H2.
  { assert (keeps (rel report_ev eq) m2) as K by (subst m2; keeps_auto; side). apply K. }
  injection H as <- <-.
  split; [done|]. etrans; [exact H0|]. etrans; [exact H1|exact H2].
Qed.

Lemma consolidar_loop_run pd cb base weight total files : forall index dataframes w,
  (consolidar_loop pd cb base weight total index files dataframes w).1
  = Val (dataframes ++ processed pd (fs w) files)%list /\
  rel report_ev eq w (consolidar_loop pd cb base weight total index files dataframes w).2.
Proof.
  induction files as [|archivo rest IH]; intros index dataframes w; simpl.
  - rewrite app_nil_r. split; [done|reflexivity].
  - rewrite bind_run. unfold try_catch.
    destruct (procesar_archivo_run pd cb base weight total index archivo dataframes w)
      as [Hr Hrel].
    destruct (procesar_archivo _ _ _ _ _ _ _ _ w) as [r w1]. simpl in Hr, Hrel.
    unfold processed. simpl.
    destruct (process_file pd (fs w) archivo) as [df|e] eqn:Hp; subst r; simpl.
    + destruct (IH (S index) (dataframes ++ [df])%list w1) as [Hv Hrel2].
      destruct Hrel as [Hfs Htr]. rewrite <- Hfs in Hv.
      rewrite Hv. split; [by rewrite <- app_assoc|].
      etrans; [|exact Hrel2]. by split.
    + rewrite bind_unit_run by val_tt.
      set (m := error_callback _ _ _).
      assert (rel report_ev eq w1 (m w1).2) as H1.
      { assert (keeps (rel report_ev eq) m) as K by (subst m; keeps_auto; side). apply K. }
      set (w2 := (m w1).2) in *. clearbody w2.
      destruct (IH (S index) dataframes w2) as [Hv Hrel2]. simpl.
      assert (fs w2 = fs w) as Hfs.
      { destruct Hrel as [-> _], H1 as [-> _]. done. }
      rewrite Hfs in Hv. rewrite Hv. split; [done|].
      etrans; [exact Hrel|]. etrans; [exact H1|exact Hrel2].
Qed.

Lemma report_dry e : report_ev e -> dry_ev e.
Proof. by destruct e. Qed.

Lemma rel_report_dry w w' : rel report_ev eq w w' -> rel dry_ev eq w w'.
Proof. apply rel_weaken; [apply report_dry|done]. Qed.

Lemma log_callback_run cb m w :
  cb_log cb = true ->
  log_callback cb m w = (Val tt, World (fs w) (trace w ++ [EvLog m])).
Proof. intros H. unfold log_callback, when. by rewrite H. Qed.

Lemma consolidar_run pd ds cb folder output_file files base weight w :
  (consolidar_archivos_descargados pd ds cb folder output_file files base weight w).1
    = Val tt /\
  consolidation pd ds cb folder output_file w (processed pd (fs w) files)
    (consolidar_archivos_descargados pd ds cb folder output_file files base weight w).2.
Proof.
  destruct (consolidar_archivos_descargados pd ds cb folder output_file files base weight w)
    as [r w'] eqn:H. simpl.
  unfold consolidar_archivos_descargados in H.
  assert (forall m w0 r0 w0', log_callback cb m w0 = (r0, w0') ->
            r0 = Val tt /\ rel report_ev eq w0 w0') as Hlog.
  { intros m w0 r0 w0' E.
    assert (keeps (rel report_ev eq) (log_callback cb m)) as K by (keeps_auto; side).
    specialize (K w0). rewrite E in K. split; [|exact K].
    revert E. unfold log_callback, when, emit. destruct (cb_log cb); by intros [= <- _]. }
  destruct files as [|f files].
  { pose proof H as H0. apply Hlog in H as [-> Hrel]. split; [done|].
    apply NothingProcessed; [done..|]. intros Hcb.
    rewrite (log_callback_run _ _ _ Hcb) in H0. injection H0 as <-.
    exists (LogNothingToConsolidate folder), []. split; [by left|]. by apply since_app. }
  set (fl := f :: files) in *. clearbody fl.
  rewrite bind_run in H.
  destruct (consolidar_loop_run pd cb base weight (length fl) fl 0%nat [] w) as [Hv Hrel].
  destruct (consolidar_loop pd cb base weight (length fl) 0 fl [] w) as [rl w1].
  simpl in Hv, Hrel. subst rl.
  set (dfs := processed pd (fs w) fl) in *. clearbody dfs.
  destruct dfs as [|df dfs].
  { pose proof H as H0. apply Hlog in H as [-> Hrel2]. split; [done|].
    apply NothingProcessed; [done|by etrans|]. intros Hcb.
    rewrite (log_callback_run _ _ _ Hcb) in H0. injection H0 as <-.
    apply rel_since in Hrel as (_ & Ht & _).
    exists LogNothingProcessed, (since w w1). split; [by right|].
    apply since_app. simpl. by rewrite Ht, <- app_assoc. }
  set (all := df :: dfs) in *. assert (all <> []) as Hne by done. clearbody all.
  unfold try_catch in H. rewrite bind_run in H.
  unfold os_makedirs in H.
  assert (forall e w0, error_callback cb output_file (ErrSave (str_exn e)) w0 = (r, w') ->
            r = Val tt /\ rel dry_ev eq w0 w') as Herr.
  { intros e w0 E.
    assert (keeps (rel dry_ev eq) (error_callback cb output_file (ErrSave (str_exn e))))
      as K by (keeps_auto; side).
    specialize (K w0). rewrite E in K. split; [|exact K].
    revert E. unfold error_callback, when, emit. destruct (cb_error cb); by intros [= <- _]. }
  destruct (ds_makedirs ds (os_path_dirname output_file)) as [e|] eqn:Hmk.
  { unfold raise in H. apply Herr in H as [-> Hrel2]. split; [done|].
    apply NotSaved; [done|left; by eexists|].
    etrans; [apply rel_report_dry, Hrel|exact Hrel2]. }
  unfold emit at 1 in H. cbv iota beta in H. set (w2 := World _ _) in H.
  rewrite bind_run in H. unfold to_csv in H.
  destruct (ds_write ds output_file) as [e|] eqn:Hwr.
  { apply Herr in H as [-> Hrel2]. split; [done|].
    apply NotSaved; [done|right; by eexists|].
    etrans; [apply rel_report_dry, Hrel|]. etrans; [|exact Hrel2].
    subst w2. by apply rel_step. }
  set (w3 := World _ _) in H.
  rewrite bind_unit_run in H by val_tt.
  destruct (log_callback cb (LogSaved output_file) w3) as [r4 w4] eqn:E4.
  apply Hlog in E4 as [_ H1]. simpl in H.
  destruct (log_callback cb _ w4) as [r5 w5] eqn:E5.
  apply Hlog in E5 as [-> H5]. injection H as <- <-.
  split; [done|].
  apply rel_since in Hrel as (Hf0 & Ht0 & HP0).
  assert (rel report_ev eq w3 w5) as H35 by (by etrans).
  apply rel_since in H35 as (Hf3 & Ht3 & HP3).
  eapply (Saved _ _ _ _ _ _ _ _ (since w w1 ++ [EvMakedirs (os_path_dirname output_file)])
            (since w3 w5)); try done.
  - apply Forall_app_2; [|by repeat constructor].
    eapply Forall_impl; [exact HP0|apply report_dry].
  - apply since_app. rewrite Ht3. subst w3 w2. simpl. rewrite Ht0.
    by rewrite <- !app_assoc.
  - rewrite <- Hf3. subst w3 w2. simpl. by rewrite Hf0.
Qed.

Lemma processed_rows pd files archivos :
  concat (map rows (processed pd files archivos))
  = concat (map (partition_rows pd files) archivos).
Proof.
  induction archivos as [|f l IH]; [done|].
  unfold processed, partition_rows in *. simpl.
  destruct (process_file pd files f); simpl; [|exact IH].
  by f_equal.
Qed.

Lemma processed_nil pd files archivos :
  Forall (fun f => frame_of (process_file pd files f) = None) archivos ->
  processed pd files archivos = [].
Proof.
  induction 1 as [|f l H _ IH]; [done|].
  unfold processed in *. simpl. by rewrite H.
Qed.

Lemma length_concat_sum {A B} (g : A -> list B) (l : list A) :
  length (concat (map g l)) = sum_list_with (fun a => length (g a)) l.
Proof. induction l as [|a l IH]; [done|]. simpl. by rewrite length_app, IH. Qed.

(** What a processed file's rows are. *)
Lemma partition_rows_spec pd files archivo r :
  r ∈ partition_rows pd files archivo ->
  exists bytes parsed r0,
    files !! archivo = Some bytes /\ parse_csv pd bytes = Val parsed /\
    r0 ∈ rows parsed /\ starts_with_LM r0 = true /\
    r = <["ARCHIVO_ORIGEN" := os_path_basename archivo]> r0.
Proof.
  unfold partition_rows, process_file.
  destruct (files !! archivo) as [bytes|]; [|by intros ?%elem_of_nil].
  destruct (parse_csv pd bytes) as [parsed|] eqn:Hparse; [|by intros ?%elem_of_nil].
  unfold filter_LM.
  destruct (bool_decide _); [|by intros ?%elem_of_nil].
  destruct (forallb _ _); [|by intros ?%elem_of_nil].
  simpl. intros (r0 & -> & Hr0)%list_elem_of_fmap.
  apply list_elem_of_In, filter_In in Hr0 as [Hin HLM].
  exists bytes, parsed, r0. by rewrite list_elem_of_In.
Qed.

Lemma elem_of_concat {A} (x : A) (ls : list (list A)) :
  x ∈ concat ls -> exists l, x ∈ l /\ l ∈ ls.
Proof.
  induction ls as [|l ls IH]; simpl; [by intros ?%elem_of_nil|].
  intros [H|H]%elem_of_app.
  - exists l. split; [done|apply list_elem_of_here].
  - destruct (IH H) as (l' & ? & ?). exists l'. split; [done|by apply list_elem_of_further].
Qed.

Lemma written_once (P Q : event -> Prop) t1 t2 p c p' c' :
  Forall P t1 -> Forall Q t2 -> ~ P (EvWrite p' c') -> ~ Q (EvWrite p' c') ->
  EvWrite p' c' ∈ (t1 ++ EvWrite p c :: t2)%list -> p' = p /\ c' = c.
Proof.
  intros H1 H2 HP HQ [Hin|[Heq|Hin]%elem_of_cons]%elem_of_app.
  - by rewrite Forall_forall in H1; apply H1 in Hin.
  - by injection Heq.
  - by rewrite Forall_forall in H2; apply H2 in Hin.
Qed.

(** C8, as stated, fails: a report that is read and none of whose rows has
    the prefix is processed, and the output file is written with the header
    and no row. *)
Lemma empty_output_counterexample :
  let run := consolidar_archivos_descargados plain_csv no_disk_error all_callbacks
               folder_CCM output_CCM [path_2024_A] 80 20 world_no_LM in
  concat (map (partition_rows plain_csv (fs world_no_LM)) [path_2024_A]) = [] /\
  fs world_no_LM !! output_CCM = None /\
  fs run.2 !! output_CCM
    = Some (lines ["NumeroTramite,Estado,ARCHIVO_ORIGEN"]) /\
  EvWrite output_CCM (lines ["NumeroTramite,Estado,ARCHIVO_ORIGEN"]) ∈ trace run.2.
Proof.
  vm_compute. split; [done|]. split; [done|]. split; [done|].
  repeat first [apply list_elem_of_here | apply list_elem_of_further].
Qed.

(** C8 (no output without input), amended.  If the list of files is empty
    or every file of the list fails to be processed (it does not exist, the
    reader raises, or the prefix filter raises), the consolidation returns
    normally, leaves every file as it was, creates no directory and writes
    nothing: it only reports, and when a log callback is given the last
    report is the message that there was nothing to consolidate. *)
Theorem nothing_to_consolidate pd ds cb folder output_file files base weight w :
  Forall (fun f => frame_of (process_file pd (fs w) f) = None) files ->
  let run := consolidar_archivos_descargados pd ds cb folder output_file files
               base weight w in
  run.1 = Val tt /\
  fs run.2 = fs w /\
  Forall report_ev (since w run.2) /\
  (cb_log cb = true ->
   exists m t, nothing_msg folder m /\ since w run.2 = (t ++ [EvLog m])%list).
Proof.
  intros Hall run.
  destruct (consolidar_run pd ds cb folder output_file files base weight w) as [Hv Hc].
  fold run in Hv, Hc. rewrite (processed_nil _ _ _ Hall) in Hc.
  split; [exact Hv|].
  destruct Hc as [_ Hrel Hlog|Hne _ _|t1 t2 Hne _ _ _ _ _ _]; [|done..].
  apply rel_since in Hrel as (Hfs & _ & Hev). by rewrite Hfs.
Qed.

Lemma nothing_to_consolidate_witness :
  let run := consolidar_archivos_descargados plain_csv no_disk_error all_callbacks
               folder_CCM output_CCM [path_2024_A] 80 20 empty_world in
  run.1 = Val tt /\ fs run.2 = fs empty_world /\
  Forall report_ev (since empty_world run.2) /\
  (cb_log all_callbacks = true ->
   exists m t, nothing_msg folder_CCM m
               /\ since empty_world run.2 = (t ++ [EvLog m])%list).
Proof.
  apply (nothing_to_consolidate plain_csv no_disk_error all_callbacks folder_CCM
           output_CCM [path_2024_A] 80 20 empty_world).
  repeat constructor.
Defined.

(** C9 (completeness and provenance of the consolidation).  Whatever a
    consolidation writes, it writes to the output path, and the path then
    holds what was written: the rendering of a frame whose rows are, in the
    order of the list of files, the rows of each processed file; a file that
    could not be processed contributes none.  The number of rows is the sum
    over the files, and every row comes from a row of a parsed file of the
    list whose identifier starts with LM, and carries that file's base name,
    which is not empty, as its provenance. *)
Theorem consolidation_complete pd ds cb folder output_file files base weight w p content :
  proper_names (fs w) ->
  let run := consolidar_archivos_descargados pd ds cb folder output_file files
               base weight w in
  EvWrite p content ∈ since w run.2 ->
  p = output_file /\
  fs run.2 !! output_file = Some content /\
  exists df,
    content = render_csv pd df /\
    rows df = concat (map (partition_rows pd (fs w)) files) /\
    length (rows df)
      = sum_list_with (fun f => length (partition_rows pd (fs w) f)) files /\
    Forall (fun r =>
              exists f bytes parsed r0,
                f ∈ files /\ fs w !! f = Some bytes /\
                parse_csv pd bytes = Val parsed /\ r0 ∈ rows parsed /\
                starts_with_LM r0 = true /\
                r = <["ARCHIVO_ORIGEN" := os_path_basename f]> r0 /\
                r !! "ARCHIVO_ORIGEN" = Some (os_path_basename f) /\
                os_path_basename f <> "")
           (rows df).
Proof.
  intros Hnames run Hin.
  destruct (consolidar_run pd ds cb folder output_file files base weight w) as [_ Hc].
  fold run in Hc.
  destruct Hc as [_ Hrel _|_ _ Hrel|t1 t2 _ _ _ H1 H2 Hs Hfs].
  - apply rel_since in Hrel as (_ & _ & Hev).
    rewrite Forall_forall in Hev. by apply Hev in Hin.
  - apply rel_since in Hrel as (_ & _ & Hev).
    rewrite Forall_forall in Hev. by apply Hev in Hin.
  - rewrite Hs in Hin.
    apply (written_once _ _ _ _ _ _ _ _ H1 H2) in Hin as [-> ->]; [|by intros []..].
    split; [done|]. split; [by rewrite Hfs, lookup_insert_eq|].
    exists (pd_concat (processed pd (fs w) files)).
    assert (rows (pd_concat (processed pd (fs w) files))
            = concat (map (partition_rows pd (fs w)) files)) as Hrows
      by apply processed_rows.
    split; [done|]. split; [exact Hrows|].
    split; [rewrite Hrows; apply length_concat_sum|].
    rewrite Hrows. apply Forall_forall. intros r Hr.
    apply elem_of_concat in Hr as (rs & Hr & Hrs).
    apply list_elem_of_fmap in Hrs as (f & -> & Hf).
    apply partition_rows_spec in Hr as (bytes & parsed & r0 & Hb & Hp & Hr0 & HLM & ->).
    exists f, bytes, parsed, r0. repeat (split; [done|]).
    split; [by rewrite lookup_insert_eq|]. by apply (Hnames f bytes).
Qed.

Lemma consolidation_complete_witness :
  let content :=
    lines ["NumeroTramite,Estado,ARCHIVO_ORIGEN"; "LM250001,A,2025_A.csv";
           "LM250003,A,2025_A.csv"; "LM230001,A,2023_A.csv"] in
  output_CCM = output_CCM /\
  fs (consolidar_archivos_descargados plain_csv no_disk_error all_callbacks folder_CCM
        output_CCM [path_2025_A; path_2024_A; path_2023_A] 80 20 world_reports).2
    !! output_CCM = Some content /\
  exists df,
    content = render_csv plain_csv df /\
    rows df = concat (map (partition_rows plain_csv (fs world_reports))
                          [path_2025_A; path_2024_A; path_2023_A]) /\
    length (rows df)
      = sum_list_with (fun f => length (partition_rows plain_csv (fs world_reports) f))
                      [path_2025_A; path_2024_A; path_2023_A] /\
    Forall (fun r =>
              exists f bytes parsed r0,
                f ∈ [path_2025_A; path_2024_A; path_2023_A] /\
                fs world_reports !! f = Some bytes /\
                parse_csv plain_csv bytes = Val parsed /\ r0 ∈ rows parsed /\
                starts_with_LM r0 = true /\
                r = <["ARCHIVO_ORIGEN" := os_path_basename f]> r0 /\
                r !! "ARCHIVO_ORIGEN" = Some (os_path_basename f) /\
                os_path_basename f <> "")
           (rows df).
Proof.
  apply (consolidation_complete plain_csv no_disk_error all_callbacks folder_CCM
           output_CCM [path_2025_A; path_2024_A; path_2023_A] 80 20 world_reports).
  - apply (bool_decide_unpack _). vm_compute. exact I.
  - vm_compute. repeat first [apply list_elem_of_here | apply list_elem_of_further].
Defined.

(** ** Runs of the batch *)

Lemma crear_carpetas_run cfg mk w :
  crear_carpetas cfg mk w =
  match mk (folder_of cfg "CCM"), mk (folder_of cfg "PRR") with
  | Some e, _ => (Exc e, w)
  | None, Some e =>
      (Exc e, World (fs w) (trace w ++ [EvMakedirs (folder_of cfg "CCM")]))
  | None, None =>
      (Val (folders_of cfg),
       World (fs w) (trace w ++ [EvMakedirs (folder_of cfg "CCM");
                                 EvMakedirs (folder_of cfg "PRR")]))
  end.
Proof.
  unfold crear_carpetas, tipos_tramite, crear_carpetas_loop, os_makedirs.
  fold (folder_of cfg "CCM"). fold (folder_of cfg "PRR").
  rewrite bind_run.
  destruct (mk (folder_of cfg "CCM")); [done|].
  unfold emit at 1. cbv iota beta. rewrite bind_run.
  destruct (mk (folder_of cfg "PRR")); [done|].
  unfold emit, folders_of. simpl. by rewrite <- app_assoc.
Qed.

Lemma sweep_locks_val cfg cb found : forall removed w,
  exists l, (sweep_locks cfg cb found removed w).1 = Val l.
Proof.
  induction found as [|[[p [age|]] ok] rest IH]; intros removed w; simpl.
  - by eexists.
  - destruct (_ || _); [|apply IH].
    destruct ok.
    + rewrite bind_unit_run by val_tt.
      rewrite bind_unit_run by (destruct (cb_log cb); val_tt). apply IH.
    + rewrite bind_unit_run by val_tt. apply IH.
  - apply IH.
Qed.

Lemma remove_stale_lock_files_val cfg cb base_exists found w :
  exists l, (remove_stale_lock_files cfg cb base_exists found w).1 = Val l.
Proof.
  unfold remove_stale_lock_files. destruct (negb base_exists); [by eexists|].
  apply sweep_locks_val.
Qed.

Lemma descargar_en_paralelo_val cfg cb net tipo urls folder w :
  exists l, (descargar_en_paralelo cfg cb net tipo urls folder w).1 = Val l.
Proof.
  destruct (descargar_en_paralelo_result cfg cb net tipo urls folder w)
    as (tasks & _ & _ & H). by eexists.
Qed.

Lemma bind_val_run {A B} (m : M A) (f : A -> M B) w a :
  (m w).1 = Val a -> (m ≫= f) w = f a (m w).2.
Proof. intros H. rewrite bind_run. destruct (m w) as [r w1]. simpl in H. by subst r. Qed.

Lemma first_missing_cons folders tipo urls rest :
  first_missing folders ((tipo, urls) :: rest)
  = match dict_get tipo folders with
    | Some _ => first_missing folders rest
    | None => Some tipo
    end.
Proof. unfold first_missing. simpl. by destruct (dict_get tipo folders). Qed.

Lemma descargar_tipos_result cfg cb net download_option folders urls_por_partes :
  forall downloaded_by_type w,
  download_result (first_missing folders urls_por_partes)
    (descargar_tipos cfg cb net download_option folders urls_por_partes
       downloaded_by_type w).1.
Proof.
  induction urls_por_partes as [|[tipo urls] rest IH]; intros dbt w.
  - simpl. by eexists.
  - rewrite first_missing_cons. simpl.
    rewrite bind_unit_run by val_tt.
    destruct (dict_get tipo folders) as [folder|] eqn:Hget; simpl.
    + rewrite (bind_val_run (mret folder) _ _ folder) by done.
      change ((mret folder : M string) _).2 with (log_callback cb (LogProcessingType tipo) w).2.
      match goal with |- context [(?m ≫= ?k) ?w0] =>
        assert (exists l, (m w0).1 = Val l) as [l Hl];
          [|rewrite (bind_val_run m k w0 l Hl); apply IH]
      end.
      destruct (String.eqb download_option "missing").
      * unfold get_world. rewrite bind_run. cbv iota beta.
        match goal with |- context [match ?x with [] => _ | _ :: _ => _ end] =>
          destruct x end.
        -- rewrite bind_unit_run by val_tt. by eexists.
        -- rewrite bind_unit_run by val_tt. apply descargar_en_paralelo_val.
      * rewrite bind_unit_run by val_tt. apply descargar_en_paralelo_val.
    + reflexivity.
Qed.

Lemma consolidar_carpetas_step pd ds cb inputs base weight tipo folder rest ok w :
  exists w1,
    consolidar_carpetas pd ds cb inputs base weight ((tipo, folder) :: rest) ok w
    = consolidar_carpetas pd ds cb inputs base weight rest ok w1 /\
    w1 = (consolidar_archivos_descargados pd ds cb folder
            (os_path_join folder
               ("consolidado_total_" ++ os_path_basename folder ++ ".csv"))
            (inputs tipo folder
               (log_callback cb (LogConsolidating (os_path_basename folder)) w).2)
            base weight
            (log_callback cb (LogConsolidating (os_path_basename folder)) w).2).2.
Proof.
  eexists. split; [|reflexivity].
  simpl. rewrite bind_unit_run by val_tt.
  set (w0 := (log_callback cb _ w).2).
  unfold get_world. rewrite bind_run. cbv iota beta.
  rewrite bind_run. unfold try_catch.
  rewrite bind_unit_run by apply consolidar_run.
  reflexivity.
Qed.

(** The consolidation never raises, so the flag stays as it was. *)
Lemma consolidar_carpetas_val pd ds cb inputs base weight folders : forall ok w,
  (consolidar_carpetas pd ds cb inputs base weight folders ok w).1 = Val ok.
Proof.
  induction folders as [|[tipo folder] rest IH]; intros ok w; [done|].
  destruct (consolidar_carpetas_step pd ds cb inputs base weight tipo folder rest ok w)
    as (w1 & -> & _).
  apply IH.
Qed.

Lemma batch_tail_result cfg pd bs download_option cb folders urls_por_partes w :
  (batch_tail cfg pd bs download_option cb folders urls_por_partes w).1
  = if String.eqb download_option "consolidate" then Val (Some true)
    else download_outcome folders urls_por_partes.
Proof.
  unfold batch_tail.
  destruct (String.eqb download_option "consolidate").
  - rewrite bind_unit_run by val_tt.
    rewrite (bind_val_run _ _ _ true) by apply consolidar_carpetas_val.
    by rewrite bind_unit_run by val_tt.
  - rewrite bind_unit_run by val_tt.
    pose proof (descargar_tipos_result cfg cb (bs_net bs) download_option folders
                  urls_por_partes [] (log_callback cb LogStartDownload w).2) as H.
    unfold download_outcome, download_result in *.
    rewrite bind_run.
    destruct (descargar_tipos _ _ _ _ _ _ _ _) as [r w1]. simpl in H.
    destruct (first_missing folders urls_por_partes); [by subst r|].
    destruct H as [d ->].
    rewrite bind_unit_run by val_tt. rewrite bind_unit_run by val_tt.
    rewrite (bind_val_run _ _ _ true) by apply consolidar_carpetas_val.
    by rewrite bind_unit_run by val_tt.
Qed.

Lemma descargar_y_consolidar_result cfg pd bs download_option cb overwrite
    selected_modules w :
  (descargar_y_consolidar cfg pd bs download_option cb overwrite selected_modules w).1
  = batch_outcome cfg (ds_makedirs (bs_disk bs)) download_option selected_modules.
Proof.
  unfold descargar_y_consolidar, batch_outcome, makedirs_error.
  rewrite bind_run, crear_carpetas_run.
  destruct (ds_makedirs (bs_disk bs) (folder_of cfg "CCM")); [done|].
  destruct (ds_makedirs (bs_disk bs) (folder_of cfg "PRR")); [done|].
  set (w1 := World _ _). clearbody w1.
  destruct (remove_stale_lock_files_val cfg cb true (bs_locks_found bs) w1) as [l Hl].
  rewrite (bind_val_run _ _ _ _ Hl).
  set (w2 := (remove_stale_lock_files _ _ _ _ w1).2). clearbody w2. clear Hl.
  destruct (truthy selected_modules) eqn:Ht.
  - rewrite bind_run. unfold lift_res.
    destruct (selected_ids_of (default [] selected_modules)) as [selected|e]; [|done].
    fold (select selected (folders_of cfg)).
    fold (select selected generar_urls_por_partes).
    destruct (select selected (folders_of cfg)) as [|kv folders] eqn:Hsel.
    + by rewrite bind_unit_run by val_tt.
    + unfold when. rewrite bind_unit_run by val_tt. apply batch_tail_result.
  - change (mret [] ≫= ?k) with (k []) at 1.
    destruct (folders_of cfg) eqn:Hf; [done|]. rewrite <- Hf.
    unfold when. rewrite (bind_unit_run (mret tt)) by done. apply batch_tail_result.
Qed.

Lemma first_missing_no_filter cfg :
  first_missing (folders_of cfg) generar_urls_por_partes = Some 317.
Proof. reflexivity. Qed.

Lemma name_to_id_Some name id :
  name_to_id name = Some id -> name = "CCM" \/ name = "PRR".
Proof.
  unfold name_to_id, module_name_to_id. cbn [List.find fst].
  destruct (String.eqb "CCM" name) eqn:H1; [apply String.eqb_eq in H1; auto|].
  destruct (String.eqb "PRR" name) eqn:H2; [apply String.eqb_eq in H2; auto|].
  done.
Qed.

Lemma selected_ids_of_names sel : forall ids name,
  selected_ids_of sel = Val ids -> (name, true) ∈ sel -> name = "CCM" \/ name = "PRR".
Proof.
  induction sel as [|[n b] rest IH]; intros ids name Hv Hin.
  - by apply elem_of_nil in Hin.
  - simpl in Hv. apply elem_of_cons in Hin as [[= <- <-]|Hin].
    + destruct (name_to_id name) as [id|] eqn:Hid; [|done].
      by apply name_to_id_Some in Hid.
    + destruct b; [|by eapply IH].
      destruct (name_to_id n); [|done].
      destruct (selected_ids_of rest) eqn:Hr; [|done]. by eapply IH.
Qed.

(** C10 (no module filter).  The planner emits groups for the categories
    58, 57, 317 and 55 and folders are created for 58 and 57 only.  So a
    batch that downloads (any option but consolidate), whose folders can be
    created and that is given no module filter (None or an empty
    dictionary) raises KeyError 317; and whenever such a batch returns
    at all, a non-empty filter was given and every name it selects is CCM or
    PRR. *)
Theorem no_filter_raises_KeyError cfg pd bs download_option cb overwrite
    selected_modules w :
  download_option <> "consolidate" ->
  (forall p, ds_makedirs (bs_disk bs) p = None) ->
  let run := descargar_y_consolidar cfg pd bs download_option cb overwrite
               selected_modules w in
  generar_urls_por_partes.*1 = [58; 57; 317; 55] /\
  (exists folders,
     (crear_carpetas cfg (ds_makedirs (bs_disk bs)) w).1 = Val folders /\
     folders.*1 = [58; 57]) /\
  (truthy selected_modules = false -> run.1 = Exc (KeyError "317")) /\
  (forall r, run.1 = Val r ->
     exists sel, selected_modules = Some sel /\ sel <> [] /\
       forall name, (name, true) ∈ sel -> name = "CCM" \/ name = "PRR").
Proof.
  intros Hopt Hmk run. split; [reflexivity|]. split.
  { exists (folders_of cfg). rewrite crear_carpetas_run, !Hmk. done. }
  assert (run.1 = batch_outcome cfg (ds_makedirs (bs_disk bs)) download_option
                    selected_modules) as Hrun by apply descargar_y_consolidar_result.
  apply String.eqb_neq in Hopt.
  unfold batch_outcome, makedirs_error in Hrun. rewrite !Hmk, Hopt in Hrun.
  split.
  - intros Hsel. rewrite Hsel in Hrun. rewrite Hrun.
    unfold download_outcome. by rewrite first_missing_no_filter.
  - intros r Hr. rewrite Hr in Hrun.
    destruct selected_modules as [[|kv sel]|]; simpl in Hrun;
      [unfold download_outcome in Hrun; by rewrite first_missing_no_filter in Hrun| |
       unfold download_outcome in Hrun; by rewrite first_missing_no_filter in Hrun].
    exists (kv :: sel). split; [done|]. split; [done|]. intros name Hin.
    change (match kv with (name0, selected) => _ end)
      with (selected_ids_of (kv :: sel)) in Hrun.
    destruct (selected_ids_of (kv :: sel)) as [ids|] eqn:Hids; [|done].
    by eapply selected_ids_of_names.
Qed.

Lemma no_filter_raises_KeyError_witness :
  (descargar_y_consolidar default_config plain_csv no_errors "all" all_callbacks true
     None empty_world).1 = Exc (KeyError "317").
Proof.
  apply (no_filter_raises_KeyError default_config plain_csv no_errors "all"
           all_callbacks true None empty_world); [by intros [=]|done|reflexivity].
Defined.

Lemma selected_ids_of_ids sel : forall ids id,
  selected_ids_of sel = Val ids -> id ∈ ids -> id = 58 \/ id = 57.
Proof.
  induction sel as [|[n b] rest IH]; intros ids id Hv Hin; simpl in Hv.
  - injection Hv as <-. by apply elem_of_nil in Hin.
  - destruct b; [|by eapply IH].
    destruct (name_to_id n) as [i|] eqn:Hn; [|done].
    destruct (selected_ids_of rest) as [l|]; [|done]. injection Hv as <-.
    apply elem_of_cons in Hin as [->|Hin]; [|by eapply IH].
    revert Hn. unfold name_to_id, module_name_to_id. cbn [List.find fst].
    destruct (String.eqb "CCM" n); [intros [= <-]; by left|].
    destruct (String.eqb "PRR" n); [intros [= <-]; by right|done].
Qed.

Section selection.
Context (cfg : config) (ids : list Z).
Hypothesis known : forall id, id ∈ ids -> id = 58 \/ id = 57.

Lemma select_folders :
  select ids (folders_of cfg)
  = ((if bool_decide (58 ∈ ids) then [(58, folder_of cfg "CCM")] else [])
     ++ (if bool_decide (57 ∈ ids) then [(57, folder_of cfg "PRR")] else []))%list.
Proof.
  unfold select, folders_of. cbn [List.filter fst].
  by destruct (bool_decide (58 ∈ ids)), (bool_decide (57 ∈ ids)).
Qed.

Lemma select_plan :
  (select ids generar_urls_por_partes).*1
  = ((if bool_decide (58 ∈ ids) then [58] else [])
     ++ (if bool_decide (57 ∈ ids) then [57] else []))%list.
Proof.
  unfold select, generar_urls_por_partes. cbn [map List.filter fst].
  rewrite (bool_decide_eq_false_2 (317 ∈ ids)) by (intros [?|?]%known; lia).
  rewrite (bool_decide_eq_false_2 (55 ∈ ids)) by (intros [?|?]%known; lia).
  by destruct (bool_decide (58 ∈ ids)), (bool_decide (57 ∈ ids)).
Qed.

Lemma select_nonempty : ids <> [] -> select ids (folders_of cfg) <> [].
Proof.
  intros Hne. rewrite select_folders.
  destruct ids as [|id l]; [done|].
  destruct (known id) as [-> | ->]; [by left| |].
  - rewrite bool_decide_eq_true_2 by by left. done.
  - rewrite (bool_decide_eq_true_2 (57 ∈ _)) by by left.
    by destruct (bool_decide _).
Qed.
End selection.

Lemma first_missing_fst folders upp upp' :
  upp.*1 = upp'.*1 -> first_missing folders upp = first_missing folders upp'.
Proof.
  revert upp'. induction upp as [|[t u] rest IH]; intros [|[t' u'] rest'] H; try done.
  injection H as -> H. rewrite !first_missing_cons. by rewrite (IH _ H).
Qed.

Lemma fmap_pair_fst {A B} (b : B) (l : list A) : ((fun a => (a, b)) <$> l).*1 = l.
Proof. induction l as [|a l IH]; [done|]. rewrite !fmap_cons. by rewrite IH. Qed.

Lemma first_missing_selected cfg ids :
  (forall id, id ∈ ids -> id = 58 \/ id = 57) ->
  first_missing (select ids (folders_of cfg)) (select ids generar_urls_por_partes) = None.
Proof.
  intros known.
  rewrite (first_missing_fst _ _
             ((fun t => (t, [])) <$> (select ids generar_urls_por_partes).*1))
    by (by rewrite fmap_pair_fst).
  rewrite select_plan, select_folders by done.
  by destruct (bool_decide (58 ∈ ids)), (bool_decide (57 ∈ ids)).
Qed.

(** C5, as stated, fails: with CCM selected and each of the 56 requests
    answered 401 no file is downloaded and nothing is consolidated, and the
    batch returns True. *)
Lemma no_file_succeeds_counterexample :
  let run := descargar_y_consolidar default_config plain_csv all_unauthorized "all"
               all_callbacks true (Some [("CCM", true)]) empty_world in
  run.1 = Val (Some true) /\ fs run.2 = ∅ /\
  n_requests (trace run.2) = 56%nat /\
  drop (length (trace run.2) - 2) (trace run.2)
  = [EvLog (LogNothingToConsolidate (folder_of default_config "CCM"));
     EvLog (LogBatchDone true)].
Proof. vm_compute. repeat split; reflexivity. Qed.

(** C5 (overall result), amended.  Take a batch given a non-empty module
    filter whose selected names are modules, and whose final writes do not
    fail.  If one of the two output folders cannot be created the batch
    raises that error and returns nothing.  Otherwise it returns None when
    the filter selects no module, and True when it selects one: whatever
    the answers to the requests, so also when no file at all was downloaded
    and nothing was consolidated. *)
Theorem batch_result_ignores_downloads cfg pd bs download_option cb overwrite
    sel ids w :
  (forall p, ds_write (bs_disk bs) p = None) ->
  sel <> [] ->
  selected_ids_of sel = Val ids ->
  (descargar_y_consolidar cfg pd bs download_option cb overwrite (Some sel) w).1
  = match makedirs_error cfg (ds_makedirs (bs_disk bs)) with
    | Some e => Exc e
    | None => Val (match ids with [] => None | _ :: _ => Some true end)
    end.
Proof.
  intros _ Hsel Hids.
  rewrite descargar_y_consolidar_result. unfold batch_outcome.
  destruct (makedirs_error cfg _); [done|].
  assert (truthy (Some sel) = true) as -> by by destruct sel.
  simpl default. rewrite Hids.
  pose proof (selected_ids_of_ids sel ids) as known.
  assert (forall id, id ∈ ids -> id = 58 \/ id = 57) as Hknown by eauto.
  destruct ids as [|id l]; [done|].
  pose proof (select_nonempty cfg (id :: l) Hknown) as Hne.
  destruct (select (id :: l) (folders_of cfg)) as [|kv folders] eqn:Hf; [by destruct Hne|].
  rewrite <- Hf. destruct (String.eqb download_option "consolidate"); [done|].
  unfold download_outcome. by rewrite first_missing_selected.
Qed.

Lemma batch_result_ignores_downloads_witness :
  (descargar_y_consolidar default_config plain_csv all_unauthorized "all" all_callbacks
     true (Some [("CCM", true); ("PRR", false)]) empty_world).1
  = Val (Some true).
Proof.
  apply (batch_result_ignores_downloads default_config plain_csv all_unauthorized "all"
           all_callbacks true [("CCM", true); ("PRR", false)] [58] empty_world);
    [reflexivity|discriminate|reflexivity].
Defined.

(** ** Footprints of the batch *)

Section batch_keeps.
Context (P : event -> Prop) (F : relation (gmap string string)) `{!PreOrder F}.


Lemma keeps_sweep_locks cfg cb found :
  (forall p, P (EvRemove p)) -> (forall m, P (EvLog m)) -> (forall m, P (EvLogger m)) ->
  forall removed, keeps (rel P F) (sweep_locks cfg cb found removed).
Proof.
  intros H1 H2 H3.
  induction found as [|[[p [age|]] ok] rest IH]; intros removed; simpl.
  - apply keeps_ret; tc.
  - destruct (_ || _); [|apply IH]. destruct ok.
    + apply keeps_bind; tc; [by apply keeps_emit|intros _].
      apply keeps_bind; tc; [|intros _; apply IH].
      destruct (cb_log cb); by apply keeps_emit.
    + apply keeps_bind; tc; [by apply keeps_emit|intros _; apply IH].
  - apply IH.
Qed.
End batch_keeps.

Lemma rel_bind {A B} (R : relation world) `{!PreOrder R} (m : M A) (k : A -> M B) w :
  R w (m w).2 ->
  (forall a, (m w).1 = Val a -> R w (m w).2 -> R (m w).2 (k a (m w).2).2) ->
  R w ((m ≫= k) w).2.
Proof.
  intros Hm Hk. rewrite bind_run.
  destruct (m w) as [[a|e] w1]; simpl in *; [|done].
  etrans; [exact Hm|by apply Hk].
Qed.

Lemma housekeeping_requests t : Forall housekeeping t -> n_requests t = 0%nat.
Proof.
  induction 1 as [|e t He _ IH]; [done|].
  unfold n_requests in *. simpl. by destruct e.
Qed.

(** A batch with a filter that selects a module: after the housekeeping it
    runs the download and consolidation over the selected entries. *)
Lemma batch_run_selected cfg pd bs download_option cb overwrite sel ids w :
  makedirs_error cfg (ds_makedirs (bs_disk bs)) = None ->
  sel <> [] -> selected_ids_of sel = Val ids -> ids <> [] ->
  exists w1,
    rel housekeeping eq w w1 /\
    descargar_y_consolidar cfg pd bs download_option cb overwrite (Some sel) w
    = batch_tail cfg pd bs download_option cb (select ids (folders_of cfg))
        (select ids generar_urls_por_partes) w1.
Proof.
  intros Hmk Hsel Hids Hne.
  unfold descargar_y_consolidar. rewrite bind_run, crear_carpetas_run.
  unfold makedirs_error in Hmk.
  destruct (ds_makedirs (bs_disk bs) (folder_of cfg "CCM")); [done|]. rewrite Hmk.
  set (w1 := World _ _).
  assert (rel housekeeping eq w w1) as H1.
  { eapply since_rel; [done..|]. by repeat constructor. }
  clearbody w1.
  destruct (remove_stale_lock_files_val cfg cb true (bs_locks_found bs) w1) as [l Hl].
  rewrite (bind_val_run _ _ _ _ Hl).
  assert (rel housekeeping eq w1 (remove_stale_lock_files cfg cb true (bs_locks_found bs) w1).2)
    as H2 by (by apply keeps_sweep_locks; tc).
  set (w2 := (remove_stale_lock_files _ _ _ _ w1).2) in *. clearbody w2. clear Hl.
  assert (truthy (Some sel) = true) as -> by by destruct sel.
  rewrite bind_run. unfold lift_res. simpl default. rewrite Hids.
  fold (select ids (folders_of cfg)). fold (select ids generar_urls_por_partes).
  pose proof (select_nonempty cfg ids (fun id => selected_ids_of_ids sel ids id Hids) Hne) as Hf.
  destruct (select ids (folders_of cfg)) as [|kv folders] eqn:Hfold; [done|].
  rewrite <- Hfold. unfold when. rewrite bind_unit_run by val_tt.
  eexists. split; [|reflexivity].
  etrans; [exact H1|]. etrans; [exact H2|].
  by apply keeps_log_callback; tc.
Qed.

Lemma filter_none {A} (f : A -> bool) (l : list A) :
  Forall (fun a => f a = false) l -> List.filter f l = [].
Proof. induction 1 as [|a l Ha _ IH]; [done|]. simpl. by rewrite Ha. Qed.

Lemma dict_set_empty {V} (P : V -> Prop) k v (d : list (Z * V)) :
  P v -> Forall (fun kv => P kv.2) d -> Forall (fun kv => P kv.2) (dict_set k v d).
Proof.
  intros Hv. induction 1 as [|[k' v'] d Hkv Hd IH]; simpl.
  - constructor; [exact Hv|constructor].
  - destruct (k' =? k); constructor; done.
Qed.

Lemma dict_get_empty {V} (P : V -> Prop) k (d : list (Z * V)) v :
  Forall (fun kv => P kv.2) d -> dict_get k d = Some v -> P v.
Proof.
  unfold dict_get. induction 1 as [|[k' v'] d Hkv _ IH]; simpl; [done|].
  destruct (k' =? k); [by intros [= <-]|done].
Qed.

(** In 'missing' mode nothing is fetched for a plan whose destinations all
    exist. *)
Lemma descargar_tipos_missing cfg cb net folders urls_por_partes :
  forall downloaded_by_type w,
  all_present folders urls_por_partes (fs w) ->
  Forall (fun kv => kv.2 = []) downloaded_by_type ->
  exists d,
    (descargar_tipos cfg cb net "missing" folders urls_por_partes
       downloaded_by_type w).1 = Val d /\
    Forall (fun kv => kv.2 = []) d /\
    rel log_ev eq w
      (descargar_tipos cfg cb net "missing" folders urls_por_partes
         downloaded_by_type w).2.
Proof.
  induction urls_por_partes as [|[tipo urls] rest IH]; intros dbt w Hall Hd.
  - exists dbt. simpl. done.
  - apply Forall_cons in Hall as [[[folder Hf] Hhere] Hrest].
    unfold destinations in Hhere. simpl in Hf, Hhere. rewrite Hf in Hhere.
    simpl descargar_tipos. rewrite Hf.
    assert (rel log_ev eq w (log_callback cb (LogProcessingType tipo) w).2) as H1
      by (by apply keeps_log_callback; tc).
    rewrite bind_unit_run by val_tt.
    set (w1 := (log_callback cb _ w).2) in *.
    rewrite (bind_val_run (mret folder) _ _ folder) by done.
    change ((mret folder : M string) w1).2 with w1.
    change (String.eqb "missing" "missing") with true. cbv iota.
    rewrite bind_assoc_run, (bind_val_run get_world _ _ w1) by done.
    change (get_world w1).2 with w1. cbv beta.
    rewrite filter_none; last first.
    { apply Forall_forall. intros [[url anio] estado] Hu.
      apply negb_false_iff, bool_decide_eq_true.
      destruct H1 as [<- _].
      rewrite Forall_forall in Hhere. apply (Hhere (task_path folder (url, anio, estado))).
      apply list_elem_of_fmap. by eexists. }
    assert (rel log_ev eq w1 (log_callback cb LogNoMissing w1).2) as H2
      by (by apply keeps_log_callback; tc).
    rewrite bind_run. rewrite bind_unit_run by val_tt.
    set (w2 := (log_callback cb LogNoMissing w1).2) in *.
    change ((mret [] : M (list string)) w2) with (Val ([] : list string), w2).
    cbv iota beta.
    destruct (IH (dict_set tipo [] dbt) w2) as (d & Hv & Hd' & Hrel).
    { destruct H1 as [E1 _], H2 as [E2 _]. by rewrite <- E2, <- E1. }
    { by apply (dict_set_empty (fun v => v = [])). }
    exists d. split; [done|]. split; [done|].
    etrans; [exact H1|]. etrans; [exact H2|exact Hrel].
Qed.

(** With nothing to consolidate the consolidation loop only logs. *)
Lemma consolidar_carpetas_nothing pd ds cb inputs base weight folders :
  (forall tipo folder w, inputs tipo folder w = []) ->
  forall ok, keeps (rel log_ev eq) (consolidar_carpetas pd ds cb inputs base weight folders ok).
Proof.
  intros Hin. induction folders as [|[tipo folder] rest IH]; intros ok w; [reflexivity|].
  destruct (consolidar_carpetas_step pd ds cb inputs base weight tipo folder rest ok w)
    as (w1 & -> & Hw1).
  rewrite Hin in Hw1. simpl in Hw1.
  etrans; [|apply IH]. subst w1.
  etrans; by apply keeps_log_callback; tc.
Qed.

Lemma log_housekeeping w w' : rel log_ev eq w w' -> rel housekeeping eq w w'.
Proof. apply rel_weaken; [by intros []|done]. Qed.

Lemma batch_tail_missing cfg pd bs cb folders urls_por_partes w :
  all_present folders urls_por_partes (fs w) ->
  (batch_tail cfg pd bs "missing" cb folders urls_por_partes w).1 = Val (Some true) /\
  rel log_ev eq w (batch_tail cfg pd bs "missing" cb folders urls_por_partes w).2.
Proof.
  intros Hall. unfold batch_tail.
  change (String.eqb "missing" "consolidate") with false. cbv iota.
  assert (rel log_ev eq w (log_callback cb LogStartDownload w).2) as H1
    by (by apply keeps_log_callback; tc).
  rewrite bind_unit_run by val_tt.
  set (w1 := (log_callback cb _ w).2) in *.
  destruct (descargar_tipos_missing cfg cb (bs_net bs) folders urls_por_partes [] w1)
    as (d & Hv & Hd & H2); [by destruct H1 as [<- _]|done|].
  rewrite (bind_val_run _ _ _ _ Hv).
  set (w2 := (descargar_tipos _ _ _ _ _ _ _ w1).2) in *. clearbody w2.
  assert (rel log_ev eq w2 (log_callback cb LogDownloadDone w2).2) as H3
    by (by apply keeps_log_callback; tc).
  rewrite bind_unit_run by val_tt.
  set (w3 := (log_callback cb _ w2).2) in *. clearbody w3.
  assert (rel log_ev eq w3 (log_callback cb LogStartConsolidation w3).2) as H4
    by (by apply keeps_log_callback; tc).
  rewrite bind_unit_run by val_tt.
  set (w4 := (log_callback cb _ w3).2) in *. clearbody w4.
  match goal with |- context [(consolidar_carpetas ?a ?b ?c ?i ?x ?y ?f ?o ≫= _) w4] =>
    pose proof (consolidar_carpetas_val a b c i x y f o w4) as Hok;
    assert (rel log_ev eq w4 (consolidar_carpetas a b c i x y f o w4).2) as H5
  end.
  { apply consolidar_carpetas_nothing. intros tipo _ _.
    destruct (dict_get tipo d) as [v|] eqn:Hg; [|done]. simpl.
    by apply (dict_get_empty (fun v => v = []) tipo d v). }
  rewrite (bind_val_run _ _ _ _ Hok).
  set (w5 := (consolidar_carpetas _ _ _ _ _ _ _ _ w4).2) in *. clearbody w5.
  assert (rel log_ev eq w5 (log_callback cb (LogBatchDone true) w5).2) as H6
    by (by apply keeps_log_callback; tc).
  rewrite bind_unit_run by val_tt. split; [done|]. simpl.
  repeat (etrans; [eassumption|]). reflexivity.
Qed.

Lemma descargar_archivo_skip cfg url out cb sc w :
  is_Some (fs w !! out) ->
  descargar_archivo cfg url out cb false sc w
  = (Val true, (log_callback cb (LogSkipExisting out) w).2).
Proof.
  intros Hex. unfold descargar_archivo. rewrite bind_run. unfold os_path_exists.
  cbv iota beta. rewrite bool_decide_eq_true_2 by done.
  change (true && negb false) with true. cbv iota.
  by rewrite bind_unit_run by val_tt.
Qed.

(** C3, as stated, fails: the batch is re-run in 'all' mode with
    overwrite=false over a directory where each of the 56 destinations
    exists, and it issues 56 requests. *)
Lemma rerun_requests_counterexample :
  let run := descargar_y_consolidar default_config plain_csv no_errors "all"
               all_callbacks false (Some [("CCM", true)]) completed_world in
  forallb (fun u => bool_decide (is_Some (fs completed_world
                                          !! task_path (folder_of default_config "CCM") u)))
          (urls_of 58) = true /\
  length (urls_of 58) = 56%nat /\
  n_requests (trace run.2) = 56%nat.
Proof. vm_compute. repeat split; reflexivity. Qed.

(** C3 (idempotence of a re-run), amended.  A fetch with overwrite=false
    whose destination exists returns True, requests nothing and leaves the
    files as they are.  The batch does not use its overwrite argument.  A
    re-run in 'missing' mode, with a filter that selects a module, over
    files where every destination of the selected modules exists, returns
    True, issues no request and leaves the files as they are. *)
Theorem rerun_skips_existing :
  (forall cfg url out cb sc w,
     is_Some (fs w !! out) ->
     let run := descargar_archivo cfg url out cb false sc w in
     run.1 = Val true /\ fs run.2 = fs w /\ n_requests (since w run.2) = 0%nat) /\
  (forall cfg pd bs download_option cb selected_modules w,
     descargar_y_consolidar cfg pd bs download_option cb false selected_modules w
     = descargar_y_consolidar cfg pd bs download_option cb true selected_modules w) /\
  (forall cfg pd bs cb overwrite sel ids w,
     makedirs_error cfg (ds_makedirs (bs_disk bs)) = None ->
     sel <> [] -> selected_ids_of sel = Val ids -> ids <> [] ->
     all_present (select ids (folders_of cfg)) (select ids generar_urls_por_partes)
       (fs w) ->
     let run := descargar_y_consolidar cfg pd bs "missing" cb overwrite (Some sel) w in
     run.1 = Val (Some true) /\ fs run.2 = fs w /\ n_requests (since w run.2) = 0%nat).
Proof.
  split; [|split].
  - intros cfg url out cb sc w Hex run. subst run.
    rewrite (descargar_archivo_skip _ _ _ _ _ _ Hex). simpl.
    assert (rel housekeeping eq w (log_callback cb (LogSkipExisting out) w).2) as Hrel
      by (by apply keeps_log_callback; tc).
    apply rel_since in Hrel as (Hfs & _ & Hev).
    split; [done|]. split; [done|]. by apply housekeeping_requests.
  - reflexivity.
  - intros cfg pd bs cb overwrite sel ids w Hmk Hsel Hids Hne Hall run. subst run.
    destruct (batch_run_selected cfg pd bs "missing" cb overwrite sel ids w
                Hmk Hsel Hids Hne) as (w1 & H1 & ->).
    destruct (batch_tail_missing cfg pd bs cb (select ids (folders_of cfg))
                (select ids generar_urls_por_partes) w1) as [Hv H2].
    { by destruct H1 as [<- _]. }
    split; [exact Hv|].
    assert (rel housekeeping eq w
              (batch_tail cfg pd bs "missing" cb (select ids (folders_of cfg))
                 (select ids generar_urls_por_partes) w1).2) as Hrel
      by (etrans; [exact H1|by apply log_housekeeping]).
    apply rel_since in Hrel as (Hfs & _ & Hev).
    split; [done|]. by apply housekeeping_requests.
Qed.

Lemma rerun_skips_existing_witness :
  let run := descargar_y_consolidar default_config plain_csv no_errors "missing"
               all_callbacks false (Some [("CCM", true)]) completed_world in
  run.1 = Val (Some true) /\ fs run.2 = fs completed_world /\
  n_requests (since completed_world run.2) = 0%nat.
Proof.
  apply (proj2 (proj2 rerun_skips_existing) default_config plain_csv no_errors
           all_callbacks false [("CCM", true)] [58] completed_world);
    [reflexivity|discriminate|reflexivity|discriminate|].
  apply (bool_decide_unpack _). vm_compute. exact I.
Defined.

(** ** Progress of a batch *)

Lemma climbs_nondecreasing l : forall lo hi, climbs lo hi l -> nondecreasing l.
Proof.
  induction l as [|p rest IH]; intros lo hi H; [done|].
  destruct H as (_ & _ & H). destruct rest as [|q rest']; [done|].
  split; [apply H|]. by eapply IH.
Qed.

Lemma climbs_weaken l : forall lo lo' hi hi',
  (lo' <= lo)%Q -> (hi <= hi')%Q -> climbs lo hi l -> climbs lo' hi' l.
Proof.
  induction l as [|p rest IH]; intros lo lo' hi hi' Hlo Hhi H; [done|].
  destruct H as (H1 & H2 & H3).
  split; [eapply Qle_trans; eassumption|]. split; [eapply Qle_trans; eassumption|].
  eapply IH; [| |exact H3]; [apply Qle_refl|done].
Qed.

Lemma climbs_app l1 l2 : forall lo mid hi,
  (lo <= mid)%Q -> (mid <= hi)%Q ->
  climbs lo mid l1 -> climbs mid hi l2 -> climbs lo hi (l1 ++ l2).
Proof.
  induction l1 as [|p rest IH]; intros lo mid hi Hlo Hhi H1 H2; simpl.
  - eapply climbs_weaken; [| |exact H2]; [done|apply Qle_refl].
  - destruct H1 as (Ha & Hb & Hc). split; [done|].
    split; [eapply Qle_trans; eassumption|].
    eapply (IH p mid hi); [exact Hb|exact Hhi|exact Hc|exact H2].
Qed.

Lemma climbs_bounds l : forall lo hi,
  climbs lo hi l -> Forall (fun p => (lo <= p)%Q /\ (p <= hi)%Q) l.
Proof.
  induction l as [|p rest IH]; intros lo hi H; [constructor|].
  destruct H as (H1 & H2 & H3). constructor; [done|].
  eapply Forall_impl; [by eapply IH|]. intros q [? ?].
  split; [eapply Qle_trans; eassumption|done].
Qed.

Lemma nondecreasing_lookup l : forall i p q,
  nondecreasing l -> l !! i = Some p -> l !! S i = Some q -> (p <= q)%Q.
Proof.
  induction l as [|a rest IH]; intros i p q H Hp Hq; [done|].
  destruct rest as [|b rest']; [done|]. destruct H as [Hab H].
  destruct i as [|i]; simpl in *.
  - injection Hp as <-. by injection Hq as <-.
  - by eapply IH.
Qed.

Lemma progress_values_app t1 t2 :
  progress_values (t1 ++ t2) = (progress_values t1 ++ progress_values t2)%list.
Proof. apply omap_app. Qed.

Lemma no_progress_values t : Forall no_progress t -> progress_values t = [].
Proof.
  induction 1 as [|e t He _ IH]; [done|].
  unfold progress_values in *. simpl. by rewrite He.
Qed.

Lemma keeps_ramps {A} (F : relation (gmap string string)) (m : M A) x :
  keeps (rel no_progress F) m -> ramps x x m.
Proof.
  intros H w. destruct (H w) as [_ (t & Ht & Hev)].
  exists t. split; [done|]. unfold ramp. by rewrite no_progress_values.
Qed.

Lemma ramps_weaken {A} (m : M A) lo lo' hi hi' :
  (lo' <= lo)%Q -> (hi <= hi')%Q -> ramps lo hi m -> ramps lo' hi' m.
Proof.
  intros Hlo Hhi H w. destruct (H w) as (t & Ht & Hr).
  exists t. split; [done|]. by eapply climbs_weaken.
Qed.

Lemma ramps_bind {A B} (m : M A) (k : A -> M B) lo mid hi :
  (lo <= mid)%Q -> (mid <= hi)%Q ->
  ramps lo mid m -> (forall a, ramps mid hi (k a)) -> ramps lo hi (m ≫= k).
Proof.
  intros Hlo Hhi Hm Hk w. rewrite bind_run.
  destruct (Hm w) as (t1 & Ht1 & Hr1).
  destruct (m w) as [[a|e] w1]; simpl in *.
  - destruct (Hk a w1) as (t2 & Ht2 & Hr2).
    exists (t1 ++ t2)%list. split; [by rewrite Ht2, Ht1, <- app_assoc|].
    unfold ramp. rewrite progress_values_app. by eapply climbs_app.
  - exists t1. split; [done|]. eapply climbs_weaken; [| |exact Hr1]; [apply Qle_refl|done].
Qed.

Lemma ramps_try_catch {A} (m : M A) (h : exn -> M A) lo mid hi :
  (lo <= mid)%Q -> (mid <= hi)%Q ->
  ramps lo mid m -> (forall e, ramps mid hi (h e)) -> ramps lo hi (try_catch m h).
Proof.
  intros Hlo Hhi Hm Hh w. unfold try_catch.
  destruct (Hm w) as (t1 & Ht1 & Hr1).
  destruct (m w) as [[a|e] w1]; simpl in *.
  - exists t1. split; [done|]. eapply climbs_weaken; [| |exact Hr1]; [apply Qle_refl|done].
  - destruct (Hh e w1) as (t2 & Ht2 & Hr2).
    exists (t1 ++ t2)%list. split; [by rewrite Ht2, Ht1, <- app_assoc|].
    unfold ramp. rewrite progress_values_app. by eapply climbs_app.
Qed.

Lemma ramps_progress_callback cb lo p :
  (lo <= p)%Q -> ramps lo p (progress_callback cb p).
Proof.
  intros Hlo w. unfold progress_callback, when, emit.
  destruct (cb_progress cb); simpl.
  - exists [EvProgress p]. split; [done|]. repeat split; [done|apply Qle_refl].
  - exists []. split; [by rewrite app_nil_r|done].
Qed.

Lemma frac_nonneg a n : (0 <= frac a n)%Q.
Proof.
  unfold frac, Qdiv. apply Qmult_le_0_compat.
  - change 0%Q with (inject_Z 0). rewrite <- Zle_Qle. lia.
  - apply Qinv_le_0_compat. change 0%Q with (inject_Z 0). rewrite <- Zle_Qle. lia.
Qed.

Lemma frac_mono a b n : (a <= b)%nat -> (frac a n <= frac b n)%Q.
Proof.
  intros H. unfold frac, Qdiv. apply Qmult_le_compat_r.
  - rewrite <- Zle_Qle. lia.
  - apply Qinv_le_0_compat. change 0%Q with (inject_Z 0). rewrite <- Zle_Qle. lia.
Qed.

Lemma frac_le_1 a n : (a <= n)%nat -> (frac a n <= 1)%Q.
Proof.
  intros H. destruct n as [|n].
  - assert (a = 0%nat) as -> by lia. done.
  - unfold frac. apply Qle_shift_div_r.
    + change 0%Q with (inject_Z 0). rewrite <- Zlt_Qlt. lia.
    + rewrite Qmult_1_l. rewrite <- Zle_Qle. lia.
Qed.

Lemma scale_mono x y k : (0 <= k)%Q -> (x <= y)%Q -> (x * k <= y * k)%Q.
Proof. intros. by apply Qmult_le_compat_r. Qed.

Lemma scale_top x k : (0 <= k)%Q -> (x <= 1)%Q -> (x * k <= k)%Q.
Proof.
  intros Hk Hx. eapply Qle_trans; [apply Qmult_le_compat_r; eassumption|].
  rewrite Qmult_1_l. apply Qle_refl.
Qed.

Lemma fetch_commit_no_progress cb url out e :
  cb_progress cb = false -> fetch_commit_ev cb url out e -> no_progress e.
Proof.
  intros Hcb [H| ->]; [|done]. destruct e; try done. simpl in H. congruence.
Qed.

Lemma fetch_no_progress cb url out e :
  cb_progress cb = false -> fetch_ev cb url out e -> no_progress e.
Proof. intros Hcb H. apply (fetch_commit_no_progress cb url out); [done|by left]. Qed.

(** A fetch that is given no progress callback reports no progress. *)
Lemma descargar_archivo_no_progress cfg url out cb overwrite sc :
  cb_progress cb = false ->
  keeps (rel no_progress fs_any) (descargar_archivo cfg url out cb overwrite sc).
Proof.
  intros Hcb w.
  unfold descargar_archivo. rewrite bind_run. unfold os_path_exists. cbv iota beta.
  destruct (bool_decide (is_Some (fs w !! out)) && negb overwrite).
  - rewrite bind_unit_run by val_tt. simpl. by apply keeps_log_callback; tc.
  - pose proof (attempts_loop_footprint cfg url out cb sc retries 0 None w) as H.
    destruct (attempts_loop cfg url out cb sc retries 0 None w) as [[[]|e] w']; simpl in *.
    + destruct H as [Hrel _]. eapply rel_weaken; [| |exact Hrel]; [|done].
      intros e. by apply fetch_commit_no_progress.
    + eapply rel_weaken; [| |exact H]; [|done].
      intros e. by apply fetch_no_progress.
    + done.
Qed.

Lemma submit_tasks_no_progress cfg cb net folder urls :
  keeps (rel no_progress fs_any) (submit_tasks cfg cb net folder urls).
Proof.
  induction urls as [|[[url anio] estado] rest IH]; simpl.
  - apply keeps_ret; tc.
  - apply keeps_bind; tc.
    + apply keeps_capture; tc. by apply descargar_archivo_no_progress.
    + intros future. apply keeps_bind; tc; [exact IH|]. intros tasks. apply keeps_ret; tc.
Qed.

(** The result loop reports [completed / total * 80] after each task. *)
Lemma process_tasks_ramps cb total tasks : forall completed downloaded,
  (completed + length tasks <= total)%nat ->
  ramps (frac completed total * 80) 80 (process_tasks cb total completed tasks downloaded).
Proof.
  induction tasks as [|[[ok|e] path] rest IH]; intros completed downloaded Hle; simpl in *.
  - intros w. exists []. split; [by rewrite app_nil_r|done].
  - eapply (ramps_bind _ _ _ (frac (S completed) total * 80)).
    + apply scale_mono; [done|]. apply frac_mono. lia.
    + apply scale_top; [done|]. apply frac_le_1. lia.
    + apply ramps_progress_callback. apply scale_mono; [done|]. apply frac_mono. lia.
    + intros _. apply IH. lia.
  - eapply (ramps_bind _ _ _ (frac completed total * 80)).
    + apply Qle_refl.
    + apply scale_top; [done|]. apply frac_le_1. lia.
    + apply (keeps_ramps fs_any). destruct (is_RequestException e); keeps_auto; side.
    + intros _. eapply ramps_weaken; [| |apply IH]; [|apply Qle_refl|lia].
      apply scale_mono; [done|]. apply frac_mono. lia.
Qed.

Lemma descargar_en_paralelo_ramps cfg cb net tipo urls folder :
  ramps 0 80 (descargar_en_paralelo cfg cb net tipo urls folder).
Proof.
  intros w. unfold descargar_en_paralelo.
  destruct (submit_tasks_run cfg cb net folder urls w) as (tasks & Ht & Hp).
  pose proof (submit_tasks_no_progress cfg cb net folder urls w) as [_ (t1 & Ht1 & Hn)].
  rewrite (bind_val_run _ _ _ _ Ht).
  set (w1 := (submit_tasks cfg cb net folder urls w).2) in *. clearbody w1.
  assert (length tasks = length urls) as Hlen.
  { rewrite <- (length_fmap snd tasks), Hp. apply length_fmap. }
  destruct (process_tasks_ramps cb (length urls) tasks 0 [] ltac:(lia) w1)
    as (t2 & Ht2 & Hr).
  exists (t1 ++ t2)%list. split; [by rewrite Ht2, Ht1, <- app_assoc|].
  unfold ramp in *. rewrite progress_values_app, (no_progress_values _ Hn). simpl.
  eapply climbs_weaken; [| |exact Hr]; [|apply Qle_refl].
  apply Qmult_le_0_compat; [apply frac_nonneg|done].
Qed.

Lemma ramps_quiet {A} (m : M A) lo hi x :
  (lo <= x)%Q -> (x <= hi)%Q -> keeps (rel no_progress fs_any) m -> ramps lo hi m.
Proof.
  intros Hlo Hhi H. eapply ramps_weaken; [exact Hlo|exact Hhi|].
  by apply (keeps_ramps fs_any).
Qed.

Lemma step_mono base weight a b n :
  (0 <= weight)%Q -> (a <= b)%nat ->
  (base + frac a n * weight <= base + frac b n * weight)%Q.
Proof.
  intros Hw Hab. apply Qplus_le_r. apply scale_mono; [done|]. by apply frac_mono.
Qed.

Lemma step_top base weight a n :
  (0 <= weight)%Q -> (a <= n)%nat -> (base + frac a n * weight <= base + weight)%Q.
Proof.
  intros Hw Han. apply Qplus_le_r. apply scale_top; [done|]. by apply frac_le_1.
Qed.

Lemma step_bottom base weight a n :
  (0 <= weight)%Q -> (base <= base + frac a n * weight)%Q.
Proof.
  intros Hw. rewrite <- (Qplus_0_r base) at 1. apply Qplus_le_r.
  apply Qmult_le_0_compat; [apply frac_nonneg|done].
Qed.

(** One file of the consolidation: at most the report of its own step. *)
Lemma procesar_archivo_ramps pd cb base weight total index archivo dataframes :
  (0 <= weight)%Q ->
  ramps (base + frac index total * weight) (base + frac (index + 1) total * weight)
    (procesar_archivo pd cb base weight total index archivo dataframes).
Proof.
  intros Hw. unfold procesar_archivo.
  set (lo := (base + frac index total * weight)%Q).
  set (hi := (base + frac (index + 1) total * weight)%Q).
  assert (lo <= hi)%Q as Hlh by (apply step_mono; [done|lia]).
  eapply (ramps_bind _ _ lo lo hi); [apply Qle_refl|done| |intros df].
  { apply (keeps_ramps fs_any). apply keeps_pd_read_csv; tc. }
  eapply (ramps_bind _ _ lo lo hi); [apply Qle_refl|done| |intros _].
  { apply (keeps_ramps fs_any). keeps_auto; side. }
  eapply (ramps_bind _ _ lo lo hi); [apply Qle_refl|done| |intros df'].
  { apply (keeps_ramps fs_any). keeps_auto; side. }
  eapply (ramps_bind _ _ lo lo hi); [apply Qle_refl|done| |intros _].
  { apply (keeps_ramps fs_any). keeps_auto; side. }
  eapply (ramps_bind _ _ lo hi hi); [done|apply Qle_refl| |intros _].
  { by apply ramps_progress_callback. }
  apply (keeps_ramps fs_any). keeps_auto; side.
Qed.

Lemma consolidar_loop_ramps pd cb base weight total files : forall index dataframes,
  (0 <= weight)%Q -> (index + length files <= total)%nat ->
  ramps (base + frac index total * weight) (base + weight)
    (consolidar_loop pd cb base weight total index files dataframes).
Proof.
  induction files as [|archivo rest IH]; intros index dataframes Hw Hle; simpl in *.
  - apply (ramps_quiet _ _ _ (base + frac index total * weight));
      [apply Qle_refl|apply step_top; [done|lia]|]. keeps_auto; side.
  - eapply (ramps_bind _ _ _ (base + frac (index + 1) total * weight)).
    + apply step_mono; [done|lia].
    + apply step_top; [done|lia].
    + eapply (ramps_try_catch _ _ _ (base + frac (index + 1) total * weight)).
      * apply step_mono; [done|lia].
      * apply Qle_refl.
      * by apply procesar_archivo_ramps.
      * intros e. apply (keeps_ramps fs_any). keeps_auto; side.
    + intros dfs. replace (index + 1)%nat with (S index) by lia. apply IH; [done|lia].
Qed.

Lemma consolidar_ramps pd ds cb folder output_file files base weight :
  (0 <= weight)%Q ->
  ramps base (base + weight)
    (consolidar_archivos_descargados pd ds cb folder output_file files base weight).
Proof.
  intros Hw. unfold consolidar_archivos_descargados.
  assert (base <= base + weight)%Q as Hbw.
  { rewrite <- (Qplus_0_r base) at 1. by apply Qplus_le_r. }
  destruct files as [|f files].
  { apply (ramps_quiet _ _ _ base); [apply Qle_refl|done|]. keeps_auto; side. }
  set (fl := f :: files). clearbody fl.
  eapply (ramps_bind _ _ _ (base + weight)); [done|apply Qle_refl| |intros dfs].
  - eapply ramps_weaken; [| |apply (consolidar_loop_ramps pd cb base weight (length fl) fl 0)];
      [by apply step_bottom|apply Qle_refl|done|lia].
  - apply (keeps_ramps fs_any). destruct dfs; [keeps_auto; side|].
    apply keeps_try_catch; tc; [|intros e; keeps_auto; side].
    apply keeps_bind; tc; [apply keeps_os_makedirs; tc; done|intros _].
    apply keeps_bind; tc; [apply keeps_to_csv; tc; done|intros _].
    keeps_auto; side.
Qed.

(** The consolidation loop over one folder. *)
Lemma consolidar_carpetas_ramps pd ds cb inputs base weight tipo folder ok :
  (0 <= weight)%Q ->
  ramps base (base + weight)
    (consolidar_carpetas pd ds cb inputs base weight [(tipo, folder)] ok).
Proof.
  intros Hw. simpl.
  assert (base <= base + weight)%Q as Hbw.
  { rewrite <- (Qplus_0_r base) at 1. by apply Qplus_le_r. }
  eapply (ramps_bind _ _ base base); [apply Qle_refl|done| |intros _].
  { apply (keeps_ramps fs_any). keeps_auto; side. }
  eapply (ramps_bind _ _ base base); [apply Qle_refl|done| |intros w0].
  { apply (keeps_ramps fs_any). keeps_auto; side. }
  eapply (ramps_bind _ _ base (base + weight)); [done|apply Qle_refl| |intros ok'].
  - eapply (ramps_try_catch _ _ base (base + weight)); [done|apply Qle_refl| |intros e].
    + eapply (ramps_bind _ _ base (base + weight)); [done|apply Qle_refl| |intros _].
      * by apply consolidar_ramps.
      * apply (keeps_ramps fs_any). keeps_auto; side.
    + apply (keeps_ramps fs_any). keeps_auto; side.
  - apply (keeps_ramps fs_any). keeps_auto; side.
Qed.

Lemma consolidar_carpetas_nil_ramps pd ds cb inputs base weight ok x :
  ramps x x (consolidar_carpetas pd ds cb inputs base weight [] ok).
Proof. apply (keeps_ramps fs_any). simpl. keeps_auto; side. Qed.

(** The download loop over one group. *)
Lemma descargar_tipos_ramps cfg cb net download_option folders tipo urls dbt :
  ramps 0 80 (descargar_tipos cfg cb net download_option folders [(tipo, urls)] dbt).
Proof.
  simpl.
  eapply (ramps_bind _ _ 0 0); [done..| |intros _].
  { apply (keeps_ramps fs_any). keeps_auto; side. }
  eapply (ramps_bind _ _ 0 0); [done..| |intros output_folder].
  { apply (keeps_ramps fs_any). destruct (dict_get tipo folders); keeps_auto; side. }
  eapply (ramps_bind _ _ 0 80); [done..| |intros downloaded].
  - destruct (String.eqb download_option "missing").
    + eapply (ramps_bind _ _ 0 0); [done..| |intros w0].
      { apply (keeps_ramps fs_any). keeps_auto; side. }
      match goal with |- context [match ?x with [] => _ | _ :: _ => _ end] =>
        destruct x eqn:Hx end.
      * apply (ramps_quiet _ _ _ 0); [done..|]. keeps_auto; side.
      * rewrite <- Hx. eapply (ramps_bind _ _ 0 0); [done..| |intros _].
        { apply (keeps_ramps fs_any). keeps_auto; side. }
        apply descargar_en_paralelo_ramps.
    + eapply (ramps_bind _ _ 0 0); [done..| |intros _].
      { apply (keeps_ramps fs_any). keeps_auto; side. }
      apply descargar_en_paralelo_ramps.
  - apply (keeps_ramps fs_any). keeps_auto; side.
Qed.

(** The part of the batch after the selection, for one selected module. *)
Lemma batch_tail_ramps cfg pd bs download_option cb tipo folder tipo' urls :
  ramps 0 100 (batch_tail cfg pd bs download_option cb [(tipo, folder)] [(tipo', urls)]).
Proof.
  unfold batch_tail. destruct (String.eqb download_option "consolidate").
  - eapply (ramps_bind _ _ 0 0); [done..| |intros _].
    { apply (keeps_ramps fs_any). keeps_auto; side. }
    eapply (ramps_bind _ _ 0 100); [done..| |intros ok].
    + eapply ramps_weaken; [| |by apply (consolidar_carpetas_ramps _ _ _ _ 0 100)]; done.
    + apply (keeps_ramps fs_any). keeps_auto; side.
  - eapply (ramps_bind _ _ 0 0); [done..| |intros _].
    { apply (keeps_ramps fs_any). keeps_auto; side. }
    eapply (ramps_bind _ _ 0 80); [done..| |intros d].
    { apply descargar_tipos_ramps. }
    eapply (ramps_bind _ _ 80 80); [done..| |intros _].
    { apply (keeps_ramps fs_any). keeps_auto; side. }
    eapply (ramps_bind _ _ 80 80); [done..| |intros _].
    { apply (keeps_ramps fs_any). keeps_auto; side. }
    eapply (ramps_bind _ _ 80 100); [done..| |intros ok].
    + eapply ramps_weaken; [| |by apply (consolidar_carpetas_ramps _ _ _ _ 80 20)]; done.
    + apply (keeps_ramps fs_any). keeps_auto; side.
Qed.

Lemma ramps_since {A} (m : M A) lo hi w : ramps lo hi m -> ramp lo hi (since w (m w).2).
Proof. intros H. destruct (H w) as (t & Ht & Hr). by rewrite (since_app _ _ _ Ht). Qed.

Lemma housekeeping_no_progress e : housekeeping e -> no_progress e.
Proof. by destruct e. Qed.

Lemma fst_singleton {A B} (l : list (A * B)) a : l.*1 = [a] -> exists b, l = [(a, b)].
Proof.
  destruct l as [|[a' b] [|? ?]]; try done. intros [= ->]. by exists b.
Qed.

(** A batch with exactly one selected module. *)
Lemma batch_one_module_ramp cfg pd bs download_option cb overwrite sel id w :
  selected_ids_of sel = Val [id] ->
  ramp 0 100
    (since w (descargar_y_consolidar cfg pd bs download_option cb overwrite
                (Some sel) w).2).
Proof.
  intros Hids.
  assert (sel <> []) as Hsel by (by intros ->).
  destruct (makedirs_error cfg (ds_makedirs (bs_disk bs))) as [e|] eqn:Hmk.
  - unfold descargar_y_consolidar. rewrite bind_run, crear_carpetas_run.
    unfold makedirs_error in Hmk.
    destruct (ds_makedirs (bs_disk bs) (folder_of cfg "CCM")).
    + simpl. unfold since. by rewrite drop_all.
    + rewrite Hmk. simpl. by rewrite (since_app _ _ [EvMakedirs (folder_of cfg "CCM")]).
  - destruct (batch_run_selected cfg pd bs download_option cb overwrite sel [id] w
                Hmk Hsel Hids ltac:(done)) as (w1 & H1 & ->).
    pose proof (fun i => selected_ids_of_ids sel [id] i Hids) as known.
    assert (exists folder urls,
              select [id] (folders_of cfg) = [(id, folder)] /\
              select [id] generar_urls_por_partes = [(id, urls)])
      as (folder & urls & -> & ->).
    { pose proof (select_plan [id] known) as Hp.
      rewrite (select_folders cfg [id]).
      destruct (known id) as [-> | ->]; [by left| |].
      - apply fst_singleton in Hp as [urls ->]. by eexists _, _.
      - apply fst_singleton in Hp as [urls ->]. by eexists _, _. }
    apply rel_since in H1 as (_ & Ht1 & Hev).
    destruct (batch_tail_ramps cfg pd bs download_option cb id folder id urls w1)
      as (t2 & Ht2 & Hr).
    rewrite (since_app _ _ (since w w1 ++ t2)); [|by rewrite Ht2, Ht1, <- app_assoc].
    unfold ramp in *. rewrite progress_values_app.
    rewrite (no_progress_values (since w w1)); [done|].
    eapply Forall_impl; [exact Hev|apply housekeeping_no_progress].
Qed.

(** C4, as stated, fails: with CCM and PRR selected the 56th report, the
    last of the first module, is 80 and the next report, the first of the
    second module, is 80/56. *)
Lemma progress_restarts_counterexample :
  let run := descargar_y_consolidar default_config plain_csv all_unauthorized "all"
               all_callbacks true (Some [("CCM", true); ("PRR", true)]) empty_world in
  progress_values (trace run.2) !! 55%nat = Some (4480 # 56) /\
  progress_values (trace run.2) !! 56%nat = Some (80 # 56) /\
  (4480 # 56 == 80)%Q /\ (80 # 56 < 4480 # 56)%Q /\
  ~ nondecreasing (progress_values (trace run.2)).
Proof.
  intros run.
  assert (progress_values (trace run.2) !! 55%nat = Some (4480 # 56)) as Hp
    by (vm_compute; reflexivity).
  assert (progress_values (trace run.2) !! 56%nat = Some (80 # 56)) as Hq
    by (vm_compute; reflexivity).
  split; [exact Hp|]. split; [exact Hq|]. split; [reflexivity|]. split; [reflexivity|].
  intros Hn. apply (nondecreasing_lookup _ _ _ _ Hn Hp Hq). reflexivity.
Qed.

(** C4 (monotone progress), amended.  Every call of the orchestrator reports
    values that never decrease and stay within 0 and 80, every consolidation
    of a full batch values that never decrease and stay within 80 and 100;
    and in a batch with exactly one selected module the whole sequence of
    reported values never decreases and stays within 0 and 100. *)
Theorem progress_monotone_per_module :
  (forall cfg cb net tipo urls folder w,
     climbs 0 80
       (progress_values
          (since w (descargar_en_paralelo cfg cb net tipo urls folder w).2))) /\
  (forall pd ds cb folder output_file files w,
     climbs 80 100
       (progress_values
          (since w (consolidar_archivos_descargados pd ds cb folder output_file files
                      80 20 w).2))) /\
  (forall cfg pd bs download_option cb overwrite sel id w,
     selected_ids_of sel = Val [id] ->
     let reported :=
       progress_values
         (since w (descargar_y_consolidar cfg pd bs download_option cb overwrite
                     (Some sel) w).2) in
     nondecreasing reported /\
     Forall (fun p => (0 <= p)%Q /\ (p <= 100)%Q) reported).
Proof.
  split; [|split].
  - intros. apply (ramps_since _ 0 80), descargar_en_paralelo_ramps.
  - intros. eapply climbs_weaken; [| |apply (ramps_since _ 80 (80 + 20))];
      [apply Qle_refl|done|]. by apply consolidar_ramps.
  - intros cfg pd bs download_option cb overwrite sel id w Hids reported.
    pose proof (batch_one_module_ramp cfg pd bs download_option cb overwrite sel id w Hids)
      as H.
    split; [by eapply climbs_nondecreasing|by apply climbs_bounds].
Qed.

Lemma progress_monotone_per_module_witness :
  let reported :=
    progress_values
      (since empty_world
         (descargar_y_consolidar default_config plain_csv all_unauthorized "all"
            all_callbacks true (Some [("CCM", true); ("PRR", false)]) empty_world).2) in
  nondecreasing reported /\ Forall (fun p => (0 <= p)%Q /\ (p <= 100)%Q) reported.
Proof.
  apply (proj2 (proj2 progress_monotone_per_module) default_config plain_csv
           all_unauthorized "all" all_callbacks true [("CCM", true); ("PRR", false)] 58
           empty_world).
  reflexivity.
Defined.

(** ** Locks taken and released *)























(** ** The sweep of stale locks *)

Lemma removed_paths_app t1 t2 :
  removed_paths (t1 ++ t2) = (removed_paths t1 ++ removed_paths t2)%list.
Proof. apply omap_app. Qed.

Lemma sweep_locks_run cfg cb found : forall removed w,
  exists t,
    sweep_locks cfg cb found removed w
    = (Val (removed ++ removed_paths t)%list, World (fs w) (trace w ++ t)) /\
    Forall (fun p => p ∈ found.*1.*1) (removed_paths t) /\
    Forall (fun e => match e with
                     | EvRemove _ | EvLogger _ => True
                     | EvLog _ => cb_log cb = true
                     | _ => False
                     end) t /\
    (STALE_LOCK_MAX_AGE cfg <= 0 ->
     forall p age, (p, Some age, true) ∈ found -> p ∈ removed_paths t).
Proof.
  induction found as [|[[p age] ok] rest IH]; intros removed w.
  - exists []. simpl. rewrite !app_nil_r. destruct w. repeat split; try done.
    intros _ p age H. by apply elem_of_nil in H.
  - assert (forall t0 removed0,
              Forall (fun q => q = p) (removed_paths t0) ->
              Forall (fun e => match e with
                               | EvRemove _ | EvLogger _ => True
                               | EvLog _ => cb_log cb = true
                               | _ => False
                               end) t0 ->
              (STALE_LOCK_MAX_AGE cfg <= 0 -> ok = true -> is_Some age ->
               p ∈ removed_paths t0) ->
              exists t,
                sweep_locks cfg cb rest (removed0 ++ removed_paths t0)
                  (World (fs w) (trace w ++ t0))
                = (Val (removed0 ++ removed_paths t)%list, World (fs w) (trace w ++ t)) /\
                Forall (fun q => q ∈ ((p, age, ok) :: rest).*1.*1) (removed_paths t) /\
                Forall (fun e => match e with
                                 | EvRemove _ | EvLogger _ => True
                                 | EvLog _ => cb_log cb = true
                                 | _ => False
                                 end) t /\
                (STALE_LOCK_MAX_AGE cfg <= 0 ->
                 forall q a, (q, Some a, true) ∈ (p, age, ok) :: rest ->
                             q ∈ removed_paths t)) as Hrest.
    { intros t0 removed0 Hp0 Hev0 Hin0.
      destruct (IH (removed0 ++ removed_paths t0)%list (World (fs w) (trace w ++ t0)))
        as (t & Hrun & Hsub & Hev & Hall).
      exists (t0 ++ t)%list. simpl in Hrun.
      rewrite Hrun, removed_paths_app, <- !app_assoc. split; [done|]. split; [|split].
      - apply Forall_app. split.
        + eapply Forall_impl; [exact Hp0|]. intros q ->. rewrite !fmap_cons. by left.
        + eapply Forall_impl; [exact Hsub|]. intros q Hq. rewrite !fmap_cons. by right.
      - by apply Forall_app.
      - intros Hmax q a [Heq|Hin]%elem_of_cons; apply elem_of_app.
        + injection Heq as Hq Ha Hok. subst q. left. apply Hin0; [done|done|by eexists].
        + right. by eapply Hall. }
    destruct age as [age|]; simpl.
    + destruct ((STALE_LOCK_MAX_AGE cfg <=? 0) || _) eqn:Hstale.
      * destruct ok.
        -- rewrite bind_unit_run by val_tt. simpl.
           rewrite bind_unit_run by (destruct (cb_log cb); val_tt).
           destruct (cb_log cb) eqn:Hcb; simpl.
           ++ destruct (Hrest [EvRemove p; EvLog (LogLockCleaned p)] removed)
                as (t & Hrun & H); [by repeat constructor..|by left|].
              exists t. split; [|exact H]. rewrite <- Hrun. simpl.
              by rewrite <- !app_assoc.
           ++ destruct (Hrest [EvRemove p; EvLogger (LogLockCleaned p)] removed)
                as (t & Hrun & H); [by repeat constructor..|by left|].
              exists t. split; [|exact H]. rewrite <- Hrun. simpl.
              by rewrite <- !app_assoc.
        -- rewrite bind_unit_run by val_tt. simpl.
           destruct (Hrest [EvLogger (LogLockNotRemoved p)] removed)
             as (t & Hrun & H); [by repeat constructor..|done|].
           exists t. split; [|exact H]. rewrite <- Hrun. simpl. by rewrite app_nil_r.
      * destruct (Hrest [] removed) as (t & Hrun & H); [by repeat constructor..| |].
        { intros Hmax. apply orb_false_iff in Hstale as [Hz _].
          apply Z.leb_gt in Hz. lia. }
        exists t. split; [|exact H]. rewrite <- Hrun. simpl. rewrite !app_nil_r.
        by destruct w.
    + destruct (Hrest [] removed) as (t & Hrun & H); [by repeat constructor..| |].
      { by intros _ _ [? ?]. }
      exists t. split; [|exact H]. rewrite <- Hrun. simpl. rewrite !app_nil_r.
      by destruct w.
Qed.

(** X2 (sweep of stale locks).  The sweep never raises and leaves the data
    files as they are; the list it returns is, in order, the list of the
    lock files it removed, each of them one of the lock files found; a
    removal is logged through the log callback only when one is given;
    nothing is done when the base directory does not exist; and with a
    maximal age of 0 or less every lock file whose age can be read and whose
    removal succeeds is removed. *)
Theorem stale_locks_swept cfg cb base_exists found w :
  let run := remove_stale_lock_files cfg cb base_exists found w in
  exists removed,
    run.1 = Val removed /\
    fs run.2 = fs w /\
    removed = removed_paths (since w run.2) /\
    Forall (fun p => p ∈ found.*1.*1) removed /\
    (cb_log cb = false -> Forall (fun e => match e with EvLog _ => False | _ => True end)
                                 (since w run.2)) /\
    (base_exists = false -> removed = [] /\ run.2 = w) /\
    (base_exists = true -> STALE_LOCK_MAX_AGE cfg <= 0 ->
     forall p age, (p, Some age, true) ∈ found -> p ∈ removed).
Proof.
  intros run. subst run. unfold remove_stale_lock_files.
  destruct base_exists; simpl.
  - destruct (sweep_locks_run cfg cb found [] w) as (t & -> & Hsub & Hev & Hall).
    simpl. exists (removed_paths t). rewrite (since_app w _ t) by done.
    repeat split; try done.
    intros Hcb. eapply Forall_impl; [exact Hev|]. intros e. destruct e; try done. congruence.
  - exists []. unfold since. rewrite drop_all. by repeat split.
Qed.

(** X3 (eviction with the default maximal age).  With a maximal age of 0 or
    less, a lock file that exists and can be removed never makes the fetcher
    wait: it is removed at each poll that finds it, nothing is slept, and the
    lock is acquired. *)
Theorem removable_lock_is_evicted cfg cb output_path file_path s w :
  STALE_LOCK_MAX_AGE cfg <= 0 ->
  removable s = true ->
  let run := file_lock_acquire cfg cb output_path file_path s w in
  run.1 = Val tt /\
  fs run.2 = fs w /\
  List.filter is_sleep (since w run.2) = [] /\
  removed_paths (since w run.2) = replicate (failed_polls s) file_path /\
  n_acquires (since w run.2) = 1%nat.
Proof.
  intros Hmax. revert w.
  induction s as [|errno msg age remove_ok elapsed next IH]; intros w Hrem run; subst run.
  - simpl. rewrite (since_app w _ [EvLockAcquire file_path]) by done. done.
  - simpl in Hrem. apply andb_true_iff in Hrem as [[He Hok]%andb_true_iff Hnext].
    simpl. rewrite He, Hok, (proj2 (Z.leb_le _ _) Hmax).
    change (true || ?b) with true. cbv iota.
    rewrite bind_unit_run by val_tt.
    rewrite bind_unit_run by (destruct (cb_log cb); val_tt).
    set (w1 := ((if cb_log cb then emit (EvLog (LogLockCleaned file_path))
                 else emit (EvLogger (LogLockCleaned file_path)))
                  (emit (EvRemove file_path) w).2).2).
    assert (exists m, w1 = World (fs w) (trace w ++ [EvRemove file_path; m])
                      /\ is_sleep m = false
                      /\ removed_paths [m] = [] /\ n_acquires [m] = 0%nat)
      as (m & Hw1 & Hm1 & Hm2 & Hm3).
    { subst w1. destruct (cb_log cb); simpl; eexists; rewrite <- app_assoc; by repeat split. }
    destruct (IH w1 Hnext) as (Hv & Hfs & Hsl & Hrm & Hacq).
    pose proof (keeps_file_lock_acquire cfg cb output_path file_path next w1) as Hk.
    apply rel_since in Hk as (_ & Ht & _).
    split; [exact Hv|]. split; [by rewrite Hfs, Hw1|].
    rewrite (since_app w _ ([EvRemove file_path; m]
                            ++ since w1 (file_lock_acquire cfg cb output_path file_path
                                           next w1).2));
      [|rewrite Ht, Hw1; simpl; by rewrite <- !app_assoc].
    unfold n_acquires in *. rewrite removed_paths_app, !List.filter_app, length_app.
    rewrite Hsl, Hrm, Hacq.
    change (removed_paths [EvRemove file_path; m]) with (file_path :: removed_paths [m]).
    rewrite Hm2. simpl. rewrite Hm1. split; [done|]. split; [done|].
    destruct m; try done.
Qed.

Lemma removable_lock_is_evicted_witness :
  let run := file_lock_acquire default_config all_callbacks example_path
               (example_path ++ ".lock")
               (LkOpenFails EEXIST "File exists" (Some 3%Q) true 0%Q LkOpened) empty_world in
  run.1 = Val tt /\
  fs run.2 = fs empty_world /\
  List.filter is_sleep (since empty_world run.2) = [] /\
  removed_paths (since empty_world run.2) = replicate 1 (example_path ++ ".lock") /\
  n_acquires (since empty_world run.2) = 1%nat.
Proof.
  apply (removable_lock_is_evicted default_config all_callbacks example_path
           (example_path ++ ".lock")
           (LkOpenFails EEXIST "File exists" (Some 3%Q) true 0%Q LkOpened) empty_world);
    [simpl; lia|reflexivity].
Defined.

(** X4 (bounded wait for a lock).  When every poll finds the lock file and
    the file is not evicted (it is not stale, or it cannot be removed), the
    fetcher sleeps the poll interval after each poll until the time waited
    reaches the timeout, and then gives up with the error that the file is
    locked by another process, without having taken the lock. *)
Theorem lock_wait_times_out cfg cb output_path file_path s k w :
  stuck cfg s = true ->
  polls_before_timeout cfg s = Some k ->
  let run := file_lock_acquire cfg cb output_path file_path s w in
  run.1 = Exc (OSError 0 "File is locked by another process") /\
  fs run.2 = fs w /\
  List.filter is_sleep (since w run.2)
  = replicate k (EvSleep LockPoll (LOCK_WAIT_INTERVAL cfg)) /\
  n_acquires (since w run.2) = 0%nat /\
  removed_paths (since w run.2) = [].
Proof.
  revert k w.
  induction s as [|errno msg age remove_ok elapsed next IH]; intros k w Hst Hk run;
    subst run; [done|].
  simpl in Hst, Hk. apply andb_true_iff in Hst as [[He Hkeep]%andb_true_iff Hnext].
  simpl. rewrite He.
  set (stale := (STALE_LOCK_MAX_AGE cfg <=? 0)
                || Qgt_bool (default 0%Q age) (inject_Z (STALE_LOCK_MAX_AGE cfg))) in *.
  assert (exists pre,
            (pre = [] \/ pre = [EvLogger (LogLockNotRemoved file_path)]) /\
            file_lock_acquire cfg cb output_path file_path
              (LkOpenFails errno msg age remove_ok elapsed next) w
            = (if Qle_bool (LOCK_WAIT_TIMEOUT cfg) elapsed
               then log_callback cb (LogLockedByOther output_path);;
                    raise (OSError 0 "File is locked by another process")
               else time_sleep LockPoll (LOCK_WAIT_INTERVAL cfg);;
                    file_lock_acquire cfg cb output_path file_path next)
                (World (fs w) (trace w ++ pre))) as (pre & Hpre & Hrun).
  { simpl. rewrite He. fold stale. destruct stale.
    - destruct remove_ok; [done|]. eexists. split; [by right|].
      by rewrite bind_unit_run by val_tt.
    - exists []. split; [by left|]. rewrite app_nil_r. by destruct w. }
  simpl in Hrun. rewrite He in Hrun. fold stale in Hrun. rewrite Hrun. clear Hrun.
  set (w0 := World (fs w) (trace w ++ pre)).
  assert (List.filter is_sleep pre = [] /\ n_acquires pre = 0%nat /\ removed_paths pre = [])
    as (Hp1 & Hp2 & Hp3) by (by destruct Hpre as [-> | ->]).
  destruct (Qle_bool (LOCK_WAIT_TIMEOUT cfg) elapsed).
  - injection Hk as <-. rewrite bind_unit_run by val_tt. simpl.
    split; [done|].
    split; [unfold log_callback, when, emit; by destruct (cb_log cb)|].
    assert (exists post, trace (log_callback cb (LogLockedByOther output_path) w0).2
                         = (trace w ++ pre ++ post)%list
                         /\ (post = [] \/ post = [EvLog (LogLockedByOther output_path)]))
      as (post & Hpost & Hcase).
    { unfold log_callback, when, emit. destruct (cb_log cb); simpl.
      - eexists. rewrite <- app_assoc. split; [done|by right].
      - exists []. rewrite app_nil_r. split; [done|by left]. }
    rewrite (since_app w _ (pre ++ post)) by done.
    unfold n_acquires in *. rewrite removed_paths_app, !List.filter_app, length_app.
    rewrite Hp1, Hp2, Hp3. by destruct Hcase as [-> | ->].
  - destruct (polls_before_timeout cfg next) as [k'|] eqn:Hk'; [|done].
    injection Hk as <-.
    assert (stuck cfg next = true) as Hst' by (by destruct next).
    rewrite bind_unit_run by val_tt.
    set (w1 := (time_sleep LockPoll (LOCK_WAIT_INTERVAL cfg) w0).2).
    destruct (IH k' w1 Hst' eq_refl) as (Hv & Hfs & Hsl & Hacq & Hrm).
    pose proof (keeps_file_lock_acquire cfg cb output_path file_path next w1) as Hkeep'.
    apply rel_since in Hkeep' as (_ & Ht & _).
    split; [exact Hv|]. split; [by rewrite Hfs|].
    rewrite (since_app w _ (pre ++ [EvSleep LockPoll (LOCK_WAIT_INTERVAL cfg)]
                            ++ since w1 (file_lock_acquire cfg cb output_path file_path
                                           next w1).2));
      [|rewrite Ht; subst w1 w0; simpl; by rewrite <- !app_assoc].
    unfold n_acquires in *. rewrite !removed_paths_app, !List.filter_app, !length_app.
    rewrite Hp1, Hp2, Hp3, Hsl, Hacq, Hrm. done.
Qed.

Lemma lock_wait_times_out_witness :
  let s := LkOpenFails EEXIST "File exists" (Some 3%Q) false 0%Q
             (LkOpenFails EEXIST "File exists" (Some 3%Q) false 30%Q LkOpened) in
  let run := file_lock_acquire default_config all_callbacks example_path
               (example_path ++ ".lock") s empty_world in
  run.1 = Exc (OSError 0 "File is locked by another process") /\
  fs run.2 = fs empty_world /\
  List.filter is_sleep (since empty_world run.2)
  = replicate 1 (EvSleep LockPoll (LOCK_WAIT_INTERVAL default_config)) /\
  n_acquires (since empty_world run.2) = 0%nat /\
  removed_paths (since empty_world run.2) = [].
Proof.
  apply (lock_wait_times_out default_config all_callbacks example_path
           (example_path ++ ".lock")
           (LkOpenFails EEXIST "File exists" (Some 3%Q) false 0%Q
              (LkOpenFails EEXIST "File exists" (Some 3%Q) false 30%Q LkOpened))
           1%nat empty_world); reflexivity.
Defined.

(** ** Consolidation without download *)

#[global] Instance reports_kept_preorder : PreOrder reports_kept.
Proof.
  split.
  - by intros f p.
  - intros f g h Hfg Hgh p Hp. by rewrite Hgh, Hfg.
Qed.





Section keeps_consolidar.
Context (P : event -> Prop) (F : relation (gmap string string)) `{!PreOrder F}.
Hypothesis reports : forall e, report_ev e -> P e.


End keeps_consolidar.





(** ** What the orchestrator leaves on disk *)











Lemma str_app_inv_head (a x y : string) : a ++ x = a ++ y -> x = y.
Proof.
  induction a as [|c a IH]; [done|]. rewrite !str_app_cons. intros [= H]. by apply IH.
Qed.

#[global] Instance os_path_join_inj folder : Inj (=) (=) (os_path_join folder).
Proof.
  intros x y H. unfold os_path_join in H.
  by apply str_app_inv_head, (str_app_inv_head "\") in H.
Qed.

(** X7 (the tasks of a module have distinct destinations).  Each of the four
    groups of the plan has 56 tasks, one for each of the 8 years and 7
    states, and in any folder the 56 destinations are pairwise distinct: no
    two tasks of a call of the orchestrator write the same file. *)
Theorem planner_destinations_distinct folder :
  Forall (fun group =>
            length group.2 = (length anios * length estados_tramite)%nat /\
            NoDup (task_path folder <$> group.2))
         generar_urls_por_partes.
Proof.
  assert (forall urls, NoDup (task_name <$> urls) -> NoDup (task_path folder <$> urls))
    as Hinj.
  { intros urls H.
    change (task_path folder) with (os_path_join folder ∘ task_name).
    rewrite list_fmap_compose. by apply (NoDup_fmap_2 _). }
  do 4 (constructor;
          [split; [reflexivity|apply Hinj, (bool_decide_unpack _); vm_compute; exact I]|]).
  constructor.
Qed.

(** ** The temporary file *)

Lemma temp_gone_bind {A B} (committed : B -> bool) temp (m : M A) (f : A -> M B) w :
  (forall a w1, temp_gone committed temp (f a w1)) ->
  temp_gone committed temp ((m ≫= f) w).
Proof.
  intros Hf. rewrite bind_run. destruct (m w) as [[a|e] w1]; [apply Hf|done].
Qed.

Lemma store_phase_temp_gone cfg out cb s resp w :
  temp_gone is_commit (out ++ ".tmp") (store_phase cfg out cb s resp w).
Proof.
  unfold store_phase.
  apply temp_gone_bind. intros _ w1.
  apply temp_gone_bind. intros _ w2.
  apply temp_gone_bind. intros size w3.
  destruct ((0 <? content_length resp) && negb (size =? content_length resp)); [done|].
  unfold try_catch. rewrite bind_run. unfold os_replace.
  destruct (as_replace s) as [e|].
  { destruct (is_OSError e && (exn_errno e =? EACCES)); [|done].
    unfold temp_gone.
    destruct ((error_callback cb out ErrInUse;; time_sleep RenameWait 1;; mret CContinue) w3)
      as [[c|e'] w4] eqn:E; [|done].
    assert (c = CContinue) as ->; [|done].
    revert E. unfold error_callback, when, time_sleep, emit.
    destruct (cb_error cb); simpl; by intros [= <- _]. }
  destruct (fs w3 !! (out ++ ".tmp")) as [c|] eqn:Hc.
  - cbv iota beta. rewrite bind_run. unfold log_callback, when, emit.
    assert (fs (World (<[out := c]> (delete (out ++ ".tmp") (fs w3)))
                  (trace w3 ++ [EvReplace (out ++ ".tmp") out])) !! (out ++ ".tmp") = None)
      as Hgone.
    { simpl. rewrite lookup_insert_ne by (intros H; symmetry in H; by apply temp_ne_out in H).
      apply lookup_delete_eq. }
    destruct (cb_log cb); simpl; intros _; exact Hgone.
  - cbv iota beta. simpl. done.
Qed.

Lemma try_body_temp_gone cfg url out cb attempt s w :
  temp_gone is_commit (out ++ ".tmp") (try_body cfg url out cb attempt s w).
Proof.
  unfold try_body. do 3 (apply temp_gone_bind; intros ? ?). apply store_phase_temp_gone.
Qed.

Lemma on_exception_no_commit out cb attempt s last e w :
  match (on_exception out cb attempt s last e w).1 with
  | Val r => is_commit r.1 = false
  | Exc _ => True
  end.
Proof.
  destruct (on_exception_run out cb attempt s last e w) as (te & tc & tb & _ & _ & _ & _ & H).
  unfold handled in H.
  destruct (is_PermissionError e); [by destruct H as (-> & _)|].
  destruct (is_RequestException e); by destruct H as (-> & _).
Qed.

Lemma attempt_once_temp_gone cfg url out cb attempt s last w :
  temp_gone (fun r => is_commit r.1) (out ++ ".tmp")
    (attempt_once cfg url out cb attempt s last w).
Proof.
  unfold attempt_once, finally, try_catch. rewrite bind_run.
  pose proof (try_body_temp_gone cfg url out cb attempt s w) as Ht.
  destruct (try_body cfg url out cb attempt s w) as [[c|e] w1]; unfold temp_gone in *.
  - simpl in *. exact Ht.
  - pose proof (on_exception_no_commit out cb attempt s last e w1) as Hh.
    destruct (on_exception out cb attempt s last e w1) as [[r|e'] w2]; simpl in *; [|done].
    by rewrite Hh.
Qed.

Lemma attempts_loop_temp_gone cfg url out cb sc n : forall attempt last w,
  temp_gone id (out ++ ".tmp") (attempts_loop cfg url out cb sc n attempt last w).
Proof.
  assert (forall last w, temp_gone id (out ++ ".tmp") (retries_failed cb out last w)) as Hf.
  { intros last w. destruct (retries_failed_run cb out last w) as (tf & -> & _). done. }
  induction n as [|n IH]; intros attempt last w; [apply Hf|].
  rewrite attempts_loop_unfold.
  pose proof (attempt_once_temp_gone cfg url out cb attempt (sc attempt) last w) as Ha.
  destruct (attempt_once _ _ _ _ _ _ _ _) as [[[c l]|e] w1]; [|done].
  destruct c as [b| |]; [|apply IH|apply Hf].
  unfold temp_gone in *. simpl in *. by destruct b.
Qed.

(** X19 (what a fetch leaves on disk).  When a fetch returns True without
    having skipped the download (overwriting was asked for, or the
    destination did not exist), the files are afterwards exactly the ones
    of before with the temporary file gone and the destination holding the
    complete body of the response of one of the five attempts.  When it
    returns False, no file but the temporary file differs from before. *)
Theorem fetch_effect_on_files cfg url out cb overwrite sc w :
  ((descargar_archivo cfg url out cb overwrite sc w).1 = Val true ->
   overwrite = true \/ fs w !! out = None ->
   exists k resp,
     (k < retries)%nat /\ as_get (sc k) = GetResponse resp /\
     fs (descargar_archivo cfg url out cb overwrite sc w).2
     = <[out := body_of resp]> (delete (out ++ ".tmp") (fs w))) /\
  ((descargar_archivo cfg url out cb overwrite sc w).1 = Val false ->
   forall p, p <> out ++ ".tmp" ->
     fs (descargar_archivo cfg url out cb overwrite sc w).2 !! p = fs w !! p).
Proof.
  pose proof (descargar_archivo_footprint cfg url out cb overwrite sc w) as Hfp.
  split.
  - intros Hok Hdl. rewrite Hok in Hfp.
    destruct Hfp as [(Hov & Hex & _)|(Hrel & k & resp & Hk & Hget & Hout & _)].
    { destruct Hdl as [Ho|Hn]; [congruence|]. rewrite Hn in Hex. by destruct Hex. }
    exists k, resp. split; [done|]. split; [done|].
    assert (fs (descargar_archivo cfg url out cb overwrite sc w).2 !! (out ++ ".tmp") = None)
      as Htmp.
    { revert Hok. unfold descargar_archivo. rewrite bind_run. unfold os_path_exists.
      cbv iota beta.
      destruct (bool_decide (is_Some (fs w !! out)) && negb overwrite) eqn:Hskip.
      - apply andb_true_iff in Hskip as [Hex Hov]. apply bool_decide_eq_true in Hex.
        destruct Hdl as [Ho|Hn]; [by rewrite Ho in Hov|]. rewrite Hn in Hex.
        by destruct Hex.
      - pose proof (attempts_loop_temp_gone cfg url out cb sc retries 0 None w) as H.
        unfold temp_gone in H. intros Hok. rewrite Hok in H. by apply H. }
    destruct Hrel as [Hfs _]. apply map_eq. intros p.
    destruct (decide (p = out)) as [->|Hpo]; [by rewrite lookup_insert_eq|].
    rewrite lookup_insert_ne by done.
    destruct (decide (p = out ++ ".tmp")) as [->|Hpt]; [by rewrite lookup_delete_eq|].
    rewrite lookup_delete_ne by done. apply Hfs.
    rewrite !not_elem_of_cons. repeat split; auto. apply not_elem_of_nil.
  - intros Hno p Hp. rewrite Hno in Hfp. destruct Hfp as [Hfs _]. apply Hfs.
    rewrite not_elem_of_cons. split; [done|apply not_elem_of_nil].
Qed.

Lemma fetch_effect_on_files_witness :
  exists k resp,
    (k < retries)%nat /\
    as_get (reply_ok "LM1,x") = GetResponse resp /\
    fs (descargar_archivo default_config example_url example_path all_callbacks true
          (fun _ => reply_ok "LM1,x") old_world).2
    = <[example_path := body_of resp]> (delete (example_path ++ ".tmp") (fs old_world)).
Proof.
  apply (proj1 (fetch_effect_on_files default_config example_url example_path
                  all_callbacks true (fun _ => reply_ok "LM1,x") old_world)).
  - vm_compute. reflexivity.
  - left. reflexivity.
Defined.

(** ** Overwrite decisions and file analysis *)

(** X8 (the overwrite decision).  After a download option that is one of
    all, missing and cancel has been given, a file may be written exactly
    when the write is forced, the file does not exist or the option was all,
    and a list of existing files may be overwritten exactly when it is empty
    or the option was all; confirming never changes the decision.  An
    option that is not one of the three is answered with cancel and leaves
    the earlier decision in force.  While no decision was ever taken, an
    existing file may not be overwritten, and asking fixes the decision to
    no. *)
Theorem overwrite_decision_protocol :
  (forall download_option g file_path force files existing_files,
     download_option ∈ ["all"; "missing"; "cancel"] ->
     let g' := (prompt_download_decision download_option g).2 in
     (prompt_download_decision download_option g).1 = download_option /\
     confirm_overwrite file_path force files g'
     = (force || negb (bool_decide (is_Some (files !! file_path)))
        || String.eqb download_option "all", g') /\
     confirm_overwrite_all existing_files g'
     = (bool_decide (existing_files = []) || String.eqb download_option "all", g')) /\
  (forall download_option g,
     download_option ∉ ["all"; "missing"; "cancel"] ->
     prompt_download_decision download_option g = ("cancel", g)) /\
  (forall file_path files,
     is_Some (files !! file_path) ->
     confirm_overwrite file_path false files None = (false, Some false)).
Proof.
  split; [|split].
  - intros download_option g file_path force files existing_files Hin g'.
    subst g'. unfold prompt_download_decision.
    rewrite bool_decide_eq_true_2 by done. simpl. split; [done|].
    unfold confirm_overwrite, confirm_overwrite_all, set_global_overwrite_decision.
    split.
    + by destruct (bool_decide (is_Some (files !! file_path))), force,
           (String.eqb download_option "all").
    + by destruct existing_files, (String.eqb download_option "all").
  - intros download_option g Hin. unfold prompt_download_decision.
    by rewrite bool_decide_eq_false_2.
  - intros file_path files Hex. unfold confirm_overwrite.
    by rewrite bool_decide_eq_true_2.
Qed.

Lemma overwrite_decision_protocol_witness :
  (prompt_download_decision "missing" None).1 = "missing" /\
  confirm_overwrite example_path false (fs old_world)
    (prompt_download_decision "missing" None).2
  = (false || negb (bool_decide (is_Some (fs old_world !! example_path)))
     || String.eqb "missing" "all", (prompt_download_decision "missing" None).2) /\
  confirm_overwrite_all [example_path] (prompt_download_decision "missing" None).2
  = (bool_decide ([example_path] = []) || String.eqb "missing" "all",
     (prompt_download_decision "missing" None).2).
Proof.
  apply (proj1 overwrite_decision_protocol "missing" None example_path false
           (fs old_world) [example_path]).
  apply (bool_decide_unpack _). vm_compute. exact I.
Defined.

Lemma analyze_module_run folder files urls : forall existing missing,
  exists e m,
    analyze_module folder urls files existing missing
    = ((existing ++ e)%list, (missing ++ m)%list) /\
    Forall (fun p => is_Some (files !! p)) e /\
    Forall (fun p => files !! p = None) m /\
    e `sublist_of` (ntpath_join folder ∘ snd <$> urls) /\
    m `sublist_of` (ntpath_join folder ∘ snd <$> urls) /\
    (e ++ m)%list ≡ₚ (ntpath_join folder ∘ snd <$> urls).
Proof.
  induction urls as [|[url filename] rest IH]; intros existing missing; simpl.
  - exists [], []. by rewrite !app_nil_r.
  - destruct (bool_decide (is_Some (files !! ntpath_join folder filename))) eqn:Hex.
    + apply bool_decide_eq_true in Hex.
      destruct (IH (existing ++ [ntpath_join folder filename])%list missing)
        as (e & m & -> & He & Hm & Hse & Hsm & Hperm).
      exists (ntpath_join folder filename :: e), m. rewrite <- app_assoc.
      split; [done|]. split; [by constructor|]. split; [done|].
      split; [by apply sublist_skip|]. split; [by apply sublist_cons|].
      simpl. by rewrite Hperm.
    + apply bool_decide_eq_false in Hex.
      destruct (IH existing (missing ++ [ntpath_join folder filename])%list)
        as (e & m & -> & He & Hm & Hse & Hsm & Hperm).
      exists e, (ntpath_join folder filename :: m). rewrite <- app_assoc.
      split; [done|]. split; [done|].
      split; [constructor; [|done]; by apply eq_None_not_Some|].
      split; [by apply sublist_cons|]. split; [by apply sublist_skip|].
      rewrite <- Hperm. by rewrite <- Permutation_middle.
Qed.

Lemma sdict_get_set {V} k (v : V) d : sdict_get k (sdict_set k v d) = Some v.
Proof.
  unfold sdict_get. induction d as [|[k' v'] d IH]; simpl.
  - by rewrite String.eqb_refl.
  - destruct (String.eqb k' k) eqn:E; simpl; [by rewrite String.eqb_refl|].
    by rewrite E.
Qed.

Lemma sdict_get_set_ne {V} k k' (v : V) d :
  k <> k' -> sdict_get k (sdict_set k' v d) = sdict_get k d.
Proof.
  intros Hne. unfold sdict_get. induction d as [|[k0 v0] d IH]; simpl.
  - apply String.eqb_neq in Hne. by rewrite String.eqb_sym, Hne.
  - destruct (String.eqb k0 k') eqn:E; simpl.
    + apply String.eqb_eq in E. subst k0.
      assert (String.eqb k' k = false) as -> by (apply String.eqb_neq; congruence).
      done.
    + destruct (String.eqb k0 k); [done|exact IH].
Qed.

Lemma analyze_files_loop_get items folders files modulo urls : forall analysis,
  NoDup items.*1 -> (modulo, urls) ∈ items ->
  sdict_get modulo (analyze_files_loop items folders files analysis)
  = Some (analyze_module (default "" (sdict_get modulo folders)) urls files [] []).
Proof.
  induction items as [|[k us] rest IH]; intros analysis Hnd Hin.
  - by apply elem_of_nil in Hin.
  - rewrite fmap_cons in Hnd. apply NoDup_cons in Hnd as [Hk Hnd]. simpl.
    apply elem_of_cons in Hin as [[= -> ->]|Hin]; [|by apply IH].
    clear IH. revert analysis.
    assert (forall analysis,
              sdict_get k analysis
              = Some (analyze_module (default "" (sdict_get k folders)) us files [] []) ->
              sdict_get k (analyze_files_loop rest folders files analysis)
              = Some (analyze_module (default "" (sdict_get k folders)) us files [] []))
      as Hkeep.
    { revert Hk. clear. induction rest as [|[k' us'] rest IH]; intros Hk analysis H; [done|].
      simpl. rewrite fmap_cons in Hk. apply not_elem_of_cons in Hk as [Hne Hk].
      apply IH; [done|]. by rewrite sdict_get_set_ne. }
    intros analysis. apply Hkeep, sdict_get_set.
Qed.

(** X9 (analysis of the files of a module).  For every module of a plan
    without repeated keys the analysis has an entry, whose two lists split
    the paths of the module (the file names joined to the folder of the
    module, or taken as they are when the module has no folder): the listed
    existing files exist, the listed missing files do not, both lists keep
    the order of the plan, and together they are a permutation of the
    paths. *)
Theorem analysis_splits_the_paths urls_por_partes folders files modulo urls :
  NoDup urls_por_partes.*1 ->
  (modulo, urls) ∈ urls_por_partes ->
  let paths := ntpath_join (default "" (sdict_get modulo folders)) ∘ snd <$> urls in
  exists existing missing,
    sdict_get modulo (analyze_files urls_por_partes folders files)
    = Some (existing, missing) /\
    Forall (fun p => is_Some (files !! p)) existing /\
    Forall (fun p => files !! p = None) missing /\
    existing `sublist_of` paths /\ missing `sublist_of` paths /\
    (existing ++ missing)%list ≡ₚ paths /\
    (sdict_get modulo folders = None -> paths = snd <$> urls).
Proof.
  intros Hnd Hin paths. subst paths. unfold analyze_files.
  rewrite (analyze_files_loop_get _ _ _ modulo urls) by done.
  destruct (analyze_module_run (default "" (sdict_get modulo folders)) files urls [] [])
    as (e & m & -> & He & Hm & Hse & Hsm & Hperm).
  exists e, m. repeat (split; [done|]).
  intros ->. simpl. by apply list_fmap_ext.
Qed.

Lemma analysis_splits_the_paths_witness :
  let paths := ntpath_join (default "" (sdict_get "58" [("58", "C:\app\descargas\CCM")]))
                 ∘ snd <$> [("u1", "2025_A.csv"); ("u2", "2025_P.csv")] in
  exists existing missing,
    sdict_get "58"
      (analyze_files [("58", [("u1", "2025_A.csv"); ("u2", "2025_P.csv")])]
         [("58", "C:\app\descargas\CCM")] (fs old_world))
    = Some (existing, missing) /\
    Forall (fun p => is_Some (fs old_world !! p)) existing /\
    Forall (fun p => fs old_world !! p = None) missing /\
    existing `sublist_of` paths /\ missing `sublist_of` paths /\
    (existing ++ missing)%list ≡ₚ paths /\
    (sdict_get "58" [("58", "C:\app\descargas\CCM")] = None ->
     paths = snd <$> [("u1", "2025_A.csv"); ("u2", "2025_P.csv")]).
Proof.
  apply (analysis_splits_the_paths
           [("58", [("u1", "2025_A.csv"); ("u2", "2025_P.csv")])]
           [("58", "C:\app\descargas\CCM")] (fs old_world) "58"
           [("u1", "2025_A.csv"); ("u2", "2025_P.csv")]).
  - apply (bool_decide_unpack _). vm_compute. exact I.
  - apply list_elem_of_here.
Defined.

(** ** Stored credentials *)

Lemma rstrip_cons c r :
  rstrip (String c r)
  = match rstrip r with
    | EmptyString => if is_space c then EmptyString else String c EmptyString
    | r' => String c r'
    end.
Proof. reflexivity. Qed.

Lemma rstrip_idem s : rstrip (rstrip s) = rstrip s.
Proof.
  induction s as [|c r IH]; [done|]. rewrite rstrip_cons.
  destruct (rstrip r) as [|d r'] eqn:E.
  - destruct (is_space c) eqn:Hc; [done|]. rewrite rstrip_cons. simpl. by rewrite Hc.
  - rewrite rstrip_cons, IH. done.
Qed.

Lemma lstrip_idem s : lstrip (lstrip s) = lstrip s.
Proof.
  induction s as [|c r IH]; [done|]. simpl.
  destruct (is_space c) eqn:Hc; [done|]. simpl. by rewrite Hc.
Qed.

Lemma rstrip_lstrip s : rstrip s = s -> rstrip (lstrip s) = lstrip s.
Proof.
  induction s as [|c r IH]; [done|]. intros H. simpl.
  destruct (is_space c) eqn:Hc; [|exact H].
  apply IH. rewrite rstrip_cons in H. destruct (rstrip r) as [|d r'] eqn:E.
  - by rewrite Hc in H.
  - by injection H.
Qed.

Lemma strip_idem s : strip (strip s) = strip s.
Proof.
  unfold strip. rewrite (rstrip_lstrip (rstrip s)) by apply rstrip_idem.
  apply lstrip_idem.
Qed.

Lemma strip_empty : strip "" = "".
Proof. reflexivity. Qed.

Lemma eqb_empty_false s : String.eqb s "" = false <-> s <> "".
Proof. apply String.eqb_neq. Qed.

(** What a successful save stores. *)
Lemma save_credentials_true lib io now user password url m :
  (save_credentials lib io now user password url m).1 = true ->
  strip user <> "" /\ password <> "" /\ write_ok io = true /\
  exists rest,
    (save_credentials lib io now user password url m).2
    = Manager (Some (json_dumps lib
                       (JObj (("ntlm_user", JStr (strip user))
                              :: ("ntlm_pass", JStr password) :: rest))))
        (JObj (("ntlm_user", JStr (strip user)) :: ("ntlm_pass", JStr password) :: rest)) /\
    sdict_get "server_url" rest
    = match url with
      | Some u => if String.eqb u "" then None else Some (JStr u)
      | None => None
      end.
Proof.
  unfold save_credentials, _write_credentials.
  destruct (String.eqb user "") eqn:Hu; simpl negb; cbv iota.
  { rewrite Hu. simpl. done. }
  destruct (String.eqb (strip user) "") eqn:Hs; [done|].
  destruct (String.eqb password "") eqn:Hp; [done|]. simpl orb. cbv iota.
  destruct (write_ok io); [|done]. intros _.
  apply String.eqb_neq in Hs, Hp. do 3 (split; [done|]).
  destruct url as [u|]; [destruct (String.eqb u "") eqn:E|]; simpl; eexists;
    (split; [reflexivity|]); done.
Qed.

(** The two facts the later statements use of a successful save. *)
Lemma saved_fields lib io now user password url m :
  (save_credentials lib io now user password url m).1 = true ->
  get_credentials (save_credentials lib io now user password url m).2
  = Val (JStr (strip user), JStr password) /\
  config_file (save_credentials lib io now user password url m).2
  = Some (json_dumps lib (credentials (save_credentials lib io now user password url m).2)).
Proof.
  intros H.
  destruct (save_credentials_true _ _ _ _ _ _ _ H) as (Hu & Hp & _ & rest & -> & Hurl).
  apply String.eqb_neq in Hu, Hp. split; [|done].
  unfold get_credentials, json_get, sdict_get. simpl. by rewrite Hu, Hp.
Qed.

(** X10 (saved credentials are the ones returned).  After a save that
    returns True the manager returns the user without the surrounding
    whitespace and the password as given, reports that it has credentials,
    returns the server address when one was given and none otherwise (an
    address stored earlier is dropped), and its file holds the encoding of
    what it keeps in memory. *)
Theorem saved_credentials_are_returned lib io now user password url m :
  (save_credentials lib io now user password url m).1 = true ->
  let m' := (save_credentials lib io now user password url m).2 in
  strip user <> "" /\ password <> "" /\
  get_credentials m' = Val (JStr (strip user), JStr password) /\
  has_credentials m' = Val true /\
  get_ntlm_credentials m' = Val (JStr (strip user), JStr password) /\
  get_server_url m'
  = Val (match url with
         | Some u => if String.eqb u "" then JNull else JStr u
         | None => JNull
         end) /\
  config_file m' = Some (json_dumps lib (credentials m')).
Proof.
  intros H m'. subst m'.
  destruct (save_credentials_true _ _ _ _ _ _ _ H) as (Hu & Hp & _ & rest & -> & Hurl).
  apply String.eqb_neq in Hu, Hp.
  split; [by apply String.eqb_neq|]. split; [by apply String.eqb_neq|].
  assert (get_credentials
            (Manager (Some (json_dumps lib
                              (JObj (("ntlm_user", JStr (strip user))
                                     :: ("ntlm_pass", JStr password) :: rest))))
               (JObj (("ntlm_user", JStr (strip user)) :: ("ntlm_pass", JStr password)
                      :: rest)))
          = Val (JStr (strip user), JStr password)) as Hget.
  { unfold get_credentials, json_get, sdict_get. simpl. by rewrite Hu, Hp. }
  split; [exact Hget|].
  split; [unfold has_credentials; rewrite Hget; simpl; by rewrite Hu, Hp|].
  split; [unfold get_ntlm_credentials; rewrite Hget; simpl;
          by rewrite Hu, Hp, strip_idem|].
  split; [|done].
  unfold get_server_url, json_get. simpl.
  change (sdict_get "server_url"
            (("ntlm_user", JStr (strip user)) :: ("ntlm_pass", JStr password) :: rest))
    with (sdict_get "server_url" rest).
  rewrite Hurl. by destruct url as [u|]; [destruct (String.eqb u "")|].
Qed.

Lemma saved_credentials_are_returned_witness :
  let m' := (save_credentials flat_codec disk_ok "2025-01-01T00:00:00" " ana " "s3cret"
               None no_manager).2 in
  strip " ana " <> "" /\ "s3cret" <> "" /\
  get_credentials m' = Val (JStr (strip " ana "), JStr "s3cret") /\
  has_credentials m' = Val true /\
  get_ntlm_credentials m' = Val (JStr (strip " ana "), JStr "s3cret") /\
  get_server_url m' = Val JNull /\
  config_file m' = Some (json_dumps flat_codec (credentials m')).
Proof.
  apply (saved_credentials_are_returned flat_codec disk_ok "2025-01-01T00:00:00" " ana "
           "s3cret" None no_manager).
  reflexivity.
Defined.

(** X11 (a save that fails keeps the credentials in memory).  A save
    returns True exactly when the user is not blank, the password is not
    empty and the file can be written.  When it returns False the
    credentials in memory are the ones of before; when the user is blank or
    the password empty the file is not touched either. *)
Theorem failed_save_changes_nothing lib io now user password url m :
  (save_credentials lib io now user password url m).1
  = negb (String.eqb (strip user) "") && negb (String.eqb password "") && write_ok io /\
  ((save_credentials lib io now user password url m).1 = false ->
   credentials (save_credentials lib io now user password url m).2 = credentials m) /\
  (strip user = "" \/ password = "" ->
   save_credentials lib io now user password url m = (false, m)).
Proof.
  unfold save_credentials, _write_credentials.
  destruct (String.eqb user "") eqn:Hu; simpl negb; cbv iota.
  { rewrite Hu. simpl. apply String.eqb_eq in Hu. subst user. done. }
  destruct (String.eqb (strip user) "") eqn:Hs; [done|].
  destruct (String.eqb password "") eqn:Hp.
  { rewrite orb_true_r. done. }
  simpl orb. cbv iota. apply String.eqb_neq in Hs, Hp.
  destruct (write_ok io); simpl; (split; [done|]); (split; [done|]); by intros [?|?].
Qed.

Lemma failed_save_changes_nothing_witness :
  save_credentials flat_codec disk_ok "2025-01-01T00:00:00" "  " "s3cret" None no_manager
  = (false, no_manager).
Proof.
  apply (failed_save_changes_nothing flat_codec disk_ok "2025-01-01T00:00:00" "  "
           "s3cret" None no_manager).
  left. reflexivity.
Defined.

(** What a manager finds in a file that holds the text written for [v]. *)
Lemma load_written lib io v :
  read_ok io = true -> round_trips lib v ->
  new_manager lib io (Some (json_dumps lib v)) = Manager (Some (json_dumps lib v)) v.
Proof.
  intros Hr [Hne Hrt]. unfold new_manager, _load_credentials. simpl.
  rewrite Hr. apply String.eqb_neq in Hne. by rewrite Hne, Hrt.
Qed.

(** X12 (saved credentials survive a restart).  When a save returns True
    and the text written for the saved dictionary reads back as that
    dictionary, a manager created afterwards from the file holds the same
    credentials, leaves the file as it is, and returns the saved user and
    password. *)
Theorem credentials_survive_restart lib io io' now user password url m :
  (save_credentials lib io now user password url m).1 = true ->
  round_trips lib (credentials (save_credentials lib io now user password url m).2) ->
  read_ok io' = true ->
  new_manager lib io' (config_file (save_credentials lib io now user password url m).2)
  = (save_credentials lib io now user password url m).2 /\
  get_credentials
    (new_manager lib io' (config_file (save_credentials lib io now user password url m).2))
  = Val (JStr (strip user), JStr password).
Proof.
  intros H Hrt Hr.
  destruct (saved_fields _ _ _ _ _ _ _ H) as (Hget & Hfile).
  assert (new_manager lib io'
            (config_file (save_credentials lib io now user password url m).2)
          = (save_credentials lib io now user password url m).2) as Hnew.
  { destruct (save_credentials lib io now user password url m).2 as [f c].
    simpl in *. subst f. by apply load_written. }
  split; [exact Hnew|]. by rewrite Hnew.
Qed.

Lemma credentials_survive_restart_witness :
  new_manager flat_codec disk_ok
    (config_file (save_credentials flat_codec disk_ok "2025-01-01T00:00:00" " ana "
                    "s3cret" (Some "http://srv") no_manager).2)
  = (save_credentials flat_codec disk_ok "2025-01-01T00:00:00" " ana " "s3cret"
       (Some "http://srv") no_manager).2 /\
  get_credentials
    (new_manager flat_codec disk_ok
       (config_file (save_credentials flat_codec disk_ok "2025-01-01T00:00:00" " ana "
                       "s3cret" (Some "http://srv") no_manager).2))
  = Val (JStr (strip " ana "), JStr "s3cret").
Proof.
  apply (credentials_survive_restart flat_codec disk_ok disk_ok "2025-01-01T00:00:00"
           " ana " "s3cret" (Some "http://srv") no_manager).
  - reflexivity.
  - split; [vm_compute; discriminate|vm_compute; reflexivity].
  - reflexivity.
Defined.

(** X13 (a file in the legacy format is migrated, or dropped).  When the
    text of the file is not JSON but is the base64 of the JSON of [v], the
    manager rewrites the file as JSON and holds [v] if the file can be
    written; if it cannot, the manager starts with no credentials although
    the file was decoded.  Reading the migrated file again gives the same
    credentials and no further write. *)
Theorem legacy_file_is_migrated lib io text decoded v :
  read_ok io = true ->
  strip text <> "" ->
  json_loads lib (strip text) = None ->
  b64decode lib (strip text) = Some decoded ->
  json_loads lib decoded = Some v ->
  (write_ok io = true ->
   new_manager lib io (Some text) = Manager (Some (json_dumps lib v)) v /\
   (round_trips lib v ->
    new_manager lib io (config_file (new_manager lib io (Some text)))
    = new_manager lib io (Some text))) /\
  (write_ok io = false ->
   credentials (new_manager lib io (Some text)) = JObj [] /\
   get_credentials (new_manager lib io (Some text)) = Val (JNull, JNull) /\
   has_credentials (new_manager lib io (Some text)) = Val false).
Proof.
  intros Hr Hne Hjson Hb64 Hdec.
  assert (forall b, write_ok io = b ->
            new_manager lib io (Some text)
            = if b then Manager (Some (json_dumps lib v)) v
              else Manager (write_leaves io (Some text)) (JObj [])) as Hnew.
  { intros b Hw. unfold new_manager, _load_credentials, _write_credentials. simpl.
    apply String.eqb_neq in Hne. rewrite Hr, Hne, Hjson, Hb64, Hdec, Hw.
    by destruct b. }
  split; intros Hw; rewrite (Hnew _ Hw).
  - split; [done|]. intros Hrt. simpl. by apply load_written.
  - done.
Qed.

Lemma legacy_file_is_migrated_witness :
  new_manager flat_codec disk_ok (Some legacy_file)
  = Manager (Some (json_dumps flat_codec
                     (JObj [("ntlm_user", JStr "ana"); ("ntlm_pass", JStr "s3cret")])))
      (JObj [("ntlm_user", JStr "ana"); ("ntlm_pass", JStr "s3cret")]) /\
  credentials (new_manager flat_codec disk_read_only (Some legacy_file)) = JObj [].
Proof.
  assert (strip legacy_file <> "") as Hne by (vm_compute; discriminate).
  split.
  - refine (proj1 (proj1 (legacy_file_is_migrated flat_codec disk_ok legacy_file
             (String.concat "" ["ntlm_user=ana"; String LF ""; "ntlm_pass=s3cret"])
             (JObj [("ntlm_user", JStr "ana"); ("ntlm_pass", JStr "s3cret")])
             _ Hne _ _ _) _)); vm_compute; reflexivity.
  - refine (proj1 (proj2 (legacy_file_is_migrated flat_codec disk_read_only legacy_file
             (String.concat "" ["ntlm_user=ana"; String LF ""; "ntlm_pass=s3cret"])
             (JObj [("ntlm_user", JStr "ana"); ("ntlm_pass", JStr "s3cret")])
             _ Hne _ _ _) _)); vm_compute; reflexivity.
Defined.

(** X14 (clearing the credentials).  A clear returns True unless the file
    exists and cannot be removed.  After a clear that returns True the
    file is gone and no credentials are returned, now and by a manager
    created afterwards; a clear that returns False leaves the file and the
    credentials in memory as they were. *)
Theorem clear_credentials_forgets lib io io' m :
  (clear_credentials io m).1
  = negb (bool_decide (is_Some (config_file m))) || unlink_ok io /\
  ((clear_credentials io m).1 = true ->
   config_file (clear_credentials io m).2 = None /\
   get_credentials (clear_credentials io m).2 = Val (JNull, JNull) /\
   has_credentials (clear_credentials io m).2 = Val false /\
   get_ntlm_credentials (clear_credentials io m).2 = Val (JStr "", JStr "") /\
   get_server_url (clear_credentials io m).2 = Val JNull /\
   new_manager lib io' (config_file (clear_credentials io m).2)
   = (clear_credentials io m).2) /\
  ((clear_credentials io m).1 = false -> (clear_credentials io m).2 = m).
Proof.
  unfold clear_credentials. destruct (config_file m) as [text|]; simpl.
  - destruct (unlink_ok io); simpl; by repeat split.
  - by repeat split.
Qed.

Lemma clear_credentials_forgets_witness :
  (clear_credentials disk_read_only
     (new_manager flat_codec disk_ok (Some legacy_file))).2
  = new_manager flat_codec disk_ok (Some legacy_file).
Proof.
  apply (clear_credentials_forgets flat_codec disk_read_only disk_ok
           (new_manager flat_codec disk_ok (Some legacy_file))).
  reflexivity.
Defined.

(** X15 (a credentials file that is JSON but not an object).  When the
    file holds the JSON of a value that is not an object, a manager is
    created without error; if the value is falsy (null, false, 0, an empty
    string or list) every query answers as without credentials, and
    otherwise every query raises. *)
Theorem non_object_file_breaks_queries lib io text v :
  read_ok io = true ->
  strip text <> "" ->
  json_loads lib (strip text) = Some v ->
  is_object v = false ->
  let m := new_manager lib io (Some text) in
  m = Manager (Some text) v /\
  if truthy_json v then
    exists e,
      get_credentials m = Exc e /\ has_credentials m = Exc e /\
      get_ntlm_credentials m = Exc e /\ get_server_url m = Exc e
  else
    get_credentials m = Val (JNull, JNull) /\ has_credentials m = Val false /\
    get_ntlm_credentials m = Val (JStr "", JStr "") /\ get_server_url m = Val JNull.
Proof.
  intros Hr Hne Hjson Hobj m.
  assert (m = Manager (Some text) v) as ->.
  { subst m. unfold new_manager, _load_credentials. simpl.
    apply String.eqb_neq in Hne. by rewrite Hr, Hne, Hjson. }
  split; [done|].
  unfold get_credentials, has_credentials, get_ntlm_credentials, get_server_url,
    get_credentials. simpl credentials.
  destruct (truthy_json v) eqn:Ht; simpl negb; cbv iota; [|done].
  destruct v; try discriminate; simpl; eexists; repeat split.
Qed.

Lemma non_object_file_breaks_queries_witness :
  exists e, has_credentials (new_manager flat_codec disk_ok (Some "7")) = Exc e.
Proof.
  destruct (non_object_file_breaks_queries flat_codec disk_ok "7" (JNum 7)) as [_ H].
  - reflexivity.
  - vm_compute; discriminate.
  - vm_compute; reflexivity.
  - reflexivity.
  - simpl in H. destruct H as (e & _ & H & _). exists e. exact H.
Defined.

(** ** Retrying *)

Section retry.
Context {A : Type}.
Variables (max_retries : Z) (base_delay : Q) (exceptions : exn -> bool).
Variable f : nat -> res A.

Lemma retry_delays_S from n :
  retry_delays base_delay from (S n)
  = (retry_notice base_delay from ++ retry_delays base_delay (S from) n)%list.
Proof. reflexivity. Qed.

Lemma retry_loop_S iterations retries k :
  retry_loop max_retries base_delay exceptions (counted f) (S iterations) retries k
  = match f k with
    | Val a => (Val (Some a), S k, [])
    | Exc e =>
        if exceptions e then
          if retries + 1 =? max_retries then
            (Exc e, S k, [RetryError max_retries (str_exn e)])
          else
            match retry_loop max_retries base_delay exceptions (counted f) iterations
                    (retries + 1) (S k) with
            | (r, s, t) =>
                (r, s,
                 RetryWarning (retries + 1)
                   (base_delay * inject_Z (2 ^ (retries + 1 - 1)))%Q
                 :: RetrySleep (base_delay * inject_Z (2 ^ (retries + 1 - 1)))%Q :: t)
            end
        else (Exc e, S k, [])
    end.
Proof. cbn [retry_loop]. unfold counted at 1. by destruct (f k). Qed.

(** The loop from the [k]-th call on, the first call that is not retried
    being the [k + n]-th. *)
Lemma retry_loop_stops n : forall iterations k,
  Z.of_nat k + Z.of_nat iterations = max_retries ->
  (n < iterations)%nat ->
  (forall i, (i < n)%nat -> caught exceptions (f (k + i)) = true) ->
  caught exceptions (f (k + n)) = false ->
  retry_loop max_retries base_delay exceptions (counted f) iterations (Z.of_nat k) k
  = (final_outcome (f (k + n)), S (k + n), retry_delays base_delay (S k) n).
Proof.
  induction n as [|n IH]; intros iterations k Hmax Hlt Hfail Hstop.
  - destruct iterations as [|it]; [lia|]. rewrite retry_loop_S.
    rewrite Nat.add_0_r in *. destruct (f k) as [a|e]; [done|].
    simpl in Hstop. by rewrite Hstop.
  - destruct iterations as [|it]; [lia|]. rewrite retry_loop_S.
    pose proof (Hfail 0%nat ltac:(lia)) as H0. rewrite Nat.add_0_r in H0.
    destruct (f k) as [a|e] eqn:Hk; [done|]. simpl in H0. rewrite H0.
    destruct (Z.eqb_spec (Z.of_nat k + 1) max_retries) as [E|_]; [lia|].
    replace (Z.of_nat k + 1) with (Z.of_nat (S k)) by lia.
    rewrite (IH it (S k)); [| lia | lia | |].
    + rewrite retry_delays_S. replace (S k + n)%nat with (k + S n)%nat by lia. done.
    + intros i Hi. replace (S k + i)%nat with (k + S i)%nat by lia. apply Hfail. lia.
    + by replace (S k + n)%nat with (k + S n)%nat by lia.
Qed.

(** The loop from the [k]-th call on when every call left fails. *)
Lemma retry_loop_exhausts : forall iterations k e,
  Z.of_nat k + Z.of_nat (S iterations) = max_retries ->
  (forall i, (i <= iterations)%nat -> caught exceptions (f (k + i)) = true) ->
  f (k + iterations) = Exc e ->
  retry_loop max_retries base_delay exceptions (counted f) (S iterations) (Z.of_nat k) k
  = (Exc e, S (k + iterations),
     (retry_delays base_delay (S k) iterations ++ [RetryError max_retries (str_exn e)])%list).
Proof.
  induction iterations as [|it IH]; intros k e Hmax Hfail Hlast.
  - rewrite retry_loop_S. rewrite Nat.add_0_r in *. rewrite Hlast.
    pose proof (Hfail 0%nat ltac:(lia)) as H0. rewrite Nat.add_0_r, Hlast in H0.
    simpl in H0. rewrite H0.
    destruct (Z.eqb_spec (Z.of_nat k + 1) max_retries) as [_|E]; [done|lia].
  - rewrite retry_loop_S.
    pose proof (Hfail 0%nat ltac:(lia)) as H0. rewrite Nat.add_0_r in H0.
    destruct (f k) as [a|e0] eqn:Hk; [done|]. simpl in H0. rewrite H0.
    destruct (Z.eqb_spec (Z.of_nat k + 1) max_retries) as [E|_]; [lia|].
    replace (Z.of_nat k + 1) with (Z.of_nat (S k)) by lia.
    rewrite (IH (S k) e); [| lia | |].
    + rewrite retry_delays_S. replace (S k + it)%nat with (k + S it)%nat by lia. done.
    + intros i Hi. replace (S k + i)%nat with (k + S i)%nat by lia. apply Hfail. lia.
    + by replace (S k + it)%nat with (k + S it)%nat in * by lia.
Qed.

End retry.

Lemma retry_sleeps_delays base_delay n : forall from,
  retry_sleeps (retry_delays base_delay from n)
  = (fun k => (base_delay * inject_Z (2 ^ (Z.of_nat k - 1)))%Q) <$> seq from n.
Proof.
  induction n as [|n IH]; intros from; [done|].
  rewrite retry_delays_S. unfold retry_sleeps in *. simpl. by rewrite IH.
Qed.

(** X16 (retry with exponential backoff).  With [max_retries <= 0] the
    function is not called and the result is None.  Otherwise the function
    is called until a call returns or raises an exception that is not
    retried, which ends the wrapper with that outcome, and at most
    [max_retries] times: after [max_retries] failures the last exception is
    raised, with no sleep after it.  The sleep after the k-th failure is
    [base_delay * 2^(k-1)]. *)
Theorem retry_backs_off_exponentially {A} max_retries base_delay exceptions
    (f : nat -> res A) :
  (max_retries <= 0 ->
   retry_on_error max_retries base_delay exceptions (counted f) 0%nat
   = (Val None, 0%nat, [])) /\
  (forall n,
     Z.of_nat n < max_retries ->
     (forall i, (i < n)%nat -> caught exceptions (f i) = true) ->
     caught exceptions (f n) = false ->
     retry_on_error max_retries base_delay exceptions (counted f) 0%nat
     = (final_outcome (f n), S n, retry_delays base_delay 1 n)) /\
  (forall e,
     0 < max_retries ->
     (forall i, Z.of_nat i < max_retries -> caught exceptions (f i) = true) ->
     f (Z.to_nat max_retries - 1)%nat = Exc e ->
     retry_on_error max_retries base_delay exceptions (counted f) 0%nat
     = (Exc e, Z.to_nat max_retries,
        (retry_delays base_delay 1 (Z.to_nat max_retries - 1)
         ++ [RetryError max_retries (str_exn e)])%list)) /\
  (forall n,
     retry_sleeps (retry_delays base_delay 1 n)
     = (fun k => (base_delay * inject_Z (2 ^ (Z.of_nat k - 1)))%Q) <$> seq 1 n).
Proof.
  unfold retry_on_error. repeat split.
  - intros Hle. by replace (Z.to_nat max_retries) with 0%nat by lia.
  - intros n Hlt Hfail Hstop.
    exact (retry_loop_stops max_retries base_delay exceptions f n (Z.to_nat max_retries)
             0%nat ltac:(lia) ltac:(lia) Hfail Hstop).
  - intros e Hpos Hfail Hlast.
    destruct (Z.to_nat max_retries) as [|it] eqn:Hit; [lia|].
    replace (S it - 1)%nat with it in * by lia.
    exact (retry_loop_exhausts max_retries base_delay exceptions f it 0%nat e
             ltac:(lia) ltac:(intros i Hi; apply Hfail; lia) Hlast).
  - intros n. apply retry_sleeps_delays.
Qed.

Lemma retry_backs_off_exponentially_witness :
  retry_on_error 3 1 any_exception (counted fails_twice) 0%nat
  = (final_outcome (fails_twice 2), 3%nat, retry_delays 1 1 2).
Proof.
  apply (retry_backs_off_exponentially 3 1 any_exception fails_twice).
  - reflexivity.
  - intros i Hi. destruct i as [|[|i]]; [reflexivity|reflexivity|lia].
  - reflexivity.
Defined.

(** ** Column names *)

Lemma elem_of_rename (old new x : string) (cols : list string) :
  x ∈ ((fun c => if String.eqb c old then new else c) <$> cols) <->
  (x = new /\ old ∈ cols) \/ (x <> old /\ x ∈ cols).
Proof.
  rewrite list_elem_of_fmap. split.
  - intros (c & -> & Hc). destruct (String.eqb_spec c old) as [->|Hne]; [by left|by right].
  - intros [[-> Ho]|[Hne Hx]].
    + exists old. by rewrite String.eqb_refl.
    + exists x. destruct (String.eqb_spec x old); [done|]. done.
Qed.

Lemma NoDup_rename (old new : string) (cols : list string) :
  NoDup cols -> new ∉ cols -> NoDup ((fun c => if String.eqb c old then new else c) <$> cols).
Proof.
  intros Hnd Hnew. apply NoDup_fmap_2_strong; [|done].
  intros a b Ha Hb. destruct (String.eqb_spec a old), (String.eqb_spec b old); intros E;
    subst; try done.
Qed.

(** One mapping: what it does to the labels. *)
Lemma apply_mapping_columns df m x :
  x ∈ columns (apply_mapping df m) <->
  (x = m.2 /\ (m.1 ∈ columns df \/ m.2 ∈ columns df)) \/
  (x <> m.2 /\ x ∈ columns df /\ (x = m.1 -> m.2 ∈ columns df)).
Proof.
  unfold apply_mapping. destruct m as [o n]. simpl.
  destruct (bool_decide_reflect (o ∈ columns df)) as [Ho|Ho];
    destruct (bool_decide_reflect (n ∈ columns df)) as [Hn|Hn]; simpl;
    rewrite ?elem_of_rename;
    destruct (decide (x = n)) as [Hxn|Hxn]; destruct (decide (x = o)) as [Hxo|Hxo];
    intuition (subst; eauto; congruence).
Qed.

Lemma apply_mapping_NoDup df m :
  NoDup (columns df) -> NoDup (columns (apply_mapping df m)).
Proof.
  unfold apply_mapping. intros Hnd.
  destruct (bool_decide_reflect (m.1 ∈ columns df)); [|done].
  destruct (bool_decide_reflect (m.2 ∈ columns df)); [done|]. simpl.
  by apply NoDup_rename.
Qed.

Lemma apply_mapping_rows df m : length (rows (apply_mapping df m)) = length (rows df).
Proof.
  unfold apply_mapping. destruct (_ && _); [|done]. simpl. by rewrite length_fmap.
Qed.

Lemma apply_mapping_cells df m col :
  col ∈ columns df -> col <> m.1 -> cells col (apply_mapping df m) = cells col df.
Proof.
  unfold apply_mapping, cells. intros Hc Hne.
  destruct (bool_decide_reflect (m.1 ∈ columns df)) as [Ho|Ho]; [|done].
  destruct (bool_decide_reflect (m.2 ∈ columns df)) as [Hn|Hn]; [done|]. simpl.
  rewrite <- list_fmap_compose. apply list_fmap_ext. intros _ r _. simpl.
  assert (col <> m.2) by (intros ->; done).
  unfold rename_key. destruct (r !! m.1).
  - by rewrite lookup_insert_ne, lookup_delete_ne.
  - by rewrite lookup_delete_ne.
Qed.

(** The mappings one after the other. *)
Lemma fold_mapping_columns (l : list (string * string)) : forall df x,
  NoDup l.*1 ->
  (forall o n, o ∈ l.*1 -> n ∈ l.*2 -> o <> n) ->
  x ∉ l.*1 ->
  x ∈ columns (fold_left apply_mapping l df) <->
  x ∈ columns df \/ exists o, (o, x) ∈ l /\ o ∈ columns df.
Proof.
  induction l as [|[o n] l IH]; intros df x Hnd Hdisj Hx; simpl.
  { split; [by left|]. intros [?|(o & Ho & _)]; [done|]. by apply elem_of_nil in Ho. }
  simpl in Hnd, Hx. apply NoDup_cons in Hnd as [Ho Hnd].
  apply not_elem_of_cons in Hx as [Hxo Hx].
  assert (forall o' n', o' ∈ l.*1 -> n' ∈ l.*2 -> o' <> n') as Hdisj'.
  { intros o' n' H1 H2. apply Hdisj; simpl; by apply elem_of_cons; right. }
  assert (forall o', o' ∈ l.*1 ->
            o' ∈ columns (apply_mapping df (o, n)) <-> o' ∈ columns df) as Hsrc.
  { intros o' Ho'. rewrite apply_mapping_columns. simpl.
    assert (o' <> n) by (apply Hdisj; simpl; [by apply elem_of_cons; right
                                           |by apply elem_of_cons; left]).
    assert (o' <> o) by (intros ->; done). intuition (subst; eauto; congruence). }
  rewrite (IH _ x Hnd Hdisj' Hx), apply_mapping_columns. simpl. split.
  - intros [[[-> [H|H]]|(Hne & H & _)]|(o' & Ho' & Hin)].
    + right. exists o. split; [by apply elem_of_cons; left|done].
    + by left.
    + by left.
    + right. exists o'. split; [by apply elem_of_cons; right|].
      apply Hsrc; [|done]. apply list_elem_of_fmap. by exists (o', x).
  - intros [H|(o' & Ho' & Hin)].
    + left. destruct (decide (x = n)) as [->|Hne]; [left; intuition (subst; eauto; congruence)|right; intuition (subst; eauto; congruence)].
    + apply elem_of_cons in Ho' as [E|Ho'].
      * injection E as -> ->. left. left. intuition (subst; eauto; congruence).
      * right. exists o'. split; [done|]. apply Hsrc; [|done].
        apply list_elem_of_fmap. by exists (o', x).
Qed.

Lemma fold_mapping_NoDup (l : list (string * string)) : forall df,
  NoDup (columns df) -> NoDup (columns (fold_left apply_mapping l df)).
Proof.
  induction l as [|m l IH]; intros df Hnd; [done|]. simpl. by apply IH, apply_mapping_NoDup.
Qed.

Lemma fold_mapping_rows (l : list (string * string)) : forall df,
  length (rows (fold_left apply_mapping l df)) = length (rows df).
Proof.
  induction l as [|m l IH]; intros df; [done|]. simpl. by rewrite IH, apply_mapping_rows.
Qed.

Lemma fold_mapping_cells (l : list (string * string)) col : forall df,
  col ∈ columns df -> col ∉ l.*1 ->
  col ∈ columns (fold_left apply_mapping l df) /\
  cells col (fold_left apply_mapping l df) = cells col df.
Proof.
  induction l as [|m l IH]; intros df Hc Hne; [done|]. simpl in *.
  apply not_elem_of_cons in Hne as [Hm Hne].
  assert (col ∈ columns (apply_mapping df m)) as Hc'.
  { apply apply_mapping_columns. destruct (decide (col = m.2)); intuition (subst; eauto; congruence). }
  destruct (IH _ Hc' Hne) as [H1 H2]. split; [done|].
  by rewrite H2, apply_mapping_cells.
Qed.

Lemma fold_mapping_id (l : list (string * string)) df :
  (forall m, m ∈ l -> m.2 ∈ columns df) -> fold_left apply_mapping l df = df.
Proof.
  induction l as [|m l IH]; intros H; [done|]. simpl.
  assert (apply_mapping df m = df) as ->.
  { unfold apply_mapping. rewrite (bool_decide_eq_true_2 (m.2 ∈ columns df)).
    - by rewrite andb_false_r.
    - apply H. by apply elem_of_cons; left. }
  apply IH. intros m' Hm'. apply H. by apply elem_of_cons; right.
Qed.

Lemma column_mappings_sources : NoDup column_mappings.*1.
Proof. apply (bool_decide_unpack _). vm_compute. exact I. Qed.

Lemma column_mappings_disjoint o n :
  o ∈ column_mappings.*1 -> n ∈ column_mappings.*2 -> o <> n.
Proof.
  intros Ho Hn ->.
  assert (Forall (fun x => x ∉ column_mappings.*2) column_mappings.*1) as H.
  { apply (bool_decide_unpack _). vm_compute. exact I. }
  by eapply Forall_forall in H.
Qed.

Lemma provided_spec cols col :
  provided cols col = true <->
  col ∈ cols \/ exists o, (o, col) ∈ column_mappings /\ o ∈ cols.
Proof.
  unfold provided. rewrite orb_true_iff, bool_decide_eq_true, existsb_exists.
  split; (intros [H|H]; [by left|right]).
  - destruct H as ([o n] & Hin & H). apply andb_true_iff in H as [E Ho]. simpl in *.
    apply String.eqb_eq in E as ->. apply bool_decide_eq_true in Ho.
    exists o. split; [by apply list_elem_of_In|done].
  - destruct H as (o & Hin & Ho). exists (o, col). split; [by apply list_elem_of_In|].
    simpl. by rewrite String.eqb_refl, bool_decide_eq_true_2.
Qed.

Lemma mapped_columns df col :
  historical col = false ->
  bool_decide (col ∈ columns (fold_left apply_mapping column_mappings df))
  = provided (columns df) col.
Proof.
  intros Hh. apply eq_true_iff_eq. rewrite bool_decide_eq_true, provided_spec.
  apply fold_mapping_columns.
  - apply column_mappings_sources.
  - apply column_mappings_disjoint.
  - unfold historical in Hh. by apply bool_decide_eq_false in Hh.
Qed.

(** The date columns: what the second part of the method does. *)
Lemma special_date_columns_spec df :
  (forall x, x ∈ columns (special_date_columns df) <->
             x ∈ columns df \/ x = "FechaEtapaAprobacionMasivaFin" \/ x = "FechaExpendiente") /\
  (NoDup (columns df) -> NoDup (columns (special_date_columns df))) /\
  length (rows (special_date_columns df)) = length (rows df) /\
  (forall c, c ∈ columns df -> cells c (special_date_columns df) = cells c df).
Proof.
  unfold special_date_columns.
  set (df1 := if bool_decide ("FechaEtapaAprobacionMasivaFin" ∈ columns df) then df
              else set_column_NaT "FechaEtapaAprobacionMasivaFin" df).
  assert ((forall x, x ∈ columns df1 <->
                     x ∈ columns df \/ x = "FechaEtapaAprobacionMasivaFin") /\
          (NoDup (columns df) -> NoDup (columns df1)) /\
          length (rows df1) = length (rows df) /\
          (forall c, c ∈ columns df -> cells c df1 = cells c df)) as (Hc1 & Hn1 & Hl1 & Hd1).
  { subst df1. destruct (bool_decide_reflect ("FechaEtapaAprobacionMasivaFin" ∈ columns df))
      as [Hin|Hin].
    - repeat split; try done; intuition (subst; eauto; congruence).
    - unfold set_column_NaT, cells. simpl. rewrite (bool_decide_eq_false_2 _ Hin).
      repeat split.
      + rewrite elem_of_app, list_elem_of_singleton. done.
      + rewrite elem_of_app, list_elem_of_singleton. done.
      + intros Hnd. apply NoDup_app. repeat split; [done| |apply NoDup_singleton].
        intros x Hx Hx'. apply list_elem_of_singleton in Hx'. by subst.
      + by rewrite length_fmap.
      + intros c Hc. rewrite <- list_fmap_compose. apply list_fmap_ext. intros _ r _.
        simpl. apply lookup_delete_ne. by intros <-. }
  destruct (bool_decide_reflect ("FechaExpendiente" ∈ columns df1)) as [Hin|Hin].
  { repeat split; try done.
    - intros Hx. apply Hc1 in Hx. intuition (subst; eauto; congruence).
    - intros [Hx|[Hx|Hx]]; [apply Hc1; by left|apply Hc1; by right|by subst]. }
  assert (forall df2,
            columns df2 = (columns df1 ++ ["FechaExpendiente"])%list ->
            length (rows df2) = length (rows df1) ->
            (forall c, c ∈ columns df1 -> cells c df2 = cells c df1) ->
            (forall x, x ∈ columns df2 <->
               x ∈ columns df \/ x = "FechaEtapaAprobacionMasivaFin" \/ x = "FechaExpendiente") /\
            (NoDup (columns df) -> NoDup (columns df2)) /\
            length (rows df2) = length (rows df) /\
            (forall c, c ∈ columns df -> cells c df2 = cells c df)) as Hgen.
  { intros df2 Hcols Hlen Hcells. rewrite Hcols. repeat split.
    - rewrite elem_of_app, list_elem_of_singleton, Hc1. intuition (subst; eauto; congruence).
    - rewrite elem_of_app, list_elem_of_singleton, Hc1. intuition (subst; eauto; congruence).
    - intros Hnd. apply NoDup_app. repeat split; [by apply Hn1| |apply NoDup_singleton].
      intros x Hx Hx'. apply list_elem_of_singleton in Hx'. by subst.
    - by rewrite Hlen.
    - intros c Hc. rewrite Hcells; [by apply Hd1|]. apply Hc1. by left. }
  destruct (bool_decide ("FechaPre" ∈ columns df1)); apply Hgen.
  - unfold copy_column. simpl. by rewrite (bool_decide_eq_false_2 _ Hin).
  - unfold copy_column. simpl. by rewrite length_fmap.
  - intros c Hc. unfold copy_column, cells. simpl.
    rewrite <- list_fmap_compose. apply list_fmap_ext. intros _ r _. simpl.
    assert (c <> "FechaExpendiente") by (by intros ->).
    destruct (r !! "FechaPre"); [by rewrite lookup_insert_ne|by rewrite lookup_delete_ne].
  - unfold set_column_NaT. simpl. by rewrite (bool_decide_eq_false_2 _ Hin).
  - unfold set_column_NaT. simpl. by rewrite length_fmap.
  - intros c Hc. unfold set_column_NaT, cells. simpl.
    rewrite <- list_fmap_compose. apply list_fmap_ext. intros _ r _. simpl.
    apply lookup_delete_ne. by intros <-.
Qed.

Ltac in_list := apply (bool_decide_unpack _); vm_compute; exact I.

Lemma file_columns_spec c :
  c ∈ file_columns ->
  c <> "FechaEtapaAprobacionMasivaFin" /\ c <> "FechaExpendiente" /\ historical c = false.
Proof.
  unfold file_columns. rewrite !elem_of_cons, elem_of_nil.
  intros [->|[->|[->|Hf]]]; [..|done]; (split; [done|split; [done|by vm_compute]]).
Qed.

(** Which of the required columns the method finds at the end. *)
Lemma required_after_mapping df :
  List.filter
    (fun col => negb (bool_decide
       (col ∈ columns (special_date_columns (fold_left apply_mapping column_mappings df)))))
    required_columns
  = List.filter (fun col => negb (provided (columns df) col)) file_columns.
Proof.
  destruct (special_date_columns_spec (fold_left apply_mapping column_mappings df))
    as (Hc & _).
  assert (forall c, c ∈ file_columns ->
            bool_decide (c ∈ columns (special_date_columns
                                        (fold_left apply_mapping column_mappings df)))
            = provided (columns df) c) as Hfile.
  { intros c Hin. destruct (file_columns_spec c Hin) as (H1 & H2 & H3).
    rewrite <- mapped_columns by done.
    apply bool_decide_ext. rewrite Hc. split; [|by left].
    by intros [H|[H|H]]. }
  unfold required_columns, file_columns. cbn [List.filter].
  rewrite (Hfile "FechaPre"), (Hfile "OperadorPre"), (Hfile "NumeroTramite") by in_list.
  rewrite (bool_decide_eq_true_2 ("FechaExpendiente" ∈ _)) by (apply Hc; by right; right).
  simpl negb. cbv iota.
  by destruct (provided (columns df) "FechaPre"), (provided (columns df) "OperadorPre"),
    (provided (columns df) "NumeroTramite").
Qed.

(** X17 (column names are mapped, and the missing ones reported).  For a
    frame with distinct labels, the method succeeds exactly when each of
    FechaPre, OperadorPre and NumeroTramite is a label of the file or has a
    historical name among them; otherwise it raises a ValueError whose
    message lists the ones that have neither, and never FechaExpendiente.
    In both cases the two date columns exist afterwards, the labels are
    still distinct, no row is added or dropped, and a column that does
    not bear a historical name keeps its label and its cells. *)
Theorem missing_columns_are_reported df :
  NoDup (columns df) ->
  (_map_and_validate_columns df).1
  = match List.filter (fun col => negb (provided (columns df) col)) file_columns with
    | [] => Val tt
    | missing => Exc (ValueError (missing_message missing))
    end /\
  (forall col, col ∈ file_columns ->
     col ∈ columns (_map_and_validate_columns df).2 <-> provided (columns df) col = true) /\
  "FechaEtapaAprobacionMasivaFin" ∈ columns (_map_and_validate_columns df).2 /\
  "FechaExpendiente" ∈ columns (_map_and_validate_columns df).2 /\
  NoDup (columns (_map_and_validate_columns df).2) /\
  length (rows (_map_and_validate_columns df).2) = length (rows df) /\
  (forall col, col ∈ columns df -> historical col = false ->
     col ∈ columns (_map_and_validate_columns df).2 /\
     cells col (_map_and_validate_columns df).2 = cells col df).
Proof.
  intros Hnd.
  set (df1 := fold_left apply_mapping column_mappings df).
  assert ((_map_and_validate_columns df).2 = special_date_columns df1) as Hout.
  { unfold _map_and_validate_columns. cbv zeta. fold df1. by destruct (List.filter _ _). }
  assert ((_map_and_validate_columns df).1
          = match List.filter (fun col => negb (provided (columns df) col)) file_columns with
            | [] => Val tt
            | missing => Exc (ValueError (missing_message missing))
            end) as Hres.
  { unfold _map_and_validate_columns. cbv zeta. rewrite required_after_mapping.
    by destruct (List.filter _ file_columns). }
  rewrite Hout. destruct (special_date_columns_spec df1) as (Hc & Hn & Hl & Hd).
  split; [exact Hres|]. split; [|split; [|split; [|split; [|split]]]].
  - intros col Hin. destruct (file_columns_spec col Hin) as (H1 & H2 & H3).
    rewrite Hc. subst df1. rewrite <- mapped_columns by done.
    rewrite bool_decide_eq_true. split; [|by left].
    by intros [H|[H|H]].
  - apply Hc. by right; left.
  - apply Hc. by right; right.
  - apply Hn. by apply fold_mapping_NoDup.
  - rewrite Hl. apply fold_mapping_rows.
  - intros col Hin Hh. unfold historical in Hh. apply bool_decide_eq_false in Hh.
    destruct (fold_mapping_cells column_mappings col df Hin Hh) as [H1 H2].
    split; [apply Hc; by left|]. by rewrite Hd.
Qed.

Lemma missing_columns_are_reported_witness :
  (_map_and_validate_columns old_report).1 = Val tt /\
  cells "Dependencia" (_map_and_validate_columns old_report).2 = cells "Dependencia" old_report.
Proof.
  assert (NoDup (columns old_report)) as Hnd
    by (apply (bool_decide_unpack _); vm_compute; exact I).
  split.
  - exact (proj1 (missing_columns_are_reported old_report Hnd)).
  - refine (proj2 (proj2 (proj2 (proj2 (proj2 (proj2 (proj2
              (missing_columns_are_reported old_report Hnd)))))) "Dependencia" _ _)).
    + in_list.
    + reflexivity.
Defined.

(** X18 (validating twice changes nothing more).  After a call that
    succeeds, a second call succeeds and leaves the frame as the first
    one left it. *)
Theorem column_mapping_is_idempotent df :
  (_map_and_validate_columns df).1 = Val tt ->
  _map_and_validate_columns (_map_and_validate_columns df).2
  = (Val tt, (_map_and_validate_columns df).2).
Proof.
  intros Hok.
  assert (forall c, c ∈ required_columns -> c ∈ columns (_map_and_validate_columns df).2)
    as Hreq.
  { revert Hok. unfold _map_and_validate_columns. cbv zeta.
    destruct (List.filter _ required_columns) eqn:Hf; [|done]. intros _ c Hc. cbn [snd].
    destruct (bool_decide_reflect
                (c ∈ columns (special_date_columns
                                (fold_left apply_mapping column_mappings df)))) as [H|H];
      [done|].
    assert (c ∈ List.filter
              (fun col => negb (bool_decide
                 (col ∈ columns (special_date_columns
                                   (fold_left apply_mapping column_mappings df)))))
              required_columns) as Hin.
    { apply list_elem_of_In, filter_In. split; [by apply list_elem_of_In|].
      by rewrite (bool_decide_eq_false_2 _ H). }
    rewrite Hf in Hin. by apply elem_of_nil in Hin. }
  assert ("FechaEtapaAprobacionMasivaFin" ∈ columns (_map_and_validate_columns df).2) as Hd.
  { unfold _map_and_validate_columns. cbv zeta.
    destruct (special_date_columns_spec (fold_left apply_mapping column_mappings df))
      as (Hc & _).
    destruct (List.filter _ _); cbn [snd]; apply Hc; by right; left. }
  set (df' := (_map_and_validate_columns df).2) in *.
  unfold _map_and_validate_columns. cbv zeta.
  rewrite (fold_mapping_id column_mappings df').
  2:{ intros m Hm. revert Hm. unfold column_mappings. rewrite !elem_of_cons, elem_of_nil.
      intros H. repeat (destruct H as [->|H]; [first [exact Hd | apply Hreq; in_list]|]).
      done. }
  assert (special_date_columns df' = df') as ->.
  { unfold special_date_columns. rewrite (bool_decide_eq_true_2 _ Hd).
    rewrite bool_decide_eq_true_2; [done|]. apply Hreq. in_list. }
  assert (List.filter (fun col => negb (bool_decide (col ∈ columns df'))) required_columns
          = []) as ->; [|done].
  unfold required_columns. cbn [List.filter].
  rewrite !bool_decide_eq_true_2; [done|..]; apply Hreq; in_list.
Qed.

Lemma column_mapping_is_idempotent_witness :
  _map_and_validate_columns (_map_and_validate_columns old_report).2
  = (Val tt, (_map_and_validate_columns old_report).2).
Proof.
  apply (column_mapping_is_idempotent old_report).
  reflexivity.
Defined.
